(** * Card identification engine of the Poke-Scanner service

    A shallow embedding of [src/scanner_app.py] (the [/api/scan] handler
    [scan_card] with its helpers [clean_text] and [get_full_card_details])
    and of the similarity computations of
    [src/pokemon_clip_embeddings.py], with the properties the
    specification states about them.

    Conventions of the model.
    - A Python [str] is a [string]; every [ascii] stands for one code
      point below 256.  Python's [\d] and [\s] are taken on that range.
    - Python integers are [Z].
    - numpy floating point numbers are idealised as real numbers [R]:
      rounding, infinities and NaN are outside the model.
    - A Python exception is a value [Raise e] of the [result] monad; the
      handler of [scan_card] turns it into the 500 response. *)

From Stdlib Require Import Bool Arith ZArith Lia List Ascii String.
From Stdlib Require Import Permutation Sorted DecimalString.
From Stdlib Require Import Reals Lra.
Import ListNotations.

Open Scope string_scope.
Open Scope list_scope.

(* ================================================================= *)
(** * The program *)

(** ** Exceptions *)

Inductive exn : Type :=
| KeyError (key : string)
| IndexError
| ValueError.

Inductive result (A : Type) : Type :=
| Ok (a : A)
| Raise (e : exn).

Arguments Ok {A} a.
Arguments Raise {A} e.

Definition bind {A B : Type} (m : result A) (k : A -> result B) : result B :=
  match m with
  | Ok a => k a
  | Raise e => Raise e
  end.

Notation "x <- m ;; k" := (bind m (fun x => k))
  (at level 61, m at next level, right associativity).

(* ================================================================= *)
(** ** Text *)

Module Text.

(** Characters, by code point. *)

Definition code (c : ascii) : nat := nat_of_ascii c.

Definition is_digit (c : ascii) : bool :=
  ((48 <=? code c) && (code c <=? 57))%nat.

Definition is_upper (c : ascii) : bool :=
  ((65 <=? code c) && (code c <=? 90))%nat.

Definition is_lower (c : ascii) : bool :=
  ((97 <=? code c) && (code c <=? 122))%nat.

(** The class [[a-zA-Z0-9]] of [clean_text]. *)
Definition is_alnum (c : ascii) : bool :=
  is_lower c || is_upper c || is_digit c.

(** Python's [\s] on a [str] pattern: the code points for which
    [str.isspace] holds; below 256 these are 9 to 13, 28 to 32, 133
    and 160. *)
Definition is_space (c : ascii) : bool :=
  (((9 <=? code c) && (code c <=? 13))
   || ((28 <=? code c) && (code c <=? 32))
   || (code c =? 133) || (code c =? 160))%nat.

(** [str.lower] on one character.  [clean_text] lowers only what
    survived the filter, that is ASCII letters and digits. *)
Definition lower (c : ascii) : ascii :=
  if is_upper c then ascii_of_nat (code c + 32) else c.

Fixpoint filter (p : ascii -> bool) (s : string) : string :=
  match s with
  | EmptyString => EmptyString
  | String c s' => if p c then String c (filter p s') else filter p s'
  end.

Fixpoint map (f : ascii -> ascii) (s : string) : string :=
  match s with
  | EmptyString => EmptyString
  | String c s' => String (f c) (map f s')
  end.

Fixpoint forallb (p : ascii -> bool) (s : string) : bool :=
  match s with
  | EmptyString => true
  | String c s' => p c && forallb p s'
  end.

(** [re.sub(r'[^a-zA-Z0-9]', '', text).lower()] *)
Definition clean_text (text : string) : string :=
  map lower (filter is_alnum text).

(** Python's [needle in hay] on strings. *)
Fixpoint str_in (needle hay : string) : bool :=
  if prefix needle hay then true
  else match hay with
       | EmptyString => false
       | String _ hay' => str_in needle hay'
       end.

(** The truth value of a string: empty is false. *)
Definition truthy (s : string) : bool :=
  match s with
  | EmptyString => false
  | String _ _ => true
  end.

(** [sep.join(parts)] *)
Fixpoint join (sep : string) (parts : list string) : string :=
  match parts with
  | [] => ""
  | [p] => p
  | p :: rest => p ++ sep ++ join sep rest
  end.

(** *** Fragments

    [sorted(list(set([clean_text(t) for t in ocr_results])), key=len,
    reverse=True)].  Python leaves the iteration order of a set
    unspecified; the model lists a set in first-seen order, and no
    score depends on that choice ([sweep_any_fragment_order]).
    [sorted] is stable, also under [reverse=True]: fragments of equal
    length keep the order in which the set lists them. *)

Fixpoint mem (s : string) (l : list string) : bool :=
  match l with
  | [] => false
  | x :: l' => String.eqb s x || mem s l'
  end.

Fixpoint set_list_acc (seen : list string) (l : list string) : list string :=
  match l with
  | [] => []
  | x :: l' =>
      if mem x seen then set_list_acc seen l'
      else x :: set_list_acc (x :: seen) l'
  end.

Definition set_list (l : list string) : list string := set_list_acc [] l.

Fixpoint insert_by_len (x : string) (l : list string) : list string :=
  match l with
  | [] => [x]
  | y :: l' =>
      if (length x <? length y)%nat then y :: insert_by_len x l'
      else x :: l
  end.

Definition sorted_by_len_desc (l : list string) : list string :=
  fold_right insert_by_len [] l.

Definition detected_texts (ocr_results : list string) : list string :=
  sorted_by_len_desc (set_list (List.map clean_text ocr_results)).

Definition raw_ocr_text (ocr_results : list string) : string :=
  join " " ocr_results.

(** *** Number fractions

    [re.findall(r'(\d+)\s*/\s*(\d+)', raw_ocr_text)].

    The pattern is matched the way the [re] module matches it, by
    backtracking: a greedy quantifier first takes the longest run and
    gives characters back, one at a time, while the rest of the
    pattern fails.  A matcher takes the text and a continuation, which
    receives what was consumed and what is left. *)

Section Backtracking.

Context {T : Type}.

(** [p*], greedy. *)
Fixpoint star (p : ascii -> bool) (s : string)
    (k : string -> string -> option T) : option T :=
  match s with
  | String c s' =>
      if p c then
        match star p s' (fun run rest => k (String c run) rest) with
        | Some r => Some r
        | None => k "" s
        end
      else k "" s
  | EmptyString => k "" s
  end.

(** [p+], greedy: one character of the class, then [p*]. *)
Definition plus (p : ascii -> bool) (s : string)
    (k : string -> string -> option T) : option T :=
  match s with
  | String c s' =>
      if p c then star p s' (fun run rest => k (String c run) rest)
      else None
  | EmptyString => None
  end.

(** One literal character. *)
Definition chr (c0 : ascii) (s : string) (k : string -> option T)
  : option T :=
  match s with
  | String c s' => if Ascii.eqb c c0 then k s' else None
  | EmptyString => None
  end.

End Backtracking.

(** The pattern at the start of [s]: the two groups and the text left
    after the match. *)
Definition match_pattern (s : string) : option ((string * string) * string) :=
  plus is_digit s (fun num r1 =>
  star is_space r1 (fun _ r2 =>
  chr "/" r2 (fun r3 =>
  star is_space r3 (fun _ r4 =>
  plus is_digit r4 (fun den r5 =>
  Some ((num, den), r5)))))).

(** [findall] tries the starts from left to right and resumes right
    after a match (a match of this pattern is never empty). *)
Fixpoint findall_fuel (fuel : nat) (s : string) : list (string * string) :=
  match fuel with
  | O => []
  | S fuel' =>
      match match_pattern s with
      | Some (groups, rest) => groups :: findall_fuel fuel' rest
      | None =>
          match s with
          | EmptyString => []
          | String _ s' => findall_fuel fuel' s'
          end
      end
  end.

(** Every step consumes at least one character, so [length s] steps and
    one more to see the end are enough ([findall_fuel_enough]). *)
Definition findall (s : string) : list (string * string) :=
  findall_fuel (S (length s)) s.

End Text.

(* ================================================================= *)
(** ** Embedding vectors and similarity *)

Module Embedding.

Local Open Scope R_scope.

(** One row of [search_index['embeddings']], or a query embedding.
    The components are real numbers: the rounding of float32 and
    float64 is not modelled.  What is proved of the code from these
    definitions is what does not depend on the values: which result
    is [None], which exception is raised, the lengths, and that a
    chosen position is in range. *)
Definition vec : Type := list R.

Fixpoint dot (u v : vec) : R :=
  match u, v with
  | x :: u', y :: v' => x * y + dot u' v'
  | _, _ => 0
  end.

Definition norm (u : vec) : R := sqrt (dot u u).

(** scipy's cosine distance of two vectors,
    [1 - u.v / (||u|| * ||v||)], in exact arithmetic: scipy computes
    it in float64, with rounding, and gives [nan] for a vector of norm
    zero, where this definition gives 1. *)
Definition cosine_distance (u v : vec) : R :=
  1 - dot u v / (norm u * norm v).

Definition same_dim (q : vec) (rows : list vec) : bool :=
  List.forallb (fun e => (List.length e =? List.length q)%nat) rows.

(** [cdist(q.reshape(1, -1), rows, 'cosine')], the one row of the
    result.  scipy raises [ValueError] when the numbers of columns
    differ. *)
Definition cdist_cosine (q : vec) (rows : list vec) : result (list R) :=
  if same_dim q rows then Ok (List.map (cosine_distance q) rows)
  else Raise ValueError.

(** [1 - cdist(...)], lines 163 to 164 of the scanner. *)
Definition tiebreak_similarities (q : vec) (rows : list vec)
  : result (list R) :=
  ds <- cdist_cosine q rows ;;
  Ok (List.map (fun d => 1 - d) ds).

(** [np.dot(embeddings, query_embedding)] of [search_similar_cards];
    numpy raises [ValueError] when the shapes are not aligned. *)
Definition np_dot (rows : list vec) (q : vec) : result (list R) :=
  if same_dim q rows then Ok (List.map (fun e => dot e q) rows)
  else Raise ValueError.

(** [np.argmax]: the index of the first occurrence of the maximum;
    [ValueError] on an empty array. *)
Fixpoint argmax_from (best_i : nat) (best : R) (i : nat) (l : list R) : nat :=
  match l with
  | [] => best_i
  | x :: l' =>
      if Rlt_dec best x then argmax_from i x (S i) l'
      else argmax_from best_i best (S i) l'
  end.

Definition argmax (l : list R) : result nat :=
  match l with
  | [] => Raise ValueError
  | x :: l' => Ok (argmax_from 0 x 1 l')
  end.

(** [process_image], lines 98 to 115: the CLIP features of the image,
    divided by their norm; [None] when anything raised.  Opening the
    file, the preprocessing and the CLIP model are not modelled:
    [encode_image] stands for them. *)

Section ProcessImage.

Variable path : Type.
Variable encode_image : path -> result vec.

(** [image_features / image_features.norm(dim=-1, keepdim=True)], in
    exact arithmetic: the code divides in float32, and what it returns
    has a norm close to 1, not 1. *)
Definition normalize (image_features : vec) : vec :=
  List.map (fun x => x / norm image_features) image_features.

Definition process_image (image_path : path) : option vec :=
  match encode_image image_path with
  | Ok image_features => Some (normalize image_features)
  | Raise _ => None
  end.


End ProcessImage.

End Embedding.

(* ================================================================= *)
(** ** The scanner *)

Module Scanner.

Import Text Embedding.

(** *** Catalog records

    The catalog is the JSON list [all_cards]; a card is a dict.  The
    model keeps the keys [scan_card] reads.  A key that it reads with
    [.get] or after an [in] test may be missing and is an [option]
    field: ['name'], ['number'], ['set'], ['printedTotal'],
    ['attacks'] and the ['name'] of an attack.  The key ['id'] is
    subscripted in every lookup. *)

(** The JSON scalars that [str] is applied to.  Floats are left out:
    [str] of a float has a point or an exponent and equals no run of
    digits. *)
Inductive pyval : Type :=
| PNone
| PBool (b : bool)
| PInt (z : Z)
| PStr (s : string).

(** Python's [str(v)]. *)
Definition py_str (v : pyval) : string :=
  match v with
  | PNone => "None"
  | PBool true => "True"
  | PBool false => "False"
  | PInt z => NilZero.string_of_int (Z.to_int z)
  | PStr s => s
  end.

Record Attack : Type := {
  attack_name : option string            (* attack['name'] *)
}.

Record CardSet : Type := {
  printedTotal : option pyval            (* card['set']['printedTotal'] *)
}.

Record Card : Type := {
  id : string;                           (* card['id'] *)
  name : option string;                  (* card['name'] *)
  number : option pyval;                 (* card['number'] *)
  set : option CardSet;                  (* card['set'] *)
  attacks : option (list Attack)         (* card['attacks'] *)
}.

(** One entry of [search_index['metadata']], as [generate_embeddings]
    writes it: both keys are always present, [card_id] is [''] for an
    image without a card. *)
Record Meta : Type := {
  card_id : string;
  meta_name : string
}.

Record SearchIndex : Type := {
  metadata : list Meta;
  embeddings : list vec
}.

(** An element of [card_scores]. *)
Record Candidate : Type := {
  score : Z;
  index : nat;
  meta : Meta
}.

(** What [scan_card] answers: the match document with status 200, the
    404 answer, or the 500 answer of the handler's [except]. *)
Inductive response : Type :=
| Found (metadata : Card) (ocr_confirmed : bool) (score : Z)
        (match_method : string)
| NotFound
| InternalError (e : exn).

(** [d.get(key, default)] on an optional key. *)
Definition get {A : Type} (field : option A) (default : A) : A :=
  match field with
  | Some v => v
  | None => default
  end.

(** [card['name']] *)
Definition subscript_name (card : Card) : result string :=
  match name card with
  | Some n => Ok n
  | None => Raise (KeyError "name")
  end.

(** [next((card for card in processor.all_cards if card['id'] ==
    card_id), None)] *)
Definition get_full_card_details (card_id : string) (all_cards : list Card)
  : option Card :=
  find (fun card => String.eqb (id card) card_id) all_cards.

(** *** Scoring one card (lines 104 to 131) *)

Section Scoring.

Variable card_number_matches : list (string * string).
Variable detected_texts : list string.

(** The loop of check 1.  On a match the score grows by 100, the log
    line formats [full_card_details['name']], and the loop breaks. *)
Fixpoint number_loop (full_card_details : Card) (card_num set_total : pyval)
    (matches : list (string * string)) (score : Z) : result Z :=
  match matches with
  | [] => Ok score
  | (ocr_num, ocr_total) :: rest =>
      if String.eqb (py_str card_num) ocr_num
         && String.eqb (py_str set_total) ocr_total
      then
        let score := (score + 100)%Z in
        _ <- subscript_name full_card_details ;;
        Ok score
      else number_loop full_card_details card_num set_total rest score
  end.

Definition check_number (full_card_details : Card) (score : Z) : result Z :=
  match card_number_matches with
  | [] => Ok score
  | _ :: _ =>
      let card_num := get (number full_card_details) PNone in
      let set_total :=
        get (printedTotal
               (get (set full_card_details) {| printedTotal := None |}))
            PNone in
      number_loop full_card_details card_num set_total
                  card_number_matches score
  end.

(** The loop of check 2, with its [break]. *)
Fixpoint name_loop (card_name_clean : string) (texts : list string)
    (score : Z) : Z :=
  match texts with
  | [] => score
  | text :: rest =>
      if (4 <=? length text)%nat
         && (str_in text card_name_clean || str_in card_name_clean text)
      then (score + 20)%Z
      else name_loop card_name_clean rest score
  end.

Definition check_name (full_card_details : Card) (score : Z) : Z :=
  let card_name_clean := clean_text (get (name full_card_details) "") in
  name_loop card_name_clean detected_texts score.

(** The loop of check 3. *)
Fixpoint attack_loop (attack_list : list Attack) (score : Z) : Z :=
  match attack_list with
  | [] => score
  | attack :: rest =>
      let attack_name_clean := clean_text (get (attack_name attack) "") in
      if truthy attack_name_clean
         && existsb (fun t => str_in attack_name_clean t) detected_texts
      then attack_loop rest (score + 10)%Z
      else attack_loop rest score
  end.

Definition check_attacks (full_card_details : Card) (score : Z) : Z :=
  match attacks full_card_details with
  | Some attack_list => attack_loop attack_list score
  | None => score
  end.

Definition score_card (full_card_details : Card) : result Z :=
  let score := 0%Z in
  score <- check_number full_card_details score ;;
  let score := check_name full_card_details score in
  let score := check_attacks full_card_details score in
  Ok score.

(** Stage 3: the sweep over [enumerate(search_index['metadata'])],
    from position [i] on. *)
Fixpoint sweep (all_cards : list Card) (i : nat) (metas : list Meta)
  : result (list Candidate) :=
  match metas with
  | [] => Ok []
  | indexed_meta :: rest =>
      match get_full_card_details (card_id indexed_meta) all_cards with
      | None => sweep all_cards (S i) rest
      | Some full_card_details =>
          score <- score_card full_card_details ;;
          card_scores <- sweep all_cards (S i) rest ;;
          Ok (if (0 <? score)%Z
              then {| score := score; index := i; meta := indexed_meta |}
                     :: card_scores
              else card_scores)
      end
  end.

End Scoring.

(** *** Stage 4 *)

(** [card_scores.sort(key=lambda x: x['score'], reverse=True)]: a
    stable sort, candidates of equal score keep their order. *)
Fixpoint insert_by_score (c : Candidate) (l : list Candidate)
  : list Candidate :=
  match l with
  | [] => [c]
  | d :: l' =>
      if (score c <? score d)%Z then d :: insert_by_score c l'
      else c :: l
  end.

Definition sort_by_score_desc (l : list Candidate) : list Candidate :=
  fold_right insert_by_score [] l.

Definition best_candidates_of (top_score : Z) (card_scores : list Candidate)
  : list Candidate :=
  List.filter (fun c => (score c =? top_score)%Z) card_scores.

(** [search_index['embeddings'][c['index']]] for every best candidate;
    numpy raises [IndexError] past the end of the array. *)
Fixpoint tiebreaker_rows (embeddings : list vec) (cs : list Candidate)
  : result (list vec) :=
  match cs with
  | [] => Ok []
  | c :: cs' =>
      match nth_error embeddings (index c) with
      | None => Raise IndexError
      | Some e =>
          rows <- tiebreaker_rows embeddings cs' ;;
          Ok (e :: rows)
      end
  end.

(** Lines 162 to 167: the card chosen by the tie-break. *)
Definition tie_break (all_cards : list Card) (search_index : SearchIndex)
    (best_candidates : list Candidate) (query_embedding : vec)
  : result (option Card) :=
  tiebreaker_embeddings <-
    tiebreaker_rows (embeddings search_index) best_candidates ;;
  similarities <- tiebreak_similarities query_embedding tiebreaker_embeddings ;;
  best_match_index <- argmax similarities ;;
  match nth_error best_candidates best_match_index with
  | None => Raise IndexError
  | Some c => Ok (get_full_card_details (card_id (meta c)) all_cards)
  end.

(** Lines 169 to 180. *)
Definition respond (final_match_card : option Card) (top_score : Z)
    (match_method : string) : result response :=
  match final_match_card with
  | Some card =>
      _ <- subscript_name card ;;              (* the log line 176 *)
      Ok (Found card true top_score match_method)
  | None => Ok NotFound
  end.

(** Stage 4, lines 141 to 180: rank the candidates and decide.  The
    log line 143 reads [c['meta']['name']], a key every metadata entry
    has.  Writing the query image to a temporary file and removing it
    (lines 157 to 160) is not modelled. *)
Definition determine_best_match (all_cards : list Card)
    (search_index : SearchIndex) (query_embedding : option vec)
    (card_scores : list Candidate) : result response :=
  let card_scores := sort_by_score_desc card_scores in
  match card_scores with
  | [] => Raise IndexError                  (* card_scores[0] *)
  | c0 :: _ =>
      let top_score := score c0 in
      let best_candidates := best_candidates_of top_score card_scores in
      match best_candidates with
      | [c] =>
          respond (get_full_card_details (card_id (meta c)) all_cards)
                  top_score "Scoring"
      | _ =>
          match query_embedding with
          | Some q =>
              final_match_card <-
                tie_break all_cards search_index best_candidates q ;;
              respond final_match_card top_score
                      "Scoring with Image Tie-break"
          | None => respond None top_score "Scoring"
          end
      end
  end.

(** The body of the [try] from stage 1 on.  [ocr_results] is what the
    OCR reader returned, [query_embedding] what
    [clip_processor.get_single_image_embedding] returns for the image
    ([None] when [process_image] failed); it is looked at only in the
    tie-break. *)
Definition scan_body (all_cards : list Card) (search_index : SearchIndex)
    (ocr_results : list string) (query_embedding : option vec)
  : result response :=
  let detected_texts := Text.detected_texts ocr_results in
  let raw_ocr_text := Text.raw_ocr_text ocr_results in
  let card_number_matches := findall raw_ocr_text in
  card_scores <-
    sweep card_number_matches detected_texts all_cards 0
          (metadata search_index) ;;
  match card_scores with
  | [] => Ok NotFound                       (* lines 136 to 139 *)
  | _ :: _ =>
      determine_best_match all_cards search_index query_embedding
                           card_scores
  end.

(** [scan_card] once the request carries an image and the server is
    initialised: any exception of the body becomes the 500 answer. *)
Definition scan_card (all_cards : list Card) (search_index : SearchIndex)
    (ocr_results : list string) (query_embedding : option vec) : response :=
  match scan_body all_cards search_index ocr_results query_embedding with
  | Ok r => r
  | Raise e => InternalError e
  end.

End Scanner.

(* ================================================================= *)
(** ** The embedding script

    [src/pokemon_clip_embeddings.py]: the card lookup by image file
    name ([load_card_data]), the embedding run with its checkpoints
    ([generate_embeddings]), the search index ([create_search_index])
    and the similarity search ([search_similar_cards]).  Files are not
    modelled: what a function reads from a file is an argument, what it
    writes is part of its result. *)

Module Indexer.

Import Text Embedding Scanner.

(** *** Cards, as the script reads them

    The same dicts as in the scanner, with the keys this script reads:
    [load_card_data] subscripts ['set']['id'], ['number'] and ['name']
    of the cards that have ['images']['large']; [generate_embeddings]
    reads with [.get]. *)

Record Images : Type := {
  large : option string;                 (* card['images']['large'], a URL *)
  small : option string                  (* card['images']['small'] *)
}.

Record SetInfo : Type := {
  set_id : option string;                (* card['set']['id'] *)
  set_name : option string               (* card['set']['name'] *)
}.

Record CardData : Type := {
  cd_id : option string;                 (* card['id'] *)
  cd_name : option string;               (* card['name'] *)
  cd_number : option pyval;              (* card['number'] *)
  cd_set : option SetInfo;               (* card['set'] *)
  cd_images : option Images              (* card['images'] *)
}.

(** The empty dict [{}]. *)
Definition no_card : CardData :=
  {| cd_id := None; cd_name := None; cd_number := None; cd_set := None;
     cd_images := None |}.

Definition no_set : SetInfo := {| set_id := None; set_name := None |}.

Definition no_images : Images := {| large := None; small := None |}.

(** A dict with string keys that is only assigned to and looked up:
    the latest assignment of a key is the one found. *)
Definition dict (V : Type) : Type := list (string * V).

Definition dict_set {V : Type} (key : string) (v : V) (d : dict V) : dict V :=
  (key, v) :: d.

Fixpoint dict_get {V : Type} (key : string) (d : dict V) : option V :=
  match d with
  | [] => None
  | (k, v) :: d' => if String.eqb k key then Some v else dict_get key d'
  end.

(** [d[key]] on an optional key. *)
Definition subscript {A : Type} (field : option A) (key : string) : result A :=
  match field with
  | Some v => Ok v
  | None => Raise (KeyError key)
  end.

(** [s.replace(' ', '_')] *)
Definition spaces_to_underscores (s : string) : string :=
  Text.map (fun c => if Ascii.eqb c " " then "_"%char else c) s.

(** [f"{card['set']['id']}-{card['number']}_{card['name'].replace(' ',
    '_')}_large.png"]: the fields are evaluated from left to right, a
    missing key raises. *)
Definition local_filename (card : CardData) : result string :=
  card_set <- subscript (cd_set card) "set" ;;
  sid <- subscript (set_id card_set) "id" ;;
  num <- subscript (cd_number card) "number" ;;
  nm <- subscript (cd_name card) "name" ;;
  Ok (sid ++ "-" ++ py_str num ++ "_" ++ spaces_to_underscores nm
          ++ "_large.png")%string.

(** [load_card_data], lines 68 to 89, after the JSON file was read: the
    loop that fills [card_lookup].  [KeyError] is not caught. *)
Fixpoint load_loop (cards : list CardData) (card_lookup : dict CardData)
  : result (dict CardData) :=
  match cards with
  | [] => Ok card_lookup
  | card :: rest =>
      match cd_images card with
      | Some images =>
          match large images with
          | Some large_url =>
              local_filename <- local_filename card ;;
              load_loop rest (dict_set local_filename card card_lookup)
          | None => load_loop rest card_lookup
          end
      | None => load_loop rest card_lookup
      end
  end.

Definition load_card_data (all_cards : list CardData)
  : result (dict CardData) :=
  load_loop all_cards [].

(** *** The embedding run *)

(** A metadata entry, with the keys that are taken from the card; the
    keys ['filepath'], ['types'], ['subtypes'], ['supertype'], ['hp'],
    ['rarity'], ['artist'], ['embedding_model'] and ['processed_at']
    are left out. *)
Record MetaEntry : Type := {
  filename : string;
  entry_card_id : string;                (* 'card_id' *)
  entry_name : string;                   (* 'name' *)
  entry_set_name : string;               (* 'set_name' *)
  entry_set_id : string;                 (* 'set_id' *)
  entry_number : pyval                   (* 'number' *)
}.

(** What the scanner reads of an entry. *)
Definition to_meta (m : MetaEntry) : Meta :=
  {| card_id := entry_card_id m; meta_name := entry_name m |}.

(** The content of the checkpoint file. *)
Record Checkpoint : Type := {
  ck_embeddings : list vec;              (* 'embeddings' *)
  ck_metadata : list MetaEntry;          (* 'metadata' *)
  ck_processed_files : list string       (* 'processed_files', a set *)
}.

(** The variables of the loop and the checkpoint file. *)
Record GenState : Type := {
  g_embeddings : list vec;
  g_metadata : list MetaEntry;
  g_processed_files : list string;
  g_checkpoint : option Checkpoint
}.

(** How the run ended. *)
Inductive generated : Type :=
| NoImages                               (* no image file: nothing done *)
| Saved (embeddings : list vec) (metadata : list MetaEntry)
                                         (* files written, checkpoint removed *)
| NoEmbeddings (checkpoint : option Checkpoint)
                                         (* nothing to save *)
| ZeroDivisionError (checkpoint : option Checkpoint)
                                         (* [(i + 1) % batch_size] with
                                            [batch_size] zero *)
| ShapeError (checkpoint : option Checkpoint).
                                         (* the rows do not make a matrix:
                                            [np.array] or [.shape[1]]
                                            raises *)

Section Generate.

(** [process_image] on the image of that name, and the lookup. *)
Variable process_image : string -> option vec.
Variable card_lookup : dict CardData.

(** Lines 177 to 196. *)
Definition meta_entry (image_name : string) : MetaEntry :=
  let card_data := get (dict_get image_name card_lookup) no_card in
  {| filename := image_name;
     entry_card_id := get (cd_id card_data) "";
     entry_name := get (cd_name card_data) "";
     entry_set_name := get (set_name (get (cd_set card_data) no_set)) "";
     entry_set_id := get (set_id (get (cd_set card_data) no_set)) "";
     entry_number := get (cd_number card_data) (PStr "") |}.

(** Lines 171 to 198: one image that was not processed before. *)
Definition process_one (image_name : string) (st : GenState) : GenState :=
  match process_image image_name with
  | Some embedding =>
      {| g_embeddings := g_embeddings st ++ [embedding];
         g_metadata := g_metadata st ++ [meta_entry image_name];
         g_processed_files := image_name :: g_processed_files st;
         g_checkpoint := g_checkpoint st |}
  | None => st
  end.

(** Lines 202 to 208: the checkpoint file receives the three
    variables. *)
Definition save_checkpoint (st : GenState) : GenState :=
  {| g_embeddings := g_embeddings st;
     g_metadata := g_metadata st;
     g_processed_files := g_processed_files st;
     g_checkpoint :=
       Some {| ck_embeddings := g_embeddings st;
               ck_metadata := g_metadata st;
               ck_processed_files := g_processed_files st |} |}.

(** The loop over [enumerate(image_files[start_idx:])], from position
    [i] of the enumeration on; [false] when [(i + 1) % batch_size]
    raised. *)
Fixpoint gen_loop (batch_size : Z) (i : nat) (files : list string)
    (st : GenState) : GenState * bool :=
  match files with
  | [] => (st, true)
  | image_name :: rest =>
      if mem image_name (g_processed_files st)
      then gen_loop batch_size (S i) rest st               (* continue *)
      else
        let st := process_one image_name st in
        if (batch_size =? 0)%Z then (st, false)
        else if ((Z.of_nat i + 1) mod batch_size =? 0)%Z
             then gen_loop batch_size (S i) rest (save_checkpoint st)
             else gen_loop batch_size (S i) rest st
  end.

(** The state the loop starts from: empty, or what the checkpoint file
    holds. *)
Definition initial_state (checkpoint : option Checkpoint) : GenState :=
  match checkpoint with
  | Some ck =>
      {| g_embeddings := ck_embeddings ck;
         g_metadata := ck_metadata ck;
         g_processed_files := ck_processed_files ck;
         g_checkpoint := checkpoint |}
  | None =>
      {| g_embeddings := []; g_metadata := []; g_processed_files := [];
         g_checkpoint := None |}
  end.

(** [generate_embeddings], lines 124 to 246.  [image_files] are the
    names of the sorted image files, [checkpoint] the content of the
    checkpoint file if it exists.  [np.array(embeddings)] with its
    [.shape[1]] needs rows of one length. *)
Definition generate_embeddings (image_files : list string)
    (checkpoint : option Checkpoint) (batch_size : Z) : generated :=
  match image_files with
  | [] => NoImages
  | _ :: _ =>
      let st := initial_state checkpoint in
      let start_idx := List.length (g_embeddings st) in
      match gen_loop batch_size 0 (skipn start_idx image_files) st with
      | (st, true) =>
          match g_embeddings st with
          | [] => NoEmbeddings (g_checkpoint st)
          | row :: rows =>
              if same_dim row rows
              then Saved (g_embeddings st) (g_metadata st)
              else ShapeError (g_checkpoint st)
          end
      | (st, false) => ZeroDivisionError (g_checkpoint st)
      end
  end.

End Generate.

(** *** The search index *)

(** The keys of the index, without ['model_name'] and
    ['created_at']. *)
Record FullIndex : Type := {
  fi_embeddings : list vec;              (* 'embeddings' *)
  fi_metadata : list MetaEntry;          (* 'metadata' *)
  embedding_dim : nat;                   (* 'embedding_dim' *)
  num_cards : nat                        (* 'num_cards' *)
}.

(** [create_search_index], lines 248 to 282: [files] is what the
    embeddings file (a matrix) and the metadata file hold, if both
    exist.  [embeddings.shape[1]] is the length of a row. *)
Definition create_search_index (files : option (list vec * list MetaEntry))
  : result (option FullIndex) :=
  match files with
  | None => Ok None
  | Some (embeddings, metadata) =>
      match embeddings with
      | [] => Raise IndexError           (* the shape is [(0,)] *)
      | row :: _ =>
          Ok (Some {| fi_embeddings := embeddings;
                      fi_metadata := metadata;
                      embedding_dim := List.length row;
                      num_cards := List.length embeddings |})
      end
  end.

(** What the scanner loads as [search_index]. *)
Definition scanner_index (fi : FullIndex) : SearchIndex :=
  {| metadata := List.map to_meta (fi_metadata fi);
     embeddings := fi_embeddings fi |}.

(** *** The similarity search *)

(** A stable [np.argsort]: the positions of the values in ascending
    order, equal values in the order of their positions. *)
Fixpoint insert_by_value (x : nat * R) (l : list (nat * R))
  : list (nat * R) :=
  match l with
  | [] => [x]
  | y :: l' =>
      if Rle_dec (snd x) (snd y) then x :: l
      else y :: insert_by_value x l'
  end.

Fixpoint enumerate_from {A : Type} (i : nat) (l : list A) : list (nat * A) :=
  match l with
  | [] => []
  | x :: l' => (i, x) :: enumerate_from (S i) l'
  end.

Definition stable_argsort (values : list R) : list nat :=
  List.map fst (fold_right insert_by_value [] (enumerate_from 0 values)).

(** [l[:k]] for an integer [k]: a negative [k] counts from the end. *)
Definition slice_to {A : Type} (k : Z) (l : list A) : list A :=
  if (0 <=? k)%Z then firstn (Z.to_nat k) l
  else firstn (List.length l - Z.to_nat (- k)) l.

(** The loop of lines 316 to 322: [IndexError] past the end of the
    metadata. *)
Fixpoint collect_results (similarities : list R) (metadata : list MetaEntry)
    (top_indices : list nat) : result (list (R * MetaEntry)) :=
  match top_indices with
  | [] => Ok []
  | idx :: rest =>
      match nth_error similarities idx, nth_error metadata idx with
      | Some s, Some m =>
          results <- collect_results similarities metadata rest ;;
          Ok ((s, m) :: results)
      | _, _ => Raise IndexError
      end
  end.

Section Search.

(** [np.argsort] with its default sort, which does not say in which
    order the positions of equal values come. *)
Variable argsort : list R -> list nat.

(** [search_similar_cards], lines 284 to 324: [search_index] is what
    the index file holds, if it exists, [query_embedding] what
    [process_image] returned for the query image. *)
Definition search_similar_cards (search_index : option FullIndex)
    (query_embedding : option vec) (top_k : Z)
  : result (option (list (R * MetaEntry))) :=
  match search_index with
  | None => Ok None
  | Some search_index =>
      match query_embedding with
      | None => Ok None
      | Some query_embedding =>
          similarities <- np_dot (fi_embeddings search_index)
                                 query_embedding ;;
          let top_indices := slice_to top_k (rev (argsort similarities)) in
          results <- collect_results similarities
                                     (fi_metadata search_index)
                                     top_indices ;;
          Ok (Some results)
      end
  end.

End Search.

End Indexer.

(* ================================================================= *)
(** ** The downloader

    [src/pokemon_downloader.py]: the name under which [process_card]
    saves the large image of a card. *)

Module Downloader.

Import Text Scanner Indexer.

(** [str.isalnum] on one character; below 256 it holds for the ASCII
    letters and digits and for the code points 170, 178, 179, 181, 185,
    186, 188 to 190, 192 to 214, 216 to 246 and 248 to 255. *)
Definition str_isalnum (c : ascii) : bool :=
  (is_alnum c
   || (code c =? 170) || (code c =? 178) || (code c =? 179)
   || (code c =? 181) || (code c =? 185) || (code c =? 186)
   || ((188 <=? code c) && (code c <=? 190))
   || ((192 <=? code c) && (code c <=? 214))
   || ((216 <=? code c) && (code c <=? 246))
   || ((248 <=? code c) && (code c <=? 255)))%nat.

(** [c.isalnum() or c in (' ', '-', '_')] *)
Definition kept (c : ascii) : bool :=
  (str_isalnum c || Ascii.eqb c " " || Ascii.eqb c "-" || Ascii.eqb c "_")%char.

(** [str.rstrip()]: without the white space at the end. *)
Fixpoint rstrip (s : string) : string :=
  match s with
  | EmptyString => EmptyString
  | String c s' =>
      match rstrip s' with
      | EmptyString => if is_space c then EmptyString
                       else String c EmptyString
      | r => String c r
      end
  end.

(** Lines 95 to 100 of [process_card]. *)
Definition safe_name (card : CardData) : string :=
  let card_id := get (cd_id card) "unknown" in
  let safe_name :=
    rstrip (filter kept (card_id ++ "_" ++ get (cd_name card) "unknown")) in
  substring 0 50 (spaces_to_underscores safe_name).

(** Lines 103 to 105: the name of the file of the large image, when the
    card has a URL for it. *)
Definition large_image_name (card : CardData) : option string :=
  match large (get (cd_images card) no_images) with
  | Some large_image_url =>
      if truthy large_image_url
      then Some (safe_name card ++ "_large.png")%string
      else None
  | None => None
  end.

(** An entry of [failed_cards]. *)
Record Failure : Type := {
  failure_card_id : string;              (* 'card_id' *)
  failure_error : string;                (* 'error' *)
  failure_url : option string            (* 'url' *)
}.

(** The counters of the downloader. *)
Record Stats : Type := {
  total_cards : Z;
  downloaded_cards : Z;
  failed_downloads : Z;
  failed_cards : list Failure
}.

(** The card that [process_card] returns: the card it was given, with
    the keys ['local_image_large'] and ['local_image_small'] when it
    set them. *)
Record Processed : Type := {
  card_data : CardData;
  local_image_large : option string;
  local_image_small : option string
}.

Section ProcessCard.

(** The image directory, [image_filename.exists()] and
    [download_image], which returns whether it succeeded.  Files go by
    their names, without the directory. *)
Variable files : Type.
Variable file_exists : files -> string -> bool.
Variable download_image : string -> string -> files -> bool * files.

(** Lines 103 to 117. *)
Definition large_image (card : CardData) (stats : Stats) (dir : files)
  : option string * Stats * files :=
  match large (get (cd_images card) no_images) with
  | Some large_image_url =>
      if truthy large_image_url then
        let image_filename := (safe_name card ++ "_large.png")%string in
        if negb (file_exists dir image_filename) then
          match download_image large_image_url image_filename dir with
          | (true, dir) => (Some image_filename, stats, dir)
          | (false, dir) =>
              (None,
               {| total_cards := total_cards stats;
                  downloaded_cards := downloaded_cards stats;
                  failed_downloads := failed_downloads stats + 1;
                  failed_cards :=
                    failed_cards stats
                    ++ [{| failure_card_id := get (cd_id card) "unknown";
                           failure_error := "Failed to download large image";
                           failure_url := Some large_image_url |}] |},
               dir)
          end
        else (Some image_filename, stats, dir)
      else (None, stats, dir)
  | None => (None, stats, dir)
  end.

(** Lines 120 to 127. *)
Definition small_image (card : CardData) (stats : Stats) (dir : files)
  : option string * Stats * files :=
  match small (get (cd_images card) no_images) with
  | Some small_image_url =>
      if truthy small_image_url then
        let image_filename := (safe_name card ++ "_small.png")%string in
        if negb (file_exists dir image_filename) then
          match download_image small_image_url image_filename dir with
          | (true, dir) => (Some image_filename, stats, dir)
          | (false, dir) =>
              (None,
               {| total_cards := total_cards stats;
                  downloaded_cards := downloaded_cards stats;
                  failed_downloads := failed_downloads stats + 1;
                  failed_cards := failed_cards stats |},
               dir)
          end
        else (None, stats, dir)
      else (None, stats, dir)
  | None => (None, stats, dir)
  end.

(** [process_card], lines 93 to 143.  The progress line divides by
    [total_cards]; the [ZeroDivisionError] is caught, recorded, and
    the card is not returned. *)
Definition process_card (card : CardData) (stats : Stats) (dir : files)
  : option Processed * Stats * files :=
  let '(local_large, stats, dir) := large_image card stats dir in
  let '(local_small, stats, dir) := small_image card stats dir in
  let downloaded := (downloaded_cards stats + 1)%Z in
  if ((downloaded mod 10 =? 0) && (total_cards stats =? 0))%Z then
    (None,
     {| total_cards := total_cards stats;
        downloaded_cards := downloaded;
        failed_downloads := failed_downloads stats;
        failed_cards :=
          failed_cards stats
          ++ [{| failure_card_id := get (cd_id card) "unknown";
                 failure_error := "division by zero";
                 failure_url := None |}] |},
     dir)
  else
    (Some {| card_data := card;
             local_image_large := local_large;
             local_image_small := local_small |},
     {| total_cards := total_cards stats;
        downloaded_cards := downloaded;
        failed_downloads := failed_downloads stats;
        failed_cards := failed_cards stats |},
     dir).

End ProcessCard.

End Downloader.

(* ================================================================= *)
(** ** Notions used in the statements *)

Module Notions.

Import Text Embedding Scanner.

(** *** Text *)

(** [needle] occurs in [hay]. *)
Definition occurs_in (needle hay : string) : Prop :=
  exists before after, hay = (before ++ needle ++ after)%string.

(** Whether [s] begins with a character of the class [p]. *)
Definition starts_with (p : ascii -> bool) (s : string) : bool :=
  match s with
  | EmptyString => false
  | String c _ => p c
  end.

(** The longest run of the class [p] at the start of [s], and what
    follows it. *)
Fixpoint take_while (p : ascii -> bool) (s : string) : string :=
  match s with
  | EmptyString => EmptyString
  | String c s' => if p c then String c (take_while p s') else EmptyString
  end.

Fixpoint drop_while (p : ascii -> bool) (s : string) : string :=
  match s with
  | EmptyString => EmptyString
  | String c s' => if p c then drop_while p s' else s
  end.

(** The pattern without backtracking: the classes of the pattern
    (digits, white space, the slash) are pairwise disjoint, so the
    longest runs are the only way to match ([match_pattern_longest]). *)
Definition match_here (s : string) : option ((string * string) * string) :=
  let num := take_while is_digit s in
  if truthy num then
    match drop_while is_space (drop_while is_digit s) with
    | String "/" r =>
        let r' := drop_while is_space r in
        let den := take_while is_digit r' in
        if truthy den then Some ((num, den), drop_while is_digit r')
        else None
    | _ => None
    end
  else None.

(** The pattern, as the specification words it: one or more digits,
    optional white space, a slash, optional white space, one or more
    digits.  [fraction_match m num den] says that the text [m] is a
    match whose groups are [num] and [den]. *)
Inductive fraction_match : string -> string -> string -> Prop :=
| FractionMatch (num ws1 ws2 den : string) :
    num <> "" -> forallb is_digit num = true ->
    forallb is_space ws1 = true ->
    forallb is_space ws2 = true ->
    den <> "" -> forallb is_digit den = true ->
    fraction_match (num ++ ws1 ++ "/" ++ ws2 ++ den)%string num den.

(** No match of the pattern starts at the beginning of [s]. *)
Definition no_match_at_start (s : string) : Prop :=
  forall m rest num den,
    s = (m ++ rest)%string -> ~ fraction_match m num den.

(** All non-overlapping matches, in order of appearance: the text is
    scanned from left to right; the first match is the one that starts
    leftmost and, from that start, reaches furthest; the scan resumes
    after it. *)
Inductive all_matches : string -> list (string * string) -> Prop :=
| NoMoreMatch (s : string) :
    (forall before s', s = (before ++ s')%string -> no_match_at_start s') ->
    all_matches s []
| NextMatch (before m rest num den : string) (l : list (string * string)) :
    (forall b1 b2, before = (b1 ++ b2)%string -> b2 <> "" ->
                   no_match_at_start (b2 ++ m ++ rest)%string) ->
    fraction_match m num den ->
    starts_with is_digit rest = false ->
    all_matches rest l ->
    all_matches (before ++ m ++ rest)%string ((num, den) :: l).

(** A fragment list in which no fragment is longer than one before
    it. *)
Definition longest_first (l : list string) : Prop :=
  StronglySorted (fun a b => (length b <= length a)%nat) l.

(** *** Scoring *)

(** The cleaning rule, character by character: [cleaned s t] when
    [t] is [s] with its lowercase letters and digits kept, its
    uppercase letters replaced by the lowercase ones, 32 code points
    further, and every other character left out. *)
Inductive cleaned : string -> string -> Prop :=
| cleaned_end : cleaned "" ""
| cleaned_kept (c : ascii) (s t : string) :
    is_lower c || is_digit c = true ->
    cleaned s t -> cleaned (String c s) (String c t)
| cleaned_lowered (c : ascii) (s t : string) :
    is_upper c = true ->
    cleaned s t ->
    cleaned (String c s) (String (ascii_of_nat (code c + 32)) t)
| cleaned_left_out (c : ascii) (s t : string) :
    is_lower c || is_upper c || is_digit c = false ->
    cleaned s t -> cleaned (String c s) t.

(** The fragment [text] qualifies for the name match against the
    cleaned name. *)
Definition qualifies (card_name_clean text : string) : Prop :=
  (4 <= length text)%nat
  /\ (occurs_in text card_name_clean \/ occurs_in card_name_clean text).

Definition qualifiesb (card_name_clean text : string) : bool :=
  (4 <=? length text)%nat
  && (str_in text card_name_clean || str_in card_name_clean text).

(** The fraction carries the card's number and its set's printed
    total, both as [str] renders them. *)
Definition fraction_hits (card : Card) (fraction : string * string) : bool :=
  String.eqb (py_str (get (number card) PNone)) (fst fraction)
  && String.eqb
       (py_str (get (printedTotal (get (set card) {| printedTotal := None |}))
                    PNone))
       (snd fraction).

(** The attack's cleaned name is not empty and occurs in a fragment. *)
Definition attack_hits (texts : list string) (attack : Attack) : bool :=
  truthy (clean_text (get (attack_name attack) ""))
  && existsb (fun t => str_in (clean_text (get (attack_name attack) "")) t)
             texts.

(** The card with its attack list replaced. *)
Definition with_attacks (card : Card) (attack_list : list Attack) : Card :=
  {| id := id card; name := name card; number := number card;
     set := set card; attacks := Some attack_list |}.

(** The score of a card, bonus by bonus. *)
Definition points (matches : list (string * string)) (texts : list string)
    (card : Card) : Z :=
  ((if existsb (fraction_hits card) matches then 100 else 0)
   + (if existsb (qualifiesb (clean_text (get (name card) ""))) texts
      then 20 else 0)
   + 10 * Z.of_nat (List.length
                      (List.filter (attack_hits texts)
                                   (get (attacks card) []))))%Z.

(** *** The index and the candidates *)

(** The list without its element at position [k]. *)
Fixpoint remove_nth {A : Type} (k : nat) (l : list A) : list A :=
  match l with
  | [] => []
  | x :: l' =>
      match k with
      | O => l'
      | S k' => x :: remove_nth k' l'
      end
  end.

(** The index without its entry at position [k]: the metadata and the
    embedding row. *)
Definition remove_entry (k : nat) (search_index : SearchIndex) : SearchIndex :=
  {| metadata := remove_nth k (metadata search_index);
     embeddings := remove_nth k (embeddings search_index) |}.

(** Stage 3 of a scan: the candidate list [card_scores]. *)
Definition card_scores_of (all_cards : list Card) (search_index : SearchIndex)
    (ocr_results : list string) : result (list Candidate) :=
  sweep (findall (raw_ocr_text ocr_results)) (detected_texts ocr_results)
        all_cards 0 (metadata search_index).

(** The list [best_candidates] of a candidate list. *)
Definition best_of (card_scores : list Candidate) : list Candidate :=
  match sort_by_score_desc card_scores with
  | [] => []
  | c0 :: _ => best_candidates_of (score c0) (sort_by_score_desc card_scores)
  end.

(** The candidate with its index moved by [i]. *)
Definition shift (i : nat) (c : Candidate) : Candidate :=
  {| score := score c; index := (i + index c)%nat; meta := meta c |}.

Definition map_result {A B : Type} (f : A -> B) (m : result A) : result B :=
  x <- m ;; Ok (f x).

(** Two candidates with the same score and metadata whose embedding
    rows, each in its own array, are the same. *)
Definition alike (e1 e2 : list vec) (c1 c2 : Candidate) : Prop :=
  score c1 = score c2 /\ meta c1 = meta c2
  /\ nth_error e1 (index c1) = nth_error e2 (index c2).

(** Two results that raise alike or return related values. *)
Definition result_rel {A B : Type} (R : A -> B -> Prop)
    (r1 : result A) (r2 : result B) : Prop :=
  match r1, r2 with
  | Ok a, Ok b => R a b
  | Raise e1, Raise e2 => e1 = e2
  | _, _ => False
  end.

(** *** Resolution *)

(** [k] is the position of the first occurrence of the maximum of
    [l]. *)
Definition first_max (l : list R) (k : nat) : Prop :=
  exists m, nth_error l k = Some m
            /\ forall j x, nth_error l j = Some x ->
                           (x <= m)%R /\ ((j < k)%nat -> (x < m)%R).

(** The similarities the tie-break compares. *)
Definition similarities_to (q : vec) (rows : list vec) : list R :=
  List.map (fun e => (1 - cosine_distance q e)%R) rows.

(** The answer of lines 169 to 180 for a card that was found: the
    match document, unless the log line 176 fails on a card without
    a name. *)
Definition answer (card : Card) (top_score : Z) (match_method : string)
  : response :=
  match name card with
  | Some _ => Found card true top_score match_method
  | None => InternalError (KeyError "name")
  end.

End Notions.

(* ================================================================= *)
(** ** Notions for the embedding script and the downloader *)

Module IndexNotions.

Import Text Embedding Scanner Indexer.

(** [l1] is the beginning of [l]. *)
Definition prefix_of {A : Type} (l1 l : list A) : Prop :=
  exists l2, l = l1 ++ l2.

Section Run.

Variable process_image : string -> option vec.
Variable card_lookup : dict CardData.

(** The images for which [process_image] returns an embedding. *)
Definition embeddable (image_name : string) : bool :=
  match process_image image_name with
  | Some _ => true
  | None => false
  end.

(** The embeddings of the images that have one, in the order of the
    images. *)
Fixpoint rows_of (files : list string) : list vec :=
  match files with
  | [] => []
  | image_name :: rest =>
      match process_image image_name with
      | Some embedding => embedding :: rows_of rest
      | None => rows_of rest
      end
  end.

(** Their metadata entries. *)
Definition entries_of (files : list string) : list MetaEntry :=
  List.map (meta_entry card_lookup) (List.filter embeddable files).

(** The three variables of the loop once the images [files] have been
    handled, starting from nothing. *)
Definition checkpoint_after (files : list string) : Checkpoint :=
  {| ck_embeddings := rows_of files;
     ck_metadata := entries_of files;
     ck_processed_files := rev (List.filter embeddable files) |}.

(** What the checkpoint file can hold while the images [Q] are handled
    after the images [P]: what it held before, or the variables after
    [P] and a beginning of [Q]. *)
Definition written (old : option Checkpoint) (P Q : list string)
    (ck : option Checkpoint) : Prop :=
  ck = old \/ exists Q1, prefix_of Q1 Q /\ ck = Some (checkpoint_after (P ++ Q1)).

(** A checkpoint that holds the variables after a beginning of the
    images. *)
Definition valid (files : list string) (checkpoint : option Checkpoint)
  : Prop :=
  match checkpoint with
  | Some ck => exists P, prefix_of P files /\ ck = checkpoint_after P
  | None => True
  end.

End Run.

(** The variables of a state. *)
Definition data (st : GenState) : Checkpoint :=
  {| ck_embeddings := g_embeddings st;
     ck_metadata := g_metadata st;
     ck_processed_files := g_processed_files st |}.

(** An outcome without what the checkpoint file holds. *)
Definition without_checkpoint (g : generated) : generated :=
  match g with
  | NoImages => NoImages
  | Saved embeddings metadata => Saved embeddings metadata
  | NoEmbeddings _ => NoEmbeddings None
  | ZeroDivisionError _ => ZeroDivisionError None
  | ShapeError _ => ShapeError None
  end.

(** A checkpoint with as many rows as entries. *)
Definition aligned (checkpoint : option Checkpoint) : Prop :=
  match checkpoint with
  | Some ck => List.length (ck_embeddings ck) = List.length (ck_metadata ck)
  | None => True
  end.

(** The card has ['images']['large']. *)
Definition has_large (card : CardData) : bool :=
  match cd_images card with
  | Some images =>
      match large images with
      | Some _ => true
      | None => false
      end
  | None => false
  end.

(** The first key that the file name needs and the card lacks. *)
Definition missing_key (card : CardData) : option string :=
  match cd_set card with
  | None => Some "set"
  | Some card_set =>
      match set_id card_set, cd_number card, cd_name card with
      | None, _, _ => Some "id"
      | Some _, None, _ => Some "number"
      | Some _, Some _, None => Some "name"
      | Some _, Some _, Some _ => None
      end
  end.

(** A card with a large image that lacks a key of the file name. *)
Definition incomplete (card : CardData) : bool :=
  has_large card
  && match missing_key card with Some _ => true | None => false end.

(** The card is entered in the lookup under [key]. *)
Definition expects (key : string) (card : CardData) : bool :=
  has_large card
  && match local_filename card with
     | Ok k => String.eqb k key
     | Raise _ => false
     end.

End IndexNotions.

Module NameNotions.

Import Text Downloader.

(** The characters of a safe name: what [kept] keeps, without the
    space, which becomes an underscore. *)
Definition safe_char (c : ascii) : bool :=
  (str_isalnum c || Ascii.eqb c "-" || Ascii.eqb c "_")%char.

End NameNotions.

Module SearchNotions.

Import Embedding Indexer.

(** What [np.argsort] promises: the positions of the values, each
    once, listed so that the values do not decrease. *)
Definition is_argsort (argsort : list R -> list nat) : Prop :=
  forall values : list R,
    Permutation (argsort values) (seq 0 (List.length values))
    /\ StronglySorted (fun i j => (nth i values 0 <= nth j values 0)%R)
                      (argsort values).

(** The number of elements of [l[:k]] for a list of [n] elements. *)
Definition slice_length (k : Z) (n : nat) : nat :=
  if (0 <=? k)%Z then Nat.min (Z.to_nat k) n else (n - Z.to_nat (- k))%nat.

End SearchNotions.

(* ================================================================= *)
(** ** Sample catalogs and indexes *)

Module Samples.

Import Embedding Scanner.

Definition entry (card_id name : string) : Meta :=
  {| card_id := card_id; meta_name := name |}.

(** A card as the catalog has it. *)
Definition pikachu : Card :=
  {| id := "base1-58";
     name := Some "Pikachu";
     number := Some (PStr "58");
     set := Some {| printedTotal := Some (PInt 102) |};
     attacks := Some [ {| attack_name := Some "Gnaw" |};
                       {| attack_name := Some "Thunder Jolt" |} ] |}.

Definition raichu : Card :=
  {| id := "base1-14";
     name := Some "Raichu";
     number := Some (PStr "14");
     set := Some {| printedTotal := Some (PInt 102) |};
     attacks := Some [ {| attack_name := Some "Agility" |};
                       {| attack_name := Some "Thunder" |} ] |}.

Definition thunder_jolt : Attack := {| attack_name := Some "Thunder Jolt" |}.

(** [pikachu] before its second attack was added. *)
Definition pikachu_one_attack : Card :=
  {| id := "base1-58";
     name := Some "Pikachu";
     number := Some (PStr "58");
     set := Some {| printedTotal := Some (PInt 102) |};
     attacks := Some [ {| attack_name := Some "Gnaw" |} ] |}.

(** A card dict without the key ['name']. *)
Definition nameless : Card :=
  {| id := "x-4";
     name := None;
     number := Some (PStr "4");
     set := Some {| printedTotal := Some (PInt 9) |};
     attacks := None |}.

(** Two prints of one card, and the same two without ['name']. *)
Definition print_a : Card :=
  {| id := "a"; name := Some "Eevee"; number := Some (PStr "1");
     set := Some {| printedTotal := Some (PInt 2) |}; attacks := None |}.

Definition print_b : Card :=
  {| id := "b"; name := Some "Eevee"; number := Some (PStr "2");
     set := Some {| printedTotal := Some (PInt 2) |}; attacks := None |}.

Definition nameless_a : Card :=
  {| id := "a"; name := None; number := Some (PStr "1");
     set := Some {| printedTotal := Some (PInt 2) |}; attacks := None |}.

Definition nameless_b : Card :=
  {| id := "b"; name := None; number := Some (PStr "2");
     set := Some {| printedTotal := Some (PInt 2) |}; attacks := None |}.

Definition catalog : list Card := [pikachu; raichu].

(** An index whose second entry has no card: [card_id] is ['']. *)
Definition drifted_index : SearchIndex :=
  {| metadata := [ entry "base1-58" "Pikachu"; entry "" "";
                   entry "base1-14" "Raichu" ];
     embeddings := [ [1; 0]; [0; 0]; [0; 1] ]%R |}.

Definition nameless_index : SearchIndex :=
  {| metadata := [ entry "x-4" "" ];
     embeddings := [ [1; 0] ]%R |}.

Definition prints_index : SearchIndex :=
  {| metadata := [ entry "a" "Eevee"; entry "b" "Eevee" ];
     embeddings := [ [1; 0]; [0; 1] ]%R |}.

(** A query embedding, closest to the second row of [prints_index]. *)
Definition query : vec := [0; 1]%R.

(** A card whose name is not clean. *)
Definition mr_mime : Card :=
  {| id := "base2-22"; name := Some "Mr. Mime"; number := Some (PStr "22");
     set := Some {| printedTotal := Some (PInt 64) |}; attacks := None |}.

End Samples.

(** ** More samples *)

Module MoreSamples.

Import Embedding Scanner Samples.

(** An index that lost an embedding row: two entries, one row. *)
Definition short_index : SearchIndex :=
  {| metadata := [ entry "a" "Eevee"; entry "b" "Eevee" ];
     embeddings := [ [1; 0] ]%R |}.

(** A query embedding of another dimension than the rows of
    [prints_index]. *)
Definition query3 : vec := [0; 1; 0]%R.

(** The two candidates of a scan of ["Eevee"] on the two prints. *)
Definition eevee_candidates : list Candidate :=
  [ {| score := 20; index := 0; meta := entry "a" "Eevee" |};
    {| score := 20; index := 1; meta := entry "b" "Eevee" |} ].

End MoreSamples.

(** Two catalog cards as the embedding script and the downloader read
    them, three image files, and an embedding function that fails on
    the third. *)

Module PipelineSamples.

Import Embedding Scanner Indexer.

Definition base_set : SetInfo :=
  {| set_id := Some "base1"; set_name := Some "Base" |}.

Definition abra : CardData :=
  {| cd_id := Some "base1-43"; cd_name := Some "Abra";
     cd_number := Some (PStr "43"); cd_set := Some base_set;
     cd_images :=
       Some {| large := Some "https://images.pokemontcg.io/base1/43_hires.png";
               small := Some "https://images.pokemontcg.io/base1/43.png" |} |}.

Definition farfetchd : CardData :=
  {| cd_id := Some "base1-27"; cd_name := Some "Farfetch'd";
     cd_number := Some (PStr "27"); cd_set := Some base_set;
     cd_images :=
       Some {| large := Some "https://images.pokemontcg.io/base1/27_hires.png";
               small := Some "https://images.pokemontcg.io/base1/27.png" |} |}.

Definition cards : list CardData := [abra; farfetchd].

Definition lookup : dict CardData :=
  [("base1-27_Farfetch'd_large.png", farfetchd);
   ("base1-43_Abra_large.png", abra)].

Definition images : list string :=
  ["base1-27_Farfetchd_large.png"; "base1-43_Abra_large.png";
   "broken_large.png"].

Definition embed (image_name : string) : option vec :=
  if String.eqb image_name "base1-27_Farfetchd_large.png"
  then Some [0; 1]%R
  else if String.eqb image_name "base1-43_Abra_large.png"
       then Some [1; 0]%R
       else None.

(** Features for the first two images, an exception for the third. *)
Definition encode (image_name : string) : result vec :=
  if String.eqb image_name "base1-27_Farfetchd_large.png"
  then Ok [0; 2]%R
  else if String.eqb image_name "base1-43_Abra_large.png"
       then Ok [3; 0]%R
       else Raise ValueError.

(** An image directory as a list of file names, a download that always
    succeeds, and the counters before the first card. *)
Definition listed (dir : list string) (image_filename : string) : bool :=
  Text.mem image_filename dir.

Definition fetch (url image_filename : string) (dir : list string)
  : bool * list string :=
  (true, image_filename :: dir).

Definition abra_images : list string :=
  ["base1-43_Abra_large.png"; "base1-43_Abra_small.png"].

Definition no_totals : Downloader.Stats :=
  {| Downloader.total_cards := 0; Downloader.downloaded_cards := 9;
     Downloader.failed_downloads := 0; Downloader.failed_cards := [] |}.

Definition with_totals : Downloader.Stats :=
  {| Downloader.total_cards := 102; Downloader.downloaded_cards := 0;
     Downloader.failed_downloads := 0; Downloader.failed_cards := [] |}.

(** The index that a run over [images] makes, and one that lost its
    metadata. *)
Definition built_index : FullIndex :=
  {| fi_embeddings := [[0; 1]; [1; 0]]%R;
     fi_metadata := IndexNotions.entries_of embed lookup images;
     embedding_dim := 2;
     num_cards := 2 |}.

(** The card Abra as the scanner reads it. *)
Definition abra_card : Card :=
  {| id := "base1-43"; name := Some "Abra"; number := Some (PStr "43");
     set := Some {| printedTotal := Some (PInt 102) |};
     attacks := Some [{| attack_name := Some "Psyshock" |}] |}.

Definition bare_index : FullIndex :=
  {| fi_embeddings := [[0; 1]; [1; 0]]%R;
     fi_metadata := [];
     embedding_dim := 2;
     num_cards := 2 |}.

End PipelineSamples.

(* ================================================================= *)
(** * Properties *)

(** ** Strings *)

Module TextFacts.

Import Text Notions.
Local Open Scope string_scope.

Lemma append_assoc (a b c : string) : (a ++ b) ++ c = a ++ b ++ c.
Proof.
  induction a as [|x a IH]; simpl; [reflexivity|].
  now rewrite IH.
Qed.

Lemma append_empty_r (a : string) : a ++ "" = a.
Proof.
  induction a as [|x a IH]; simpl; [reflexivity|].
  now rewrite IH.
Qed.

Lemma length_append (a b : string) :
  length (a ++ b) = (length a + length b)%nat.
Proof.
  induction a as [|x a IH]; simpl; [reflexivity|].
  now rewrite IH.
Qed.

Lemma prefix_iff (a s : string) :
  prefix a s = true <-> exists rest, s = a ++ rest.
Proof.
  revert s; induction a as [|x a IH]; intros s.
  - split; [intros _|intros _; now destruct s].
    now exists s.
  - destruct s as [|y s]; simpl.
    + split; [discriminate|intros [r H]; discriminate].
    + destruct (ascii_dec x y) as [->|Hne].
      * rewrite IH. split; intros [r H]; exists r.
        -- now rewrite H.
        -- now inversion H.
      * split; [discriminate|].
        intros [r H]. exfalso. apply Hne. now inversion H.
Qed.

Lemma str_in_unfold (needle hay : string) :
  str_in needle hay =
  prefix needle hay
  || match hay with
     | "" => false
     | String _ hay' => str_in needle hay'
     end.
Proof.
  destruct hay; cbn [str_in]; now destruct (prefix needle _).
Qed.

Lemma str_in_iff (needle hay : string) :
  str_in needle hay = true <-> occurs_in needle hay.
Proof.
  unfold occurs_in.
  induction hay as [|c hay IH]; rewrite str_in_unfold, orb_true_iff, prefix_iff.
  - split.
    + intros [[r P]|F]; [|discriminate]. now exists "", r.
    + intros (b & a & H). left. destruct b; [|discriminate]. now exists a.
  - rewrite IH. split.
    + intros [[r P]|(b & a & H)].
      * now exists "", r.
      * exists (String c b), a. simpl. now rewrite H.
    + intros (b & a & H). destruct b as [|x b].
      * left. now exists a.
      * right. simpl in H. inversion H. now exists b, a.
Qed.

Lemma str_in_empty (hay : string) : str_in "" hay = true.
Proof.
  apply str_in_iff. exists "", hay. reflexivity.
Qed.

(** *** [clean_text] *)

Lemma clean_text_empty : clean_text "" = "".
Proof. reflexivity. Qed.

Lemma filter_none (p : ascii -> bool) (s : string) :
  forallb (fun c => negb (p c)) s = true -> filter p s = "".
Proof.
  induction s as [|c s IH]; simpl; [reflexivity|].
  intros H. apply andb_true_iff in H. destruct H as [Hc Hs].
  destruct (p c); [discriminate|]. now apply IH.
Qed.

(** A text without ASCII letters and digits cleans to the empty
    string. *)
Lemma clean_text_no_alnum (s : string) :
  forallb (fun c => negb (is_alnum c)) s = true -> clean_text s = "".
Proof.
  intros H. unfold clean_text. now rewrite filter_none.
Qed.

Lemma map_empty_inv (f : ascii -> ascii) (s : string) :
  map f s = "" -> s = "".
Proof. destruct s; [reflexivity|discriminate]. Qed.

Lemma filter_empty_inv (p : ascii -> bool) (s : string) :
  filter p s = "" -> forallb (fun c => negb (p c)) s = true.
Proof.
  induction s as [|c s IH]; simpl; [reflexivity|].
  destruct (p c); [discriminate|]. exact IH.
Qed.

Lemma clean_text_empty_iff (s : string) :
  clean_text s = "" <-> forallb (fun c => negb (is_alnum c)) s = true.
Proof.
  split; [|apply clean_text_no_alnum].
  intros H. apply filter_empty_inv. exact (map_empty_inv _ _ H).
Qed.

(** [clean_text] is idempotent. *)

Lemma code_lower_upper (c : ascii) :
  is_upper c = true -> code (lower c) = (code c + 32)%nat.
Proof.
  intros U. unfold lower. rewrite U. unfold code.
  apply nat_ascii_embedding.
  unfold is_upper, code in U. apply andb_true_iff in U.
  destruct U as [_ U]. apply Nat.leb_le in U. lia.
Qed.

Lemma lower_not_upper (c : ascii) : is_upper (lower c) = false.
Proof.
  destruct (is_upper c) eqn:U.
  - pose proof (code_lower_upper c U) as E.
    unfold is_upper in *. rewrite E.
    apply andb_true_iff in U. destruct U as [U1 U2].
    apply Nat.leb_le in U1. apply andb_false_iff. right.
    apply Nat.leb_gt. lia.
  - unfold lower. now rewrite U.
Qed.

Lemma lower_alnum (c : ascii) : is_alnum c = true -> is_alnum (lower c) = true.
Proof.
  intros A. destruct (is_upper c) eqn:U.
  - pose proof (code_lower_upper c U) as E.
    unfold is_alnum, is_lower. rewrite E.
    unfold is_upper in U. apply andb_true_iff in U. destruct U as [U1 U2].
    apply Nat.leb_le in U1, U2.
    assert (L1 : (97 <=? code c + 32)%nat = true) by (apply Nat.leb_le; lia).
    assert (L2 : (code c + 32 <=? 122)%nat = true) by (apply Nat.leb_le; lia).
    now rewrite L1, L2.
  - unfold lower. now rewrite U.
Qed.

Lemma clean_text_idempotent (s : string) :
  clean_text (clean_text s) = clean_text s.
Proof.
  unfold clean_text. induction s as [|c s IH]; [reflexivity|].
  cbn [filter]. destruct (is_alnum c) eqn:A; [|exact IH].
  cbn [map filter]. rewrite (lower_alnum c A). cbn [map].
  rewrite IH. f_equal. unfold lower at 1. now rewrite lower_not_upper.
Qed.

(** [clean_text] follows the cleaning rule, and the rule allows one
    result only. *)

Lemma upper_not_lower_digit (c : ascii) :
  is_upper c = true -> is_lower c || is_digit c = false.
Proof.
  unfold is_upper, is_lower, is_digit. intros U.
  apply andb_true_iff in U. destruct U as [U1 U2].
  apply Nat.leb_le in U1, U2.
  apply orb_false_iff. split; apply andb_false_iff.
  - left. apply Nat.leb_gt. lia.
  - right. apply Nat.leb_gt. lia.
Qed.

Lemma clean_text_cons (c : ascii) (s : string) :
  clean_text (String c s)
  = if is_lower c || is_digit c then String c (clean_text s)
    else if is_upper c
         then String (ascii_of_nat (code c + 32)) (clean_text s)
         else clean_text s.
Proof.
  unfold clean_text. cbn [filter]. unfold is_alnum.
  destruct (is_upper c) eqn:U.
  - pose proof (upper_not_lower_digit c U) as H. rewrite H.
    apply orb_false_iff in H. destruct H as [-> ->].
    cbn [orb map]. unfold lower. now rewrite U.
  - rewrite orb_false_r.
    destruct (is_lower c), (is_digit c); cbn [orb map]; trivial;
      unfold lower; now rewrite U.
Qed.

Lemma clean_text_cleaned (s : string) : cleaned s (clean_text s).
Proof.
  induction s as [|c s IH]; [constructor|].
  rewrite clean_text_cons.
  destruct (is_lower c || is_digit c) eqn:K; [now constructor|].
  destruct (is_upper c) eqn:U; [now constructor|].
  apply cleaned_left_out; [|exact IH].
  apply orb_false_iff in K. destruct K as [-> ->]. now rewrite U.
Qed.

Lemma cleaned_unique (s t : string) : cleaned s t -> t = clean_text s.
Proof.
  induction 1 as [|c s t K _ IH|c s t U _ IH|c s t O _ IH];
    try rewrite clean_text_cons.
  - reflexivity.
  - now rewrite K, IH.
  - now rewrite (upper_not_lower_digit c U), U, IH.
  - assert (K : is_lower c || is_digit c = false).
    { destruct (is_lower c), (is_upper c), (is_digit c);
        try discriminate; reflexivity. }
    assert (U : is_upper c = false).
    { destruct (is_lower c), (is_upper c), (is_digit c);
        try discriminate; reflexivity. }
    now rewrite K, U.
Qed.

End TextFacts.


(** ** Number fractions *)

Module FractionFacts.

Import Text Notions TextFacts.
Local Open Scope string_scope.

(** *** Runs of a character class *)

Lemma take_drop (p : ascii -> bool) (s : string) :
  s = take_while p s ++ drop_while p s.
Proof.
  induction s as [|c s IH]; simpl; [reflexivity|].
  destruct (p c); simpl; [now rewrite <- IH|reflexivity].
Qed.

Lemma take_while_all (p : ascii -> bool) (s : string) :
  forallb p (take_while p s) = true.
Proof.
  induction s as [|c s IH]; simpl; [reflexivity|].
  destruct (p c) eqn:E; simpl; [now rewrite E|reflexivity].
Qed.

Lemma drop_while_start (p : ascii -> bool) (s : string) :
  starts_with p (drop_while p s) = false.
Proof.
  induction s as [|c s IH]; simpl; [reflexivity|].
  destruct (p c) eqn:E; simpl; [exact IH|exact E].
Qed.

Lemma take_while_app (p : ascii -> bool) (a r : string) :
  forallb p a = true -> starts_with p r = false ->
  take_while p (a ++ r) = a.
Proof.
  intros Ha Hr. induction a as [|c a IH]; simpl in *.
  - destruct r as [|x r]; simpl in *; [reflexivity|now rewrite Hr].
  - apply andb_true_iff in Ha. destruct Ha as [Hc Ha].
    rewrite Hc. now rewrite IH.
Qed.

Lemma drop_while_app (p : ascii -> bool) (a r : string) :
  forallb p a = true -> starts_with p r = false ->
  drop_while p (a ++ r) = r.
Proof.
  intros Ha Hr. induction a as [|c a IH]; simpl in *.
  - destruct r as [|x r]; simpl in *; [reflexivity|now rewrite Hr].
  - apply andb_true_iff in Ha. destruct Ha as [Hc Ha].
    rewrite Hc. now apply IH.
Qed.

Lemma length_drop_while (p : ascii -> bool) (s : string) :
  (length (drop_while p s) <= length s)%nat.
Proof.
  induction s as [|c s IH]; simpl; [lia|].
  destruct (p c); simpl; lia.
Qed.

Lemma forallb_app (p : ascii -> bool) (a b : string) :
  forallb p (a ++ b) = forallb p a && forallb p b.
Proof.
  induction a as [|c a IH]; simpl; [reflexivity|].
  now rewrite IH, andb_assoc.
Qed.

Lemma truthy_iff (s : string) : truthy s = true <-> s <> "".
Proof. destruct s; simpl; split; congruence. Qed.

(** The classes of the pattern are disjoint. *)

Lemma digit_not_space (c : ascii) : is_digit c = true -> is_space c = false.
Proof.
  unfold is_digit, is_space. intros H.
  apply andb_true_iff in H. destruct H as [H1 H2].
  apply Nat.leb_le in H1. apply Nat.leb_le in H2.
  repeat rewrite orb_false_iff. repeat split.
  - apply andb_false_iff. right. apply Nat.leb_gt. lia.
  - apply andb_false_iff. right. apply Nat.leb_gt. lia.
  - apply Nat.eqb_neq. lia.
  - apply Nat.eqb_neq. lia.
Qed.

Lemma space_not_digit (c : ascii) : is_space c = true -> is_digit c = false.
Proof.
  intros H. destruct (is_digit c) eqn:E; [|reflexivity].
  apply digit_not_space in E. congruence.
Qed.

Lemma spaces_slash_start (ws r : string) :
  forallb is_space ws = true ->
  starts_with is_digit (ws ++ "/" ++ r) = false.
Proof.
  destruct ws as [|c ws]; simpl; [reflexivity|].
  intros H. apply andb_true_iff in H. now apply space_not_digit.
Qed.

Lemma spaces_digits_start (den r : string) :
  den <> "" -> forallb is_digit den = true ->
  starts_with is_space (den ++ r) = false.
Proof.
  destruct den as [|c den]; simpl; [congruence|].
  intros _ H. apply andb_true_iff in H. now apply digit_not_space.
Qed.

(** *** One attempt *)

Lemma match_here_complete (m num den rest : string) :
  fraction_match m num den -> starts_with is_digit rest = false ->
  match_here (m ++ rest) = Some ((num, den), rest).
Proof.
  intros [n ws1 ws2 d Hn Dn W1 W2 Hd Dd] Hrest.
  unfold match_here.
  repeat rewrite append_assoc.
  assert (S1 : starts_with is_digit (ws1 ++ "/" ++ ws2 ++ d ++ rest) = false)
    by now apply spaces_slash_start.
  rewrite (take_while_app _ _ _ Dn S1), (drop_while_app _ _ _ Dn S1).
  assert (T : truthy n = true) by now apply truthy_iff.
  rewrite T.
  rewrite (drop_while_app is_space ws1 ("/" ++ ws2 ++ d ++ rest) W1 eq_refl).
  cbn [append].
  assert (S2 : starts_with is_space (d ++ rest) = false)
    by now apply spaces_digits_start.
  rewrite (drop_while_app _ _ _ W2 S2).
  rewrite (take_while_app _ _ _ Dd Hrest), (drop_while_app _ _ _ Dd Hrest).
  assert (T' : truthy d = true) by now apply truthy_iff.
  now rewrite T'.
Qed.

Lemma match_here_sound (s num den rest : string) :
  match_here s = Some ((num, den), rest) ->
  exists m, s = m ++ rest /\ fraction_match m num den
            /\ starts_with is_digit rest = false.
Proof.
  unfold match_here. intros H.
  destruct (truthy (take_while is_digit s)) eqn:T; [|discriminate].
  destruct (drop_while is_space (drop_while is_digit s)) as [|c r] eqn:D;
    [discriminate|].
  destruct (ascii_dec c "/") as [->|Hc].
  2:{ destruct c as [[] [] [] [] [] [] [] []]; try discriminate.
      now contradiction Hc. }
  destruct (truthy (take_while is_digit (drop_while is_space r))) eqn:T';
    [|discriminate].
  inversion H; subst; clear H.
  set (n := take_while is_digit s) in *.
  set (ws1 := take_while is_space (drop_while is_digit s)).
  set (ws2 := take_while is_space r).
  set (d := take_while is_digit (drop_while is_space r)) in *.
  exists (n ++ ws1 ++ "/" ++ ws2 ++ d). split; [|split].
  - repeat rewrite append_assoc.
    rewrite (take_drop is_digit s) at 1. fold n. f_equal.
    rewrite (take_drop is_space (drop_while is_digit s)) at 1. fold ws1.
    f_equal. rewrite D. cbn [append]. f_equal.
    rewrite (take_drop is_space r) at 1. fold ws2. f_equal.
    apply take_drop.
  - constructor; try apply take_while_all; now apply truthy_iff.
  - apply drop_while_start.
Qed.

Lemma match_here_none (s : string) :
  match_here s = None -> no_match_at_start s.
Proof.
  intros H m rest num den Hs Hm.
  destruct Hm as [n ws1 ws2 d Hn Dn W1 W2 Hd Dd].
  set (d' := d ++ take_while is_digit rest).
  assert (M : fraction_match (n ++ ws1 ++ "/" ++ ws2 ++ d') n d').
  { constructor; trivial.
    - unfold d'. destruct d; [congruence|discriminate].
    - unfold d'. rewrite forallb_app, Dd. apply take_while_all. }
  pose proof (match_here_complete _ _ _ (drop_while is_digit rest) M
                (drop_while_start _ _)) as C.
  assert (E : s = (n ++ ws1 ++ "/" ++ ws2 ++ d') ++ drop_while is_digit rest).
  { rewrite Hs. unfold d'. repeat rewrite append_assoc.
    now rewrite <- take_drop. }
  rewrite <- E in C. congruence.
Qed.

Lemma match_here_shorter (s : string) g (rest : string) :
  match_here s = Some (g, rest) -> (length rest < length s)%nat.
Proof.
  destruct g as [num den]. intros H.
  apply match_here_sound in H.
  destruct H as (m & -> & [n ws1 ws2 d Hn _ _ _ _ _] & _).
  rewrite length_append. destruct n; [congruence|]. simpl. lia.
Qed.

(** *** Backtracking

    When the continuation fails on every run that could be longer, the
    greedy quantifier ends up with the longest run; when it succeeds
    on the longest run, that is the answer. *)

Lemma star_gives_back {T : Type} (p : ascii -> bool) (s : string)
    (k : string -> string -> option T) :
  (forall run rest, starts_with p rest = true -> k run rest = None) ->
  star p s k = k (take_while p s) (drop_while p s).
Proof.
  revert k. induction s as [|c s IH]; intros k Hk; cbn [star take_while
                                                        drop_while].
  - reflexivity.
  - destruct (p c) eqn:Pc; [|reflexivity].
    rewrite IH by (intros run rest Hr; now apply Hk).
    destruct (k (String c (take_while p s)) (drop_while p s)); [reflexivity|].
    apply Hk. exact Pc.
Qed.

Lemma star_longest {T : Type} (p : ascii -> bool) (s : string)
    (k : string -> string -> option T) (r : T) :
  k (take_while p s) (drop_while p s) = Some r -> star p s k = Some r.
Proof.
  revert k. induction s as [|c s IH]; intros k Hk; cbn [star take_while
                                                        drop_while] in *.
  - exact Hk.
  - destruct (p c); [|exact Hk].
    now rewrite (IH (fun run rest => k (String c run) rest) Hk).
Qed.

Lemma plus_gives_back {T : Type} (p : ascii -> bool) (s : string)
    (k : string -> string -> option T) :
  (forall run rest, starts_with p rest = true -> k run rest = None) ->
  plus p s k =
  if truthy (take_while p s) then k (take_while p s) (drop_while p s)
  else None.
Proof.
  intros Hk. destruct s as [|c s]; cbn [plus take_while drop_while truthy];
    [reflexivity|].
  destruct (p c); [|reflexivity]. cbn [truthy].
  apply star_gives_back. intros run rest Hr. now apply Hk.
Qed.

Lemma plus_longest {T : Type} (p : ascii -> bool) (s : string)
    (k : string -> string -> option T) :
  (forall run rest, k run rest <> None) ->
  plus p s k =
  if truthy (take_while p s) then k (take_while p s) (drop_while p s)
  else None.
Proof.
  intros Hk. destruct s as [|c s]; cbn [plus take_while drop_while truthy];
    [reflexivity|].
  destruct (p c); [|reflexivity]. cbn [truthy].
  destruct (k (String c (take_while p s)) (drop_while p s)) as [r|] eqn:E.
  - now apply star_longest.
  - now apply Hk in E.
Qed.

Lemma chr_slash {T : Type} (s : string) (k : string -> option T) :
  chr "/" s k = match s with
                | String "/" r => k r
                | _ => None
                end.
Proof.
  destruct s as [|c s]; cbn [chr]; [reflexivity|].
  destruct (Ascii.eqb_spec c "/") as [->|Hne]; [reflexivity|].
  destruct c as [[] [] [] [] [] [] [] []]; try reflexivity.
  now contradiction Hne.
Qed.

(** The backtracking matcher finds the match of the longest runs. *)
Lemma match_pattern_longest (s : string) : match_pattern s = match_here s.
Proof.
  unfold match_pattern, match_here.
  rewrite plus_gives_back.
  2:{ intros run rest Hr.
      destruct rest as [|c rest]; [discriminate|]. cbn in Hr.
      cbn [star]. rewrite (digit_not_space c Hr). cbn [chr].
      destruct (Ascii.eqb_spec c "/") as [->|_]; [discriminate|reflexivity]. }
  destruct (truthy (take_while is_digit s)); [|reflexivity].
  rewrite star_gives_back.
  2:{ intros run rest Hr.
      destruct rest as [|c rest]; [discriminate|]. cbn in Hr. cbn [chr].
      destruct (Ascii.eqb_spec c "/") as [->|_]; [discriminate|reflexivity]. }
  rewrite chr_slash.
  destruct (drop_while is_space (drop_while is_digit s)) as [|c r];
    [reflexivity|].
  assert (E : star is_space r (fun _ r4 =>
                plus is_digit r4 (fun den r5 =>
                  Some (take_while is_digit s, den, r5)))
              = if truthy (take_while is_digit (drop_while is_space r))
                then Some (take_while is_digit s,
                           take_while is_digit (drop_while is_space r),
                           drop_while is_digit (drop_while is_space r))
                else None).
  { rewrite star_gives_back.
    - now apply plus_longest.
    - intros run rest Hr. destruct rest as [|x rest]; [discriminate|].
      cbn in Hr. cbn [plus]. now rewrite (space_not_digit x Hr). }
  rewrite E. now destruct c as [[] [] [] [] [] [] [] []].
Qed.

(** *** The scan *)

Lemma findall_fuel_indep (f1 f2 : nat) (s : string) :
  (length s < f1)%nat -> (length s < f2)%nat ->
  findall_fuel f1 s = findall_fuel f2 s.
Proof.
  revert f2 s. induction f1 as [|f1 IH]; intros f2 s H1 H2; [lia|].
  destruct f2 as [|f2]; [lia|].
  cbn [findall_fuel]. rewrite match_pattern_longest.
  destruct (match_here s) as [[g rest]|] eqn:M.
  - f_equal. apply match_here_shorter in M. apply IH; lia.
  - destruct s as [|c s]; [reflexivity|]. simpl in *. apply IH; lia.
Qed.

Lemma findall_fuel_enough (fuel : nat) (s : string) :
  (length s < fuel)%nat -> findall_fuel fuel s = findall s.
Proof.
  intros H. unfold findall. apply findall_fuel_indep; lia.
Qed.

Lemma findall_unfold (s : string) :
  findall s =
  match match_here s with
  | Some (groups, rest) => groups :: findall rest
  | None =>
      match s with
      | "" => []
      | String _ s' => findall s'
      end
  end.
Proof.
  unfold findall at 1. cbn [findall_fuel]. rewrite match_pattern_longest.
  destruct (match_here s) as [[g rest]|] eqn:M.
  - f_equal. apply findall_fuel_enough. apply match_here_shorter in M. lia.
  - destruct s as [|c s]; [reflexivity|].
    apply findall_fuel_enough. simpl. lia.
Qed.


Lemma match_here_some_not_free (s : string) g (rest : string) :
  match_here s = Some (g, rest) -> ~ no_match_at_start s.
Proof.
  destruct g as [num den]. intros H F.
  apply match_here_sound in H. destruct H as (m & E & M & _).
  exact (F m rest num den E M).
Qed.

Lemma no_match_at_start_dec (s : string) :
  no_match_at_start s -> match_here s = None.
Proof.
  intros F. destruct (match_here s) as [[g rest]|] eqn:M; [|reflexivity].
  now apply match_here_some_not_free in M.
Qed.

Lemma all_matches_skip (c : ascii) (s : string) (l : list (string * string)) :
  no_match_at_start (String c s) -> all_matches s l ->
  all_matches (String c s) l.
Proof.
  intros F H.
  inversion H
    as [s0 Hfree E1 E2|before m rest num den l0 Hl Hm Hr Hrest E1 E2];
    subst.
  - apply NoMoreMatch. intros [|x b] s' E.
    + simpl in E. now subst s'.
    + simpl in E. inversion E; subst. now apply (Hfree b).
  - change (String c (before ++ m ++ rest))
      with (String c before ++ m ++ rest).
    apply NextMatch; trivial.
    intros [|x b1] b2 E Hne.
    + simpl in E. subst b2. exact F.
    + simpl in E. inversion E; subst. now apply (Hl b1).
Qed.

Lemma findall_all_matches_len (n : nat) (s : string) :
  (length s < n)%nat -> all_matches s (findall s).
Proof.
  revert s. induction n as [|n IH]; intros s Hlen; [lia|].
  rewrite findall_unfold.
  destruct (match_here s) as [[[num den] rest]|] eqn:M.
  - pose proof (match_here_shorter _ _ _ M) as Hshort.
    apply match_here_sound in M. destruct M as (m & -> & Hm & Hr).
    change (m ++ rest) with ("" ++ m ++ rest).
    apply NextMatch; trivial.
    + intros b1 b2 E Hne. destruct b1; [|discriminate].
      simpl in E. congruence.
    + apply IH. lia.
  - apply match_here_none in M. destruct s as [|c s].
    + apply NoMoreMatch. intros before s' E.
      destruct before; [|discriminate]. simpl in E. now subst s'.
    + apply all_matches_skip; [exact M|]. apply IH. simpl in Hlen. lia.
Qed.

Lemma findall_no_match (s : string) :
  (forall before s', s = before ++ s' -> no_match_at_start s') ->
  findall s = [].
Proof.
  induction s as [|c s IH]; intros F.
  - reflexivity.
  - rewrite findall_unfold.
    rewrite (no_match_at_start_dec _ (F "" _ eq_refl)).
    apply IH. intros before s' E. apply (F (String c before)).
    simpl. now rewrite E.
Qed.

Lemma findall_next_match (before m rest num den : string) :
  (forall b1 b2, before = b1 ++ b2 -> b2 <> "" ->
                 no_match_at_start (b2 ++ m ++ rest)) ->
  fraction_match m num den ->
  starts_with is_digit rest = false ->
  findall (before ++ m ++ rest) = (num, den) :: findall rest.
Proof.
  intros F Hm Hr. induction before as [|c b IH].
  - cbn [append]. rewrite findall_unfold.
    now rewrite (match_here_complete _ _ _ _ Hm Hr).
  - rewrite findall_unfold.
    assert (N : no_match_at_start (String c b ++ m ++ rest)).
    { apply (F "" (String c b)); [reflexivity|discriminate]. }
    rewrite (no_match_at_start_dec _ N). cbn [append].
    apply IH. intros b1 b2 E Hne. apply (F (String c b1)); trivial.
    simpl. now rewrite E.
Qed.

Lemma all_matches_unique (s : string) (l : list (string * string)) :
  all_matches s l -> l = findall s.
Proof.
  induction 1 as [s F|before m rest num den l F Hm Hr _ IH].
  - symmetry. now apply findall_no_match.
  - rewrite (findall_next_match _ _ _ _ _ F Hm Hr). now rewrite IH.
Qed.

End FractionFacts.


(** ** Scoring *)

Module ScoringFacts.

Import Text Embedding Scanner Notions TextFacts.
Local Open Scope Z_scope.

Lemma qualifiesb_iff (cn text : string) :
  qualifiesb cn text = true <-> qualifies cn text.
Proof.
  unfold qualifiesb, qualifies.
  now rewrite andb_true_iff, orb_true_iff, Nat.leb_le, !str_in_iff.
Qed.

Lemma name_loop_spec (cn : string) (texts : list string) (score : Z) :
  name_loop cn texts score =
  score + (if existsb (qualifiesb cn) texts then 20 else 0).
Proof.
  induction texts as [|t texts IH]; cbn [name_loop existsb].
  - lia.
  - fold (qualifiesb cn t). destruct (qualifiesb cn t); simpl; [reflexivity|].
    exact IH.
Qed.

Lemma attack_loop_spec (texts : list string) (l : list Attack) (score : Z) :
  attack_loop texts l score =
  score + 10 * Z.of_nat (List.length (List.filter (attack_hits texts) l)).
Proof.
  revert score. induction l as [|a l IH]; intros score;
    cbn [attack_loop List.filter].
  - simpl. lia.
  - fold (attack_hits texts a). destruct (attack_hits texts a).
    + rewrite IH. cbn [List.length]. lia.
    + apply IH.
Qed.

Lemma number_loop_spec (card : Card) (matches : list (string * string))
    (score : Z) :
  number_loop card (get (number card) PNone)
    (get (printedTotal (get (set card) {| printedTotal := None |})) PNone)
    matches score =
  if existsb (fraction_hits card) matches
  then (_ <- subscript_name card ;; Ok (score + 100))
  else Ok score.
Proof.
  induction matches as [|[ocr_num ocr_total] matches IH];
    cbn [number_loop existsb]; [reflexivity|].
  unfold fraction_hits at 1. cbn [fst snd].
  destruct (_ && _); [reflexivity|exact IH].
Qed.

Lemma check_number_spec (matches : list (string * string)) (card : Card)
    (score : Z) :
  check_number matches card score =
  if existsb (fraction_hits card) matches
  then (_ <- subscript_name card ;; Ok (score + 100))
  else Ok score.
Proof.
  unfold check_number. destruct matches as [|m matches]; [reflexivity|].
  apply number_loop_spec.
Qed.

Lemma check_name_spec (texts : list string) (card : Card) (score : Z) :
  check_name texts card score =
  score + (if existsb (qualifiesb (clean_text (get (name card) ""))) texts
           then 20 else 0).
Proof. apply name_loop_spec. Qed.

Lemma check_attacks_spec (texts : list string) (card : Card) (score : Z) :
  check_attacks texts card score =
  score + 10 * Z.of_nat (List.length
                           (List.filter (attack_hits texts)
                                        (get (attacks card) []))).
Proof.
  unfold check_attacks. destruct (attacks card) as [l|]; simpl.
  - apply attack_loop_spec.
  - lia.
Qed.

(** [score_card] raises only in the log line of a number match, on a
    card without a name. *)
Lemma score_card_spec (matches : list (string * string))
    (texts : list string) (card : Card) :
  score_card matches texts card =
  if existsb (fraction_hits card) matches
  then (_ <- subscript_name card ;; Ok (points matches texts card))
  else Ok (points matches texts card).
Proof.
  unfold score_card, points.
  rewrite check_number_spec.
  destruct (existsb (fraction_hits card) matches).
  - destruct (subscript_name card); cbn [bind]; [|reflexivity].
    rewrite check_attacks_spec, check_name_spec. f_equal; lia.
  - cbn [bind]. rewrite check_attacks_spec, check_name_spec. f_equal; lia.
Qed.

Lemma score_card_named (matches : list (string * string))
    (texts : list string) (card : Card) (n : string) :
  name card = Some n ->
  score_card matches texts card = Ok (points matches texts card).
Proof.
  intros H. rewrite score_card_spec. unfold subscript_name. rewrite H.
  now destruct (existsb _ _).
Qed.

Lemma points_nonneg (matches : list (string * string))
    (texts : list string) (card : Card) :
  0 <= points matches texts card.
Proof.
  unfold points.
  destruct (existsb (fraction_hits card) matches);
    destruct (existsb _ texts); lia.
Qed.

Lemma score_card_nonneg (matches : list (string * string))
    (texts : list string) (card : Card) (s : Z) :
  score_card matches texts card = Ok s -> 0 <= s.
Proof.
  rewrite score_card_spec. pose proof (points_nonneg matches texts card).
  destruct (existsb _ matches).
  - unfold subscript_name. destruct (name card); cbn [bind]; congruence.
  - congruence.
Qed.

End ScoringFacts.


(** ** The sweep and the ranking *)

Module SweepFacts.

Import Text Embedding Scanner Notions TextFacts ScoringFacts.
Local Open Scope Z_scope.

Section Sweep.

Variable matches : list (string * string).
Variable texts : list string.
Variable all_cards : list Card.

Lemma sweep_offset (i : nat) (metas : list Meta) :
  sweep matches texts all_cards i metas
  = map_result (List.map (shift i))
               (sweep matches texts all_cards 0 metas).
Proof.
  unfold map_result. revert i.
  induction metas as [|m metas IH]; intros i; cbn [sweep].
  - reflexivity.
  - destruct (get_full_card_details (card_id m) all_cards) as [card|].
    + destruct (score_card matches texts card) as [s|e];
        cbn [bind]; [|reflexivity].
      rewrite (IH (S i)), (IH 1%nat).
      destruct (sweep matches texts all_cards 0 metas) as [cs|e];
        cbn [bind]; [|reflexivity].
      f_equal.
      assert (E : List.map (shift i) (List.map (shift 1) cs)
                  = List.map (shift (S i)) cs).
      { rewrite List.map_map. apply List.map_ext. intros c.
        unfold shift. cbn. f_equal; lia. }
      destruct (0 <? s); cbn [List.map]; rewrite E; [|reflexivity].
      f_equal. unfold shift. cbn. f_equal; lia.
    + rewrite (IH (S i)), (IH 1%nat).
      destruct (sweep matches texts all_cards 0 metas) as [cs|e];
        cbn [bind]; [|reflexivity].
      f_equal. rewrite List.map_map. apply List.map_ext.
      intros c. unfold shift. cbn. f_equal; lia.
Qed.

Lemma sweep_app (i : nat) (l1 l2 : list Meta) :
  sweep matches texts all_cards i (l1 ++ l2) =
  (x <- sweep matches texts all_cards i l1 ;;
   y <- sweep matches texts all_cards (i + List.length l1) l2 ;;
   Ok (x ++ y)%list).
Proof.
  revert i.
  induction l1 as [|m l1 IH]; intros i; cbn [sweep app List.length].
  - cbn [bind]. rewrite Nat.add_0_r.
    destruct (sweep _ _ _ i l2); reflexivity.
  - replace (i + S (List.length l1))%nat with (S i + List.length l1)%nat
      by lia.
    destruct (get_full_card_details (card_id m) all_cards) as [card|].
    + destruct (score_card matches texts card) as [s|e];
        cbn [bind]; [|reflexivity].
      rewrite IH.
      destruct (sweep _ _ _ (S i) l1) as [x|e]; cbn [bind];
        [|reflexivity].
      destruct (sweep _ _ _ (S i + List.length l1) l2) as [y|e];
        cbn [bind]; [|reflexivity].
      now destruct (0 <? s).
    + apply IH.
Qed.

(** What the candidate list holds: the positions of the index whose
    card is in the catalog and scores above zero. *)
Lemma sweep_In (i : nat) (metas : list Meta) (cands : list Candidate) :
  sweep matches texts all_cards i metas = Ok cands ->
  forall c, In c cands <->
    exists card,
      (i <= index c)%nat
      /\ nth_error metas (index c - i) = Some (meta c)
      /\ get_full_card_details (card_id (meta c)) all_cards = Some card
      /\ score_card matches texts card = Ok (score c)
      /\ 0 < score c.
Proof.
  revert i cands.
  induction metas as [|m metas IH]; intros i cands H c;
    cbn [sweep] in H.
  - inversion H; subst. split; [intros []|].
    intros (card & _ & N & _). now destruct (index c - i)%nat.
  - assert (Tail : forall cs, sweep matches texts all_cards (S i) metas
                              = Ok cs ->
              (In c cs <->
               exists card,
                 (i <= index c)%nat /\ index c <> i
                 /\ nth_error (m :: metas) (index c - i) = Some (meta c)
                 /\ get_full_card_details (card_id (meta c)) all_cards
                    = Some card
                 /\ score_card matches texts card = Ok (score c)
                 /\ 0 < score c)).
    { intros cs Hcs. rewrite (IH _ _ Hcs c). split.
      - intros (card & Hi & N & R). exists card.
        split; [lia|]. split; [lia|]. split; [|exact R].
        replace (index c - i)%nat with (S (index c - S i)) by lia.
        exact N.
      - intros (card & Hi & Hne & N & R). exists card. split; [lia|].
        split; [|exact R].
        replace (index c - i)%nat with (S (index c - S i)) in N by lia.
        exact N. }
    destruct (get_full_card_details (card_id m) all_cards) as [card0|] eqn:L.
    + destruct (score_card matches texts card0) as [s|e] eqn:Sc;
        cbn [bind] in H; [|discriminate].
      destruct (sweep matches texts all_cards (S i) metas) as [cs|e]
        eqn:Hcs; cbn [bind] in H; [|discriminate].
      specialize (Tail cs eq_refl).
      inversion H as [H']; clear H.
      destruct (0 <? s) eqn:Pos.
      * subst cands. cbn [In]. rewrite Tail. split.
        -- intros [<-|(card & Hi & Hne & R)].
           ++ exists card0. cbn. rewrite Nat.sub_diag. cbn.
              apply Z.ltb_lt in Pos. repeat split; trivial.
           ++ exists card. split; [exact Hi|exact R].
        -- intros (card & Hi & N & Lk & Sc' & P).
           destruct (Nat.eq_dec (index c) i) as [E|Hne].
           ++ left. rewrite E, Nat.sub_diag in N. cbn in N.
              inversion N as [Hm]. rewrite <- Hm in Lk.
              rewrite L in Lk. inversion Lk; subst card.
              rewrite Sc in Sc'. inversion Sc'.
              destruct c; cbn in *; subst; reflexivity.
           ++ right. exists card. repeat split; trivial.
      * subst cands. rewrite Tail. split.
        -- intros (card & Hi & Hne & R). exists card. split; [exact Hi|exact R].
        -- intros (card & Hi & N & Lk & Sc' & P). exists card.
           repeat split; trivial.
           intros E. rewrite E, Nat.sub_diag in N. cbn in N.
           inversion N as [Hm]. rewrite <- Hm in Lk.
           rewrite L in Lk. inversion Lk; subst card.
           rewrite Sc in Sc'. inversion Sc'. apply Z.ltb_ge in Pos. lia.
    + specialize (Tail cands H). rewrite Tail. split.
      * intros (card & Hi & Hne & R). exists card. split; [exact Hi|exact R].
      * intros (card & Hi & N & Lk & R). exists card.
        repeat split; trivial; try apply R.
        intros E. rewrite E, Nat.sub_diag in N. cbn in N.
        inversion N as [Hm]. rewrite <- Hm in Lk. congruence.
Qed.

(** The candidates come in the order of the index. *)
Lemma sweep_index_order (i : nat) (metas : list Meta)
    (cands : list Candidate) :
  sweep matches texts all_cards i metas = Ok cands ->
  StronglySorted (fun a b => (index a < index b)%nat) cands.
Proof.
  revert i cands. induction metas as [|m metas IH]; intros i cands H;
    cbn [sweep] in H.
  - inversion H. constructor.
  - destruct (get_full_card_details (card_id m) all_cards) as [card|];
      [|now apply (IH (S i))].
    destruct (score_card matches texts card) as [s|e];
      cbn [bind] in H; [|discriminate].
    destruct (sweep matches texts all_cards (S i) metas) as [cs|e]
      eqn:T; cbn [bind] in H; [|discriminate].
    inversion H; subst cands. clear H.
    destruct (0 <? s); [|now apply (IH (S i))].
    constructor; [now apply (IH (S i))|].
    apply Forall_forall. intros c Hc.
    apply (sweep_In _ _ _ T) in Hc. destruct Hc as (_ & Hi & _).
    cbn. lia.
Qed.

End Sweep.

End SweepFacts.


(** ** Ranking *)

Module RankFacts.

Import Text Embedding Scanner Notions TextFacts ScoringFacts SweepFacts.
Local Open Scope Z_scope.

Lemma insert_by_score_In (c x : Candidate) (l : list Candidate) :
  In x (insert_by_score c l) <-> x = c \/ In x l.
Proof.
  induction l as [|d l IH]; cbn [insert_by_score].
  - cbn. intuition.
  - destruct (score c <? score d); cbn [In]; [rewrite IH|]; intuition.
Qed.

Lemma sort_by_score_desc_In (x : Candidate) (l : list Candidate) :
  In x (sort_by_score_desc l) <-> In x l.
Proof.
  induction l as [|c l IH]; cbn [sort_by_score_desc fold_right].
  - reflexivity.
  - fold (sort_by_score_desc l). rewrite insert_by_score_In, IH.
    cbn. intuition.
Qed.

Lemma sort_by_score_desc_nil (l : list Candidate) :
  sort_by_score_desc l = [] -> l = [].
Proof.
  destruct l as [|c l]; [reflexivity|]. intros H.
  assert (I : In c (sort_by_score_desc (c :: l)))
    by (apply sort_by_score_desc_In; now left).
  rewrite H in I. destruct I.
Qed.

(** The head of the ranking has the maximum score. *)
Lemma sort_by_score_desc_head (l : list Candidate) (c0 : Candidate)
    (rest : list Candidate) :
  sort_by_score_desc l = c0 :: rest ->
  forall c, In c l -> score c <= score c0.
Proof.
  revert c0 rest. induction l as [|x l IH]; intros c0 rest H c Hc.
  - destruct Hc.
  - cbn [sort_by_score_desc fold_right] in H. fold (sort_by_score_desc l) in H.
    destruct (sort_by_score_desc l) as [|d r] eqn:S.
    + apply sort_by_score_desc_nil in S. subst l.
      cbn in H. inversion H; subst. destruct Hc as [<-|[]]. lia.
    + specialize (IH d r eq_refl). cbn [insert_by_score] in H.
      destruct (score x <? score d) eqn:Lt.
      * inversion H; subst. apply Z.ltb_lt in Lt.
        destruct Hc as [<-|Hc]; [lia|now apply IH].
      * inversion H; subst. apply Z.ltb_ge in Lt.
        destruct Hc as [<-|Hc]; [lia|]. specialize (IH c Hc). lia.
Qed.

Lemma best_of_In (l : list Candidate) (c : Candidate) :
  In c (best_of l) -> In c l.
Proof.
  unfold best_of, best_candidates_of.
  destruct (sort_by_score_desc l) as [|c0 r] eqn:S; [intros []|].
  intros H. apply List.filter_In in H. destruct H as [H _].
  rewrite <- S in H. exact (proj1 (sort_by_score_desc_In _ _) H).
Qed.

(** The best candidates are the candidates of maximum score. *)
Lemma best_of_spec (l : list Candidate) (c : Candidate) :
  In c (best_of l) <->
  In c l /\ forall d, In d l -> score d <= score c.
Proof.
  unfold best_of, best_candidates_of.
  destruct (sort_by_score_desc l) as [|c0 r] eqn:S.
  - apply sort_by_score_desc_nil in S. subst l. cbn. intuition.
  - pose proof (sort_by_score_desc_head _ _ _ S) as Max.
    assert (I0 : In c0 l) by (apply sort_by_score_desc_In; rewrite S; now left).
    rewrite List.filter_In, <- S, sort_by_score_desc_In, Z.eqb_eq. split.
    + intros [Hc E]. split; [exact Hc|]. intros d Hd. rewrite E. now apply Max.
    + intros [Hc M]. split; [exact Hc|].
      specialize (M c0 I0). specialize (Max c Hc). lia.
Qed.

(** The ranking is stable: the best candidates come in the order of
    the candidate list. *)
Lemma best_candidates_of_insert (top : Z) (x : Candidate)
    (l : list Candidate) :
  best_candidates_of top (insert_by_score x l)
  = best_candidates_of top (x :: l).
Proof.
  unfold best_candidates_of.
  induction l as [|d l IH]; cbn [insert_by_score]; [reflexivity|].
  destruct (score x <? score d) eqn:Lt; [|reflexivity].
  apply Z.ltb_lt in Lt. cbn [List.filter] in *. rewrite IH.
  destruct (score x =? top) eqn:Ex; [|reflexivity].
  apply Z.eqb_eq in Ex.
  assert (Ed : (score d =? top) = false) by (apply Z.eqb_neq; lia).
  now rewrite Ed.
Qed.

Lemma best_candidates_of_sort (top : Z) (l : list Candidate) :
  best_candidates_of top (sort_by_score_desc l) = best_candidates_of top l.
Proof.
  induction l as [|x l IH]; [reflexivity|].
  cbn [sort_by_score_desc fold_right]. fold (sort_by_score_desc l).
  rewrite best_candidates_of_insert. unfold best_candidates_of in *.
  cbn [List.filter]. now rewrite IH.
Qed.

Lemma best_of_keeps_order (l : list Candidate) (c0 : Candidate)
    (rest : list Candidate) :
  sort_by_score_desc l = c0 :: rest ->
  best_of l = best_candidates_of (score c0) l.
Proof.
  intros S. unfold best_of. rewrite S, <- S. apply best_candidates_of_sort.
Qed.

Lemma determine_best_match_unfold (all_cards : list Card)
    (search_index : SearchIndex) (query_embedding : option vec)
    (card_scores : list Candidate) (c0 : Candidate) (rest : list Candidate) :
  sort_by_score_desc card_scores = c0 :: rest ->
  determine_best_match all_cards search_index query_embedding card_scores =
  match best_of card_scores with
  | [c] =>
      respond (get_full_card_details (card_id (meta c)) all_cards)
              (score c0) "Scoring"
  | best_candidates =>
      match query_embedding with
      | Some q =>
          final_match_card <-
            tie_break all_cards search_index best_candidates q ;;
          respond final_match_card (score c0) "Scoring with Image Tie-break"
      | None => respond None (score c0) "Scoring"
      end
  end.
Proof.
  intros S. unfold determine_best_match, best_of. rewrite S. cbv zeta.
  now destruct (best_candidates_of (score c0) (c0 :: rest)) as [|? [|? ?]].
Qed.

(** The head of the ranking is the first best candidate. *)
Lemma best_of_head (l : list Candidate) (c0 : Candidate)
    (rest : list Candidate) :
  sort_by_score_desc l = c0 :: rest ->
  exists others, best_of l = c0 :: others.
Proof.
  intros S. unfold best_of, best_candidates_of. rewrite S.
  cbn [List.filter]. rewrite Z.eqb_refl. eauto.
Qed.

(** *** Candidates that differ only in where their embedding row is *)

Section Simulation.

Variables e1 e2 : list vec.

Lemma alike_insert (c1 c2 : Candidate) (l1 l2 : list Candidate) :
  alike e1 e2 c1 c2 -> Forall2 (alike e1 e2) l1 l2 ->
  Forall2 (alike e1 e2) (insert_by_score c1 l1) (insert_by_score c2 l2).
Proof.
  intros A F. induction F as [|d1 d2 l1 l2 D F IH]; cbn [insert_by_score].
  - constructor; [exact A|constructor].
  - destruct A as (As & Ar), D as (Ds & Dr). rewrite As, Ds.
    destruct (score c2 <? score d2).
    + constructor; [now split|exact IH].
    + constructor; [now split|]. constructor; [now split|exact F].
Qed.

Lemma alike_sort (l1 l2 : list Candidate) :
  Forall2 (alike e1 e2) l1 l2 ->
  Forall2 (alike e1 e2) (sort_by_score_desc l1) (sort_by_score_desc l2).
Proof.
  induction 1 as [|c1 c2 l1 l2 A F IH]; cbn; [constructor|].
  now apply alike_insert.
Qed.

Lemma alike_filter (top : Z) (l1 l2 : list Candidate) :
  Forall2 (alike e1 e2) l1 l2 ->
  Forall2 (alike e1 e2) (best_candidates_of top l1) (best_candidates_of top l2).
Proof.
  unfold best_candidates_of.
  induction 1 as [|c1 c2 l1 l2 A F IH]; cbn [List.filter]; [constructor|].
  destruct A as (As & Ar). rewrite As.
  destruct (score c2 =? top); [|exact IH].
  constructor; [now split|exact IH].
Qed.

Lemma alike_best_of (l1 l2 : list Candidate) :
  Forall2 (alike e1 e2) l1 l2 ->
  Forall2 (alike e1 e2) (best_of l1) (best_of l2).
Proof.
  intros F. unfold best_of. pose proof (alike_sort _ _ F) as S.
  destruct S as [|c1 c2 r1 r2 A S]; [constructor|].
  destruct A as (As & Ar). rewrite As.
  apply alike_filter. constructor; [now split|exact S].
Qed.

Lemma alike_rows (l1 l2 : list Candidate) :
  Forall2 (alike e1 e2) l1 l2 -> tiebreaker_rows e1 l1 = tiebreaker_rows e2 l2.
Proof.
  induction 1 as [|c1 c2 l1 l2 A F IH]; cbn [tiebreaker_rows]; [reflexivity|].
  destruct A as (_ & _ & E). rewrite E, IH. reflexivity.
Qed.

Lemma alike_nth (l1 l2 : list Candidate) (k : nat) :
  Forall2 (alike e1 e2) l1 l2 ->
  option_map meta (nth_error l1 k) = option_map meta (nth_error l2 k).
Proof.
  intros F. revert k. induction F as [|c1 c2 l1 l2 A F IH]; intros [|k]; cbn;
    trivial.
  destruct A as (_ & E & _). now rewrite E.
Qed.

End Simulation.

Lemma alike_tie_break (all_cards : list Card) (i1 i2 : SearchIndex)
    (l1 l2 : list Candidate) (q : vec) :
  Forall2 (alike (embeddings i1) (embeddings i2)) l1 l2 ->
  tie_break all_cards i1 l1 q = tie_break all_cards i2 l2 q.
Proof.
  intros F. unfold tie_break. rewrite (alike_rows _ _ _ _ F).
  destruct (tiebreaker_rows (embeddings i2) l2) as [rows|e]; cbn [bind];
    [|reflexivity].
  destruct (tiebreak_similarities q rows) as [sims|e]; cbn [bind];
    [|reflexivity].
  destruct (argmax sims) as [k|e]; cbn [bind]; [|reflexivity].
  pose proof (alike_nth _ _ _ _ k F) as N.
  destruct (nth_error l1 k), (nth_error l2 k); cbn in N; try discriminate;
    [|reflexivity].
  inversion N as [E]. now rewrite E.
Qed.

Lemma alike_determine_best_match (all_cards : list Card) (i1 i2 : SearchIndex)
    (query_embedding : option vec) (l1 l2 : list Candidate) :
  Forall2 (alike (embeddings i1) (embeddings i2)) l1 l2 ->
  determine_best_match all_cards i1 query_embedding l1 =
  determine_best_match all_cards i2 query_embedding l2.
Proof.
  intros F.
  pose proof (alike_sort _ _ _ _ F) as S.
  pose proof (alike_best_of _ _ _ _ F) as B.
  destruct (sort_by_score_desc l1) as [|c1 r1] eqn:S1;
    destruct (sort_by_score_desc l2) as [|c2 r2] eqn:S2;
    try (now inversion S).
  - unfold determine_best_match. now rewrite S1, S2.
  - rewrite (determine_best_match_unfold _ _ _ _ _ _ S1),
            (determine_best_match_unfold _ _ _ _ _ _ S2).
    assert (Es : score c1 = score c2).
    { inversion S as [|? ? ? ? A]; subst. apply A. }
    rewrite Es.
    remember (best_of l1) as B1 eqn:E1. remember (best_of l2) as B2 eqn:E2.
    clear E1 E2. pose proof B as B0.
    destruct B as [|b1 b2 t1 t2 A B'].
    + destruct query_embedding as [q|]; [|reflexivity].
      now rewrite (alike_tie_break all_cards i1 i2 _ _ q B0).
    + destruct B' as [|b1' b2' t1' t2' A' B''].
      * destruct A as (_ & E & _). now rewrite E.
      * destruct query_embedding as [q|]; [|reflexivity].
        now rewrite (alike_tie_break all_cards i1 i2 _ _ q B0).
Qed.

End RankFacts.


(** ** Index entries without a catalog entry *)

Module DriftFacts.

Import Text Embedding Scanner Notions.
Import TextFacts ScoringFacts SweepFacts RankFacts.
Local Open Scope Z_scope.

Lemma remove_nth_app {A : Type} (pre : list A) (x : A) (post : list A) :
  remove_nth (List.length pre) (pre ++ x :: post) = (pre ++ post)%list.
Proof.
  induction pre as [|y pre IH]; cbn; [reflexivity|]. now rewrite IH.
Qed.

Lemma nth_error_remove_nth_lt {A : Type} (k j : nat) (l : list A) :
  (j < k)%nat -> nth_error (remove_nth k l) j = nth_error l j.
Proof.
  revert k j. induction l as [|x l IH]; intros k j H; [now destruct k|].
  destruct k as [|k]; [lia|]. destruct j as [|j]; cbn; [reflexivity|].
  apply IH. lia.
Qed.

Lemma nth_error_remove_nth_ge {A : Type} (k j : nat) (l : list A) :
  (k <= j)%nat -> nth_error (remove_nth k l) j = nth_error l (S j).
Proof.
  revert k j. induction l as [|x l IH]; intros k j H.
  - destruct k; cbn; now destruct j.
  - destruct k as [|k]; [reflexivity|]. destruct j as [|j]; [lia|].
    cbn [remove_nth nth_error]. apply IH. lia.
Qed.

Section Removal.

Variable matches : list (string * string).
Variable texts : list string.
Variable all_cards : list Card.
Variable e : list vec.

Lemma alike_shift (k : nat) (cs : list Candidate) :
  Forall2 (alike e (remove_nth k e))
          (List.map (shift (S k)) cs) (List.map (shift k) cs).
Proof.
  induction cs as [|c cs IH]; cbn [List.map]; constructor; [|exact IH].
  unfold alike, shift. cbn. repeat split.
  rewrite nth_error_remove_nth_ge by lia. reflexivity.
Qed.

Lemma alike_before (k : nat) (pre : list Meta) (cs : list Candidate) :
  sweep matches texts all_cards 0 pre = Ok cs ->
  (List.length pre <= k)%nat ->
  Forall2 (alike e (remove_nth k e)) cs cs.
Proof.
  intros H Hk.
  assert (B : forall c, In c cs -> (index c < k)%nat).
  { intros c Hc. apply (sweep_In _ _ _ _ _ _ H) in Hc.
    destruct Hc as (card & _ & N & _).
    rewrite Nat.sub_0_r in N.
    assert (nth_error pre (index c) <> None) as N' by congruence.
    apply nth_error_Some in N'. lia. }
  clear H. induction cs as [|c cs IH]; constructor.
  - unfold alike. repeat split.
    rewrite nth_error_remove_nth_lt; [reflexivity|]. apply B. now left.
  - apply IH. intros c' Hc'. apply B. now right.
Qed.

Lemma sweep_remove (pre : list Meta) (m : Meta) (post : list Meta) :
  get_full_card_details (card_id m) all_cards = None ->
  result_rel (Forall2 (alike e (remove_nth (List.length pre) e)))
    (sweep matches texts all_cards 0 (pre ++ m :: post))
    (sweep matches texts all_cards 0 (pre ++ post)).
Proof.
  intros L. rewrite !sweep_app. cbn [Nat.add].
  destruct (sweep matches texts all_cards 0 pre) as [x|ex] eqn:X;
    cbn [bind result_rel]; [|reflexivity].
  cbn [sweep]. rewrite L.
  rewrite (sweep_offset _ _ _ (S (List.length pre))),
          (sweep_offset _ _ _ (List.length pre)).
  unfold map_result.
  destruct (sweep matches texts all_cards 0 post) as [y|ey];
    cbn [bind result_rel]; [|reflexivity].
  apply Forall2_app.
  - now apply (alike_before _ pre).
  - apply alike_shift.
Qed.

End Removal.

Lemma scan_card_remove_entry (all_cards : list Card)
    (search_index : SearchIndex) (ocr_results : list string)
    (query_embedding : option vec) (k : nat) (m : Meta) :
  nth_error (metadata search_index) k = Some m ->
  get_full_card_details (card_id m) all_cards = None ->
  scan_card all_cards (remove_entry k search_index) ocr_results
            query_embedding
  = scan_card all_cards search_index ocr_results query_embedding.
Proof.
  intros N L. apply nth_error_split in N.
  destruct N as (pre & post & E & Hk).
  unfold scan_card, scan_body. cbn [metadata remove_entry]. cbv zeta.
  rewrite E. subst k. rewrite remove_nth_app.
  pose proof (sweep_remove (findall (raw_ocr_text ocr_results))
                (detected_texts ocr_results) all_cards
                (embeddings search_index) pre m post L) as R.
  destruct (sweep _ _ all_cards 0 (pre ++ m :: post)) as [l1|e1];
    destruct (sweep _ _ all_cards 0 (pre ++ post)) as [l2|e2];
    cbn [result_rel] in R; try contradiction; cbn [bind].
  - destruct R as [|c1 c2 l1 l2 A R]; [reflexivity|].
    assert (F : Forall2 (alike (embeddings search_index)
                           (remove_nth (List.length pre)
                                       (embeddings search_index)))
                        (c1 :: l1) (c2 :: l2)) by now constructor.
    now rewrite (alike_determine_best_match all_cards search_index
                   (remove_entry (List.length pre) search_index)
                   query_embedding _ _ F).
  - now subst.
Qed.

Lemma unresolved_entry_not_candidate (all_cards : list Card)
    (search_index : SearchIndex) (ocr_results : list string)
    (k : nat) (m : Meta) (card_scores : list Candidate) :
  nth_error (metadata search_index) k = Some m ->
  get_full_card_details (card_id m) all_cards = None ->
  card_scores_of all_cards search_index ocr_results = Ok card_scores ->
  forall c, In c card_scores -> index c <> k.
Proof.
  intros N L H c Hc Ek. unfold card_scores_of in H.
  apply (sweep_In _ _ _ _ _ _ H) in Hc.
  destruct Hc as (card & _ & N' & L' & _).
  rewrite Nat.sub_0_r, Ek, N in N'. inversion N'; subst. congruence.
Qed.

(** ** Scans without a candidate *)

Lemma sweep_all_zero (matches : list (string * string))
    (texts : list string) (all_cards : list Card) (i : nat)
    (metas : list Meta) :
  (forall m card, In m metas ->
     get_full_card_details (card_id m) all_cards = Some card ->
     score_card matches texts card = Ok 0) ->
  sweep matches texts all_cards i metas = Ok [].
Proof.
  revert i. induction metas as [|m metas IH]; intros i H; cbn [sweep];
    [reflexivity|].
  assert (T : sweep matches texts all_cards (S i) metas = Ok []).
  { apply IH. intros m' card Hm. apply H. now right. }
  destruct (get_full_card_details (card_id m) all_cards) as [card|] eqn:L;
    [|exact T].
  rewrite (H m card (or_introl eq_refl) L), T. reflexivity.
Qed.

End DriftFacts.


(** ** Similarity and the tie-break *)

Module SimilarityFacts.

Import Embedding Notions.
Local Open Scope R_scope.

Lemma dot_comm (u v : vec) : dot u v = dot v u.
Proof.
  revert v. induction u as [|x u IH]; intros [|y v]; cbn [dot]; trivial.
  rewrite IH. ring.
Qed.

(** Over the reals, for vectors of norm one, one minus the cosine
    distance is the dot product.  The vectors of the code are rounded
    and have a norm close to one only. *)
Lemma unit_similarity (q e : vec) :
  norm q = 1 -> norm e = 1 -> 1 - cosine_distance q e = dot e q.
Proof.
  intros Hq He. unfold cosine_distance. rewrite Hq, He, (dot_comm q e).
  field.
Qed.

Lemma argmax_from_first_max (l pre : list R) (best_i : nat) (best : R) :
  nth_error pre best_i = Some best ->
  (forall j x, nth_error pre j = Some x ->
               x <= best /\ ((j < best_i)%nat -> x < best)) ->
  first_max (pre ++ l) (argmax_from best_i best (List.length pre) l).
Proof.
  revert pre best_i best.
  induction l as [|x l IH]; intros pre bi b Hb Hpre; cbn [argmax_from].
  - rewrite app_nil_r. now exists b.
  - assert (Bi : (bi < List.length pre)%nat).
    { apply nth_error_Some. congruence. }
    replace (pre ++ x :: l)%list with ((pre ++ [x]) ++ l)%list
      by (rewrite <- app_assoc; reflexivity).
    replace (S (List.length pre)) with (List.length (pre ++ [x]))
      by (rewrite length_app; cbn; lia).
    destruct (Rlt_dec b x) as [Lt|Ge].
    + apply IH.
      * rewrite nth_error_app2 by lia. now rewrite Nat.sub_diag.
      * intros j y Hy.
        destruct (Nat.lt_ge_cases j (List.length pre)) as [Hj|Hj].
        -- rewrite nth_error_app1 in Hy by exact Hj.
           destruct (Hpre j y Hy) as [Le _]. split; intros; lra.
        -- rewrite nth_error_app2 in Hy by exact Hj.
           destruct (j - List.length pre)%nat as [|d] eqn:D.
           ++ cbn in Hy. inversion Hy; subst. split; [lra|intros; lia].
           ++ cbn in Hy. now destruct d.
    + apply IH.
      * now rewrite nth_error_app1 by exact Bi.
      * intros j y Hy.
        destruct (Nat.lt_ge_cases j (List.length pre)) as [Hj|Hj].
        -- rewrite nth_error_app1 in Hy by exact Hj. now apply Hpre.
        -- rewrite nth_error_app2 in Hy by exact Hj.
           destruct (j - List.length pre)%nat as [|d] eqn:D.
           ++ cbn in Hy. inversion Hy; subst. split; [lra|intros; lia].
           ++ cbn in Hy. now destruct d.
Qed.

Lemma argmax_first_max (l : list R) :
  l <> [] -> exists k, argmax l = Ok k /\ first_max l k.
Proof.
  destruct l as [|x l]; [congruence|]. intros _.
  exists (argmax_from 0 x 1 l). split; [reflexivity|].
  apply (argmax_from_first_max l [x] 0%nat x); [reflexivity|].
  intros [|[|j]] y Hy; cbn in Hy; inversion Hy; subst.
  split; [lra|intros; lia].
Qed.

Lemma first_max_unique (l : list R) (k1 k2 : nat) :
  first_max l k1 -> first_max l k2 -> k1 = k2.
Proof.
  intros (m1 & N1 & H1) (m2 & N2 & H2).
  destruct (H1 _ _ N2) as [L1 S1]. destruct (H2 _ _ N1) as [L2 S2].
  destruct (Nat.lt_trichotomy k1 k2) as [Lt|[E|Gt]]; trivial.
  - specialize (S2 Lt). lra.
  - specialize (S1 Gt). lra.
Qed.

Lemma first_max_argmax (l : list R) (k : nat) :
  first_max l k -> argmax l = Ok k.
Proof.
  intros F. destruct (argmax_first_max l) as (k' & A & F').
  { destruct F as (m & N & _). intros ->. now destruct k. }
  now rewrite (first_max_unique _ _ _ F F').
Qed.

End SimilarityFacts.


(** ** Resolution *)

Module ResolveFacts.

Import Text Embedding Scanner Notions.
Import TextFacts ScoringFacts SweepFacts RankFacts.
Import SimilarityFacts.
Local Open Scope Z_scope.

Lemma respond_answer (card : Card) (top_score : Z) (match_method : string) :
  match respond (Some card) top_score match_method with
  | Ok r => r
  | Raise e => InternalError e
  end = answer card top_score match_method.
Proof.
  unfold respond, answer, subscript_name. now destruct (name card).
Qed.


Lemma tiebreak_similarities_ok (q : vec) (rows : list vec) :
  same_dim q rows = true ->
  tiebreak_similarities q rows = Ok (similarities_to q rows).
Proof.
  intros D. unfold tiebreak_similarities, cdist_cosine. rewrite D.
  cbn [bind]. unfold similarities_to. now rewrite List.map_map.
Qed.

Section Resolve.

Variable all_cards : list Card.
Variable search_index : SearchIndex.
Variable ocr_results : list string.

Lemma best_candidate_resolves (card_scores : list Candidate) (c : Candidate) :
  card_scores_of all_cards search_index ocr_results = Ok card_scores ->
  In c (best_of card_scores) ->
  exists card,
    get_full_card_details (card_id (meta c)) all_cards = Some card
    /\ score_card (findall (raw_ocr_text ocr_results))
                  (detected_texts ocr_results) card = Ok (score c)
    /\ 0 < score c.
Proof.
  intros H Hc. apply best_of_In in Hc.
  apply (sweep_In _ _ _ _ _ _ H) in Hc.
  destruct Hc as (card & _ & _ & R). now exists card.
Qed.

Lemma best_of_top_score (card_scores : list Candidate) (c0 c : Candidate)
    (rest : list Candidate) :
  sort_by_score_desc card_scores = c0 :: rest ->
  In c (best_of card_scores) -> score c = score c0.
Proof.
  intros S Hc. unfold best_of, best_candidates_of in Hc. rewrite S in Hc.
  apply List.filter_In in Hc. now apply Z.eqb_eq.
Qed.

Lemma scan_card_ranked (query_embedding : option vec)
    (card_scores : list Candidate) :
  card_scores_of all_cards search_index ocr_results = Ok card_scores ->
  best_of card_scores <> [] ->
  exists c0 rest,
    sort_by_score_desc card_scores = c0 :: rest
    /\ scan_card all_cards search_index ocr_results query_embedding
       = match determine_best_match all_cards search_index query_embedding
                 card_scores with
         | Ok r => r
         | Raise e => InternalError e
         end.
Proof.
  intros H B. unfold card_scores_of in H.
  unfold scan_card, scan_body. cbv zeta. rewrite H. cbn [bind].
  destruct card_scores as [|c cs]; [now contradiction B|].
  destruct (sort_by_score_desc (c :: cs)) as [|c0 rest] eqn:S.
  - now apply sort_by_score_desc_nil in S.
  - now exists c0, rest.
Qed.

(** A single best candidate wins by its score. *)
Lemma scan_unique_best (query_embedding : option vec)
    (card_scores : list Candidate) (c : Candidate) :
  card_scores_of all_cards search_index ocr_results = Ok card_scores ->
  best_of card_scores = [c] ->
  exists card,
    get_full_card_details (card_id (meta c)) all_cards = Some card
    /\ score_card (findall (raw_ocr_text ocr_results))
                  (detected_texts ocr_results) card = Ok (score c)
    /\ scan_card all_cards search_index ocr_results query_embedding
       = answer card (score c) "Scoring".
Proof.
  intros H B.
  destruct (best_candidate_resolves _ c H) as (card & L & Sc & _).
  { rewrite B. now left. }
  exists card. split; [exact L|]. split; [exact Sc|].
  destruct (scan_card_ranked query_embedding _ H) as (c0 & rest & S & ->).
  { rewrite B. discriminate. }
  rewrite (determine_best_match_unfold _ _ _ _ _ _ S), B, L.
  rewrite <- (best_of_top_score _ c0 c rest S) by (rewrite B; now left).
  apply respond_answer.
Qed.


End Resolve.

End ResolveFacts.

(** ** Fragments *)

Module FragmentFacts.

Import Text Embedding Scanner Notions TextFacts ScoringFacts.

Lemma mem_iff (s : string) (l : list string) : mem s l = true <-> In s l.
Proof.
  induction l as [|x l IH]; cbn [mem In].
  - split; [discriminate|intros []].
  - rewrite orb_true_iff, IH, String.eqb_eq. split; intros [H|H]; auto.
Qed.

Lemma set_list_acc_In (seen l : list string) (x : string) :
  In x (set_list_acc seen l) <-> In x l /\ ~ In x seen.
Proof.
  revert seen. induction l as [|y l IH]; intros seen; cbn [set_list_acc In].
  - tauto.
  - destruct (mem y seen) eqn:M.
    + apply mem_iff in M. rewrite IH. split.
      * intros [H N]. auto.
      * intros [[E|H] N]; [subst; contradiction|auto].
    + assert (N : ~ In y seen).
      { intros H. apply mem_iff in H. congruence. }
      cbn [In]. rewrite IH. cbn [In]. split.
      * intros [E|[H N']]; [subst; auto|]. split; [auto|]. tauto.
      * intros [[E|H] N']; [auto|].
        destruct (String.eqb_spec y x) as [E|Hne]; [auto|].
        right. split; [exact H|]. intros [E|H']; auto.
Qed.

Lemma set_list_acc_NoDup (seen l : list string) :
  NoDup (set_list_acc seen l).
Proof.
  revert seen. induction l as [|y l IH]; intros seen; cbn [set_list_acc].
  - constructor.
  - destruct (mem y seen); [apply IH|].
    constructor; [|apply IH].
    rewrite set_list_acc_In. cbn [In]. tauto.
Qed.

Lemma insert_by_len_perm (x : string) (l : list string) :
  Permutation (insert_by_len x l) (x :: l).
Proof.
  induction l as [|y l IH]; cbn [insert_by_len]; [reflexivity|].
  destruct (length x <? length y)%nat; [|reflexivity].
  rewrite IH. apply perm_swap.
Qed.

Lemma sorted_by_len_desc_perm (l : list string) :
  Permutation (sorted_by_len_desc l) l.
Proof.
  induction l as [|x l IH]; cbn; [reflexivity|].
  fold (sorted_by_len_desc l). rewrite insert_by_len_perm. now constructor.
Qed.

Lemma insert_by_len_sorted (x : string) (l : list string) :
  longest_first l -> longest_first (insert_by_len x l).
Proof.
  unfold longest_first. intros S.
  induction S as [|y l S IH F]; cbn [insert_by_len].
  - constructor; constructor.
  - destruct (length x <? length y)%nat eqn:C.
    + constructor; [exact IH|].
      apply Nat.ltb_lt in C.
      apply (Permutation_Forall (Permutation_sym (insert_by_len_perm x l))).
      constructor; [lia|exact F].
    + apply Nat.ltb_ge in C. constructor.
      * now constructor.
      * constructor; [exact C|].
        eapply Forall_impl; [|exact F]. cbn. intros a Ha. lia.
Qed.

Lemma sorted_by_len_desc_sorted (l : list string) :
  longest_first (sorted_by_len_desc l).
Proof.
  induction l as [|x l IH]; cbn.
  - constructor.
  - fold (sorted_by_len_desc l). now apply insert_by_len_sorted.
Qed.

(** The fragments are the cleaned OCR results, each once, the longest
    first. *)
Lemma detected_texts_spec (ocr_results : list string) :
  (forall t, In t (detected_texts ocr_results) <->
             exists r, In r ocr_results /\ t = clean_text r)
  /\ NoDup (detected_texts ocr_results)
  /\ longest_first (detected_texts ocr_results).
Proof.
  unfold detected_texts. split; [|split].
  - intros t.
    assert (X : In t (sorted_by_len_desc
                        (set_list (List.map clean_text ocr_results)))
                <-> In t (set_list (List.map clean_text ocr_results))).
    { split; apply Permutation_in;
        [|symmetry]; apply sorted_by_len_desc_perm. }
    rewrite X. unfold set_list. rewrite set_list_acc_In, in_map_iff.
    cbn [In]. split.
    + intros [(r & E & I) _]. now exists r.
    + intros (r & I & E). split; [now exists r|tauto].
  - eapply Permutation_NoDup.
    + symmetry. apply sorted_by_len_desc_perm.
    + apply set_list_acc_NoDup.
  - apply sorted_by_len_desc_sorted.
Qed.

(** *** The order of the fragments does not matter *)

Lemma existsb_perm {A : Type} (f : A -> bool) (l l' : list A) :
  Permutation l l' -> existsb f l = existsb f l'.
Proof.
  induction 1 as [|x l l' P IH|x y l|l l' l'' P IH P' IH']; cbn [existsb].
  - reflexivity.
  - now rewrite IH.
  - now rewrite !orb_assoc, (orb_comm (f y)).
  - congruence.
Qed.

Lemma points_perm (matches : list (string * string))
    (texts texts' : list string) (card : Card) :
  Permutation texts texts' ->
  points matches texts card = points matches texts' card.
Proof.
  intros P. unfold points.
  rewrite (existsb_perm _ _ _ P). do 4 f_equal.
  apply List.filter_ext. intros a. unfold attack_hits.
  now rewrite (existsb_perm _ _ _ P).
Qed.

Lemma score_card_perm (matches : list (string * string))
    (texts texts' : list string) (card : Card) :
  Permutation texts texts' ->
  score_card matches texts card = score_card matches texts' card.
Proof.
  intros P. now rewrite !score_card_spec, (points_perm _ _ _ _ P).
Qed.

(** Whatever order the set of fragments is listed in, the sweep gives
    the same candidates. *)
Lemma sweep_perm (matches : list (string * string))
    (texts texts' : list string) (all_cards : list Card) (i : nat)
    (metas : list Meta) :
  Permutation texts texts' ->
  sweep matches texts all_cards i metas
  = sweep matches texts' all_cards i metas.
Proof.
  intros P. revert i. induction metas as [|m metas IH]; intros i;
    cbn [sweep]; [reflexivity|].
  destruct (get_full_card_details (card_id m) all_cards) as [card|];
    [|apply IH].
  now rewrite (score_card_perm _ _ _ _ P), IH.
Qed.

Lemma sweep_any_fragment_order (all_cards : list Card)
    (search_index : SearchIndex) (ocr_results texts : list string) :
  NoDup texts ->
  (forall t, In t texts <-> exists r, In r ocr_results /\ t = clean_text r) ->
  sweep (findall (raw_ocr_text ocr_results)) texts all_cards 0
        (metadata search_index)
  = card_scores_of all_cards search_index ocr_results.
Proof.
  intros N H. unfold card_scores_of. apply sweep_perm.
  destruct (detected_texts_spec ocr_results) as (H' & N' & _).
  apply NoDup_Permutation; trivial.
  intros t. now rewrite H, H'.
Qed.

End FragmentFacts.

(** ** More on the scan *)

Module ScanFacts.

Import Text Embedding Scanner Notions.
Import TextFacts FractionFacts ScoringFacts SweepFacts RankFacts DriftFacts.
Import SimilarityFacts ResolveFacts FragmentFacts.
Local Open Scope Z_scope.

(** *** Cleaned text *)

Lemma lower_kept (c : ascii) :
  is_alnum c = true -> is_lower (lower c) || is_digit (lower c) = true.
Proof.
  intros A. pose proof (lower_alnum c A) as L. unfold is_alnum in L.
  rewrite lower_not_upper, orb_false_r in L. exact L.
Qed.

Lemma clean_text_alphabet (s : string) :
  Text.forallb (fun c => is_lower c || is_digit c) (clean_text s) = true.
Proof.
  unfold clean_text. induction s as [|c s IH]; [reflexivity|].
  cbn [Text.filter]. destruct (is_alnum c) eqn:A; [|exact IH].
  cbn [Text.map Text.forallb]. now rewrite (lower_kept c A), IH.
Qed.

Lemma clean_text_length (s : string) :
  (length (clean_text s) <= length s)%nat.
Proof.
  unfold clean_text. induction s as [|c s IH]; [reflexivity|].
  cbn [Text.filter]. destruct (is_alnum c); cbn [Text.map length]; lia.
Qed.

(** *** Texts without a digit *)

Lemma no_digit_no_match (s : string) :
  Text.forallb (fun c => negb (is_digit c)) s = true ->
  forall before s', s = (before ++ s')%string -> no_match_at_start s'.
Proof.
  intros D before s' E m rest num den Es' M.
  destruct M as [n ws1 ws2 d Hn Dn _ _ _ _].
  destruct n as [|c n]; [congruence|].
  cbn in Dn. apply andb_true_iff in Dn. destruct Dn as [Dc _].
  subst s' s. rewrite FractionFacts.forallb_app in D.
  apply andb_true_iff in D. destruct D as [_ D].
  cbn in D. rewrite Dc in D. discriminate.
Qed.

Lemma findall_no_digit (s : string) :
  Text.forallb (fun c => negb (is_digit c)) s = true -> findall s = [].
Proof.
  intros D. apply findall_no_match. now apply no_digit_no_match.
Qed.

Lemma join_no_digit (parts : list string) :
  (forall r, In r parts ->
             Text.forallb (fun c => negb (is_digit c)) r = true) ->
  Text.forallb (fun c => negb (is_digit c)) (join " " parts) = true.
Proof.
  induction parts as [|p parts IH]; intros H; [reflexivity|].
  cbn [join]. destruct parts as [|p' parts'].
  - apply H. now left.
  - rewrite !FractionFacts.forallb_app, (H p (or_introl eq_refl)).
    cbn [andb]. rewrite IH; [reflexivity|].
    intros r Hr. apply H. now right.
Qed.

Lemma not_alnum_not_digit (s : string) :
  Text.forallb (fun c => negb (is_alnum c)) s = true ->
  Text.forallb (fun c => negb (is_digit c)) s = true.
Proof.
  induction s as [|c s IH]; [reflexivity|]. cbn [Text.forallb].
  intros H. apply andb_true_iff in H. destruct H as [Hc Hs].
  rewrite (IH Hs), andb_true_r. unfold is_alnum in Hc.
  now destruct (is_digit c); [rewrite orb_true_r in Hc|].
Qed.

Lemma str_in_nothing (needle : string) :
  needle <> "" -> str_in needle "" = false.
Proof. now destruct needle. Qed.

(** *** What the sweep raises *)

Lemma score_card_raise_iff (matches : list (string * string))
    (texts : list string) (card : Card) (e : exn) :
  score_card matches texts card = Raise e <->
  e = KeyError "name" /\ name card = None
  /\ existsb (fraction_hits card) matches = true.
Proof.
  rewrite score_card_spec. unfold subscript_name.
  destruct (existsb (fraction_hits card) matches), (name card);
    cbn [bind]; split; try discriminate.
  - now intros (_ & N & _).
  - intros H. inversion H. auto.
  - intros (-> & _). reflexivity.
  - now intros (_ & _ & F).
  - now intros (_ & _ & F).
Qed.

Lemma sweep_raise_iff (matches : list (string * string))
    (texts : list string) (all_cards : list Card) (i : nat)
    (metas : list Meta) (e : exn) :
  sweep matches texts all_cards i metas = Raise e <->
  e = KeyError "name"
  /\ exists m card,
       In m metas
       /\ get_full_card_details (card_id m) all_cards = Some card
       /\ name card = None
       /\ existsb (fraction_hits card) matches = true.
Proof.
  revert i e. induction metas as [|m metas IH]; intros i e; cbn [sweep].
  - split; [discriminate|]. now intros (_ & m & card & [] & _).
  - destruct (get_full_card_details (card_id m) all_cards) as [card|] eqn:L.
    + destruct (score_card matches texts card) as [s|e'] eqn:Sc;
        cbn [bind].
      * assert (NoFault : ~ (name card = None
                             /\ existsb (fraction_hits card) matches = true)).
        { intros [N F].
          assert (X : score_card matches texts card
                      = Raise (KeyError "name"))
            by now apply score_card_raise_iff.
          congruence. }
        destruct (sweep matches texts all_cards (S i) metas) as [cs|e'']
          eqn:T; cbn [bind].
        -- split; [discriminate|].
           intros (-> & m' & card' & [<-|I] & L' & N & F).
           ++ rewrite L in L'. inversion L'; subst. now destruct NoFault.
           ++ assert (X : sweep matches texts all_cards (S i) metas
                          = Raise (KeyError "name")).
              { apply IH. split; [reflexivity|]. now exists m', card'. }
              congruence.
        -- apply IH in T. destruct T as (-> & m' & card' & I & R). split.
           ++ intros H. inversion H. split; [reflexivity|].
              exists m', card'. split; [now right|exact R].
           ++ now intros (-> & _).
      * apply score_card_raise_iff in Sc. destruct Sc as (-> & N & F).
        split.
        -- intros H. inversion H. split; [reflexivity|].
           exists m, card. split; [now left|]. auto.
        -- now intros (-> & _).
    + rewrite IH. split.
      * intros (-> & m' & card' & I & R). split; [reflexivity|].
        exists m', card'. split; [now right|exact R].
      * intros (-> & m' & card' & [<-|I] & L' & R); [congruence|].
        split; [reflexivity|]. now exists m', card'.
Qed.

(** *** Rows of the tie-break *)


Lemma tiebreaker_rows_out_of_range (emb : list vec) (cs : list Candidate) :
  (exists c, In c cs /\ (List.length emb <= index c)%nat) ->
  tiebreaker_rows emb cs = Raise IndexError.
Proof.
  induction cs as [|c cs IH]; intros (c' & I & H); [destruct I|].
  cbn [tiebreaker_rows].
  destruct (nth_error emb (index c)) as [e0|] eqn:N; [|reflexivity].
  destruct I as [<-|I].
  - apply nth_error_None in H. congruence.
  - rewrite IH; [reflexivity|]. now exists c'.
Qed.


Lemma candidate_meta_in_index (all_cards : list Card)
    (search_index : SearchIndex) (ocr_results : list string)
    (card_scores : list Candidate) (c : Candidate) :
  card_scores_of all_cards search_index ocr_results = Ok card_scores ->
  In c card_scores ->
  In (meta c) (metadata search_index)
  /\ (index c < List.length (metadata search_index))%nat.
Proof.
  intros H Hc. apply (sweep_In _ _ _ _ _ _ H) in Hc.
  destruct Hc as (card & _ & N & _). rewrite Nat.sub_0_r in N.
  split; [now apply nth_error_In in N|].
  apply nth_error_Some. congruence.
Qed.

Lemma tie_break_inv (all_cards : list Card) (search_index : SearchIndex)
    (best : list Candidate) (q : vec) (final : option Card) :
  tie_break all_cards search_index best q = Ok final ->
  exists k c, nth_error best k = Some c
              /\ final = get_full_card_details (card_id (meta c)) all_cards.
Proof.
  unfold tie_break. intros H.
  destruct (tiebreaker_rows (embeddings search_index) best) as [rows|];
    cbn [bind] in H; [|discriminate].
  destruct (tiebreak_similarities q rows) as [sims|]; cbn [bind] in H;
    [|discriminate].
  destruct (argmax sims) as [k|]; cbn [bind] in H; [|discriminate].
  destruct (nth_error best k) as [c|] eqn:N; [|discriminate].
  inversion H. now exists k, c.
Qed.

Lemma respond_inv (final : option Card) (top_score : Z) (method : string)
    (card : Card) (ok : bool) (s : Z) (m : string) :
  respond final top_score method = Ok (Found card ok s m) ->
  final = Some card /\ ok = true /\ s = top_score /\ m = method
  /\ name card <> None.
Proof.
  unfold respond, subscript_name. destruct final as [c|]; [|discriminate].
  destruct (name c) eqn:N; cbn [bind]; [|discriminate].
  intros H. inversion H; subst. repeat split; congruence.
Qed.

Lemma get_full_card_details_In (cid : string) (all_cards : list Card)
    (card : Card) :
  get_full_card_details cid all_cards = Some card ->
  In card all_cards /\ id card = cid.
Proof.
  unfold get_full_card_details. intros H. apply find_some in H.
  destruct H as [I E]. split; [exact I|]. now apply String.eqb_eq.
Qed.

Lemma strongly_sorted_filter {A : Type} (R : A -> A -> Prop)
    (p : A -> bool) (l : list A) :
  StronglySorted R l -> StronglySorted R (List.filter p l).
Proof.
  induction 1 as [|x l S IH F]; cbn [List.filter]; [constructor|].
  destruct (p x); [|exact IH]. constructor; [exact IH|].
  apply Forall_forall. intros y Hy. apply List.filter_In in Hy.
  rewrite Forall_forall in F. now apply F.
Qed.


End ScanFacts.

(* ================================================================= *)
(** ** Facts on the embedding run *)

Module RunFacts.

Import Text Embedding Scanner Indexer IndexNotions.
Import FragmentFacts.

Section Run.

Variable process_image : string -> option vec.
Variable card_lookup : dict CardData.

Local Abbreviation rows := (rows_of process_image).
Local Abbreviation entries := (entries_of process_image card_lookup).
Local Abbreviation after := (checkpoint_after process_image card_lookup).
Local Abbreviation ok := (embeddable process_image).
Local Abbreviation loop := (gen_loop process_image card_lookup).

Lemma rows_of_app (l1 l2 : list string) :
  rows (l1 ++ l2) = rows l1 ++ rows l2.
Proof.
  induction l1 as [|f l1 IH]; [reflexivity|].
  cbn. destruct (process_image f); [cbn; now rewrite IH|exact IH].
Qed.

Lemma entries_of_app (l1 l2 : list string) :
  entries (l1 ++ l2) = entries l1 ++ entries l2.
Proof.
  unfold entries_of. now rewrite List.filter_app, List.map_app.
Qed.

Lemma rows_entries_length (l : list string) :
  List.length (rows l) = List.length (entries l).
Proof.
  unfold entries_of. rewrite List.length_map.
  induction l as [|f l IH]; [reflexivity|].
  cbn. unfold embeddable at 1.
  destruct (process_image f); cbn; now rewrite IH.
Qed.

Lemma rows_length_le (l : list string) :
  (List.length (rows l) <= List.length l)%nat.
Proof.
  induction l as [|f l IH]; [reflexivity|].
  cbn. destruct (process_image f); cbn; lia.
Qed.

Lemma rows_of_In (l : list string) (row : vec) :
  In row (rows l) -> exists f, In f l /\ process_image f = Some row.
Proof.
  induction l as [|g l IH]; [intros []|].
  cbn [rows_of]. destruct (process_image g) as [e|] eqn:E.
  - intros [<-|H].
    + exists g. split; [now left|exact E].
    + destruct (IH H) as (f & Hf & Pf).
      exists f. split; [now right|exact Pf].
  - intros H. destruct (IH H) as (f & Hf & Pf).
    exists f. split; [now right|exact Pf].
Qed.

Lemma rows_entries (l : list string) :
  Forall2 (fun e m => process_image (filename m) = Some e
                      /\ m = meta_entry card_lookup (filename m))
          (rows l) (entries l).
Proof.
  unfold entries_of.
  induction l as [|f l IH]; [constructor|].
  cbn. unfold embeddable at 1.
  destruct (process_image f) as [e|] eqn:E; [|exact IH].
  cbn. constructor; [|exact IH]. cbn. now split.
Qed.

Lemma entries_filenames (l : list string) :
  List.map filename (entries l) = List.filter ok l.
Proof.
  unfold entries_of. rewrite List.map_map. cbn. apply List.map_id.
Qed.

Lemma after_app_one (P : list string) (f : string) (st : GenState) :
  data st = after P ->
  process_image f <> None ->
  data (process_one process_image card_lookup f st) = after (P ++ [f]).
Proof.
  intros D N. unfold process_one, checkpoint_after.
  rewrite rows_of_app, entries_of_app, List.filter_app, rev_app_distr.
  unfold data in D. injection D as DE DM DP.
  assert (O : ok f = true).
  { unfold embeddable. now destruct (process_image f). }
  unfold entries_of at 2. cbn [rows_of List.filter List.map].
  rewrite O. destruct (process_image f) as [e|]; [|contradiction].
  cbn. unfold data. cbn. now rewrite DE, DM, DP.
Qed.

Lemma after_app_none (P : list string) (f : string) (st : GenState) :
  data st = after P ->
  process_image f = None ->
  process_one process_image card_lookup f st = st
  /\ after (P ++ [f]) = after P.
Proof.
  intros D N. unfold process_one, checkpoint_after. rewrite N.
  split; [reflexivity|].
  rewrite rows_of_app, entries_of_app, List.filter_app.
  assert (O : ok f = false).
  { unfold embeddable. now rewrite N. }
  unfold entries_of at 2. cbn [rows_of List.filter List.map].
  rewrite O, N. cbn. now rewrite !app_nil_r.
Qed.

Lemma data_save_checkpoint (st : GenState) :
  data (save_checkpoint st) = data st.
Proof. reflexivity. Qed.

Lemma written_step (old : option Checkpoint) (P Q : list string)
    (f : string) (ck mid : option Checkpoint) :
  mid = old \/ mid = Some (after (P ++ [f])) ->
  written process_image card_lookup mid (P ++ [f]) Q ck ->
  written process_image card_lookup old P (f :: Q) ck.
Proof.
  intros M [-> | (Q1 & (Q2 & ->) & ->)].
  - destruct M as [-> | ->]; [now left|].
    right. exists [f]. split; [now exists Q|reflexivity].
  - right. exists (f :: Q1). split; [now exists Q2|].
    now rewrite <- app_assoc.
Qed.

(** The loop over new images: from the variables after [P], the loop
    over [Q] ends with the variables after [P ++ Q]. *)
Lemma loop_new_images (batch_size : Z) (Q : list string) :
  batch_size <> 0%Z ->
  forall (P : list string) (i : nat) (st : GenState),
    NoDup (P ++ Q) ->
    data st = after P ->
    exists st',
      loop batch_size i Q st = (st', true)
      /\ data st' = after (P ++ Q)
      /\ written process_image card_lookup (g_checkpoint st) P Q
                 (g_checkpoint st').
Proof.
  intros B. induction Q as [|f Q IH]; intros P i st N D.
  - exists st. rewrite app_nil_r. split; [reflexivity|]. split; [exact D|].
    now left.
  - cbn [gen_loop].
    assert (F : mem f (g_processed_files st) = false).
    { apply not_true_is_false. intros M. apply mem_iff in M.
      unfold data in D. injection D as _ _ DP. rewrite DP in M.
      apply in_rev, List.filter_In in M. destruct M as (M & _).
      apply NoDup_remove_2 in N. apply N. apply in_or_app. now left. }
    rewrite F. apply Z.eqb_neq in B. rewrite B.
    assert (N' : NoDup ((P ++ [f]) ++ Q)) by now rewrite <- app_assoc.
    assert (D' : data (process_one process_image card_lookup f st)
                 = after (P ++ [f])
                 /\ g_checkpoint (process_one process_image card_lookup f st)
                    = g_checkpoint st).
    { destruct (process_image f) as [e|] eqn:E.
      - split; [apply after_app_one; trivial; congruence|].
        unfold process_one. now rewrite E.
      - destruct (after_app_none P f st D E) as (-> & ->). now split. }
    destruct D' as (D' & K).
    set (st1 := process_one process_image card_lookup f st) in *.
    destruct ((Z.of_nat i + 1) mod batch_size =? 0)%Z.
    + destruct (IH (P ++ [f]) (S i) (save_checkpoint st1) N')
        as (st' & L & D'' & W).
      { now rewrite data_save_checkpoint. }
      exists st'. split; [exact L|]. rewrite <- app_assoc in D''.
      split; [exact D''|].
      eapply written_step; [|exact W]. right. cbn. f_equal.
      exact D'.
    + destruct (IH (P ++ [f]) (S i) st1 N' D') as (st' & L & D'' & W).
      exists st'. split; [exact L|]. rewrite <- app_assoc in D''.
      split; [exact D''|].
      eapply written_step; [|exact W]. left. exact K.
Qed.

(** The loop over images that were handled before changes no
    variable. *)
Lemma loop_old_images (batch_size : Z) (P : list string) (L : list string) :
  batch_size <> 0%Z ->
  incl L P ->
  forall (i : nat) (st : GenState),
    data st = after P ->
    exists st',
      loop batch_size i L st = (st', true)
      /\ data st' = after P
      /\ (g_checkpoint st' = g_checkpoint st
          \/ g_checkpoint st' = Some (after P)).
Proof.
  intros B. induction L as [|f L IH]; intros I i st D.
  - exists st. split; [reflexivity|]. split; [exact D|now left].
  - cbn [gen_loop].
    assert (IL : incl L P) by (intros x Hx; apply I; now right).
    destruct (mem f (g_processed_files st)) eqn:M.
    + apply IH; trivial.
    + apply Z.eqb_neq in B. rewrite B.
      assert (E : process_image f = None).
      { destruct (process_image f) as [e|] eqn:E; [|reflexivity].
        exfalso. apply not_true_iff_false in M. apply M. apply mem_iff.
        unfold data in D. injection D as _ _ DP. rewrite DP.
        apply -> in_rev. apply List.filter_In. split.
        - apply I. now left.
        - unfold embeddable. now rewrite E. }
      unfold process_one. rewrite E.
      destruct ((Z.of_nat i + 1) mod batch_size =? 0)%Z.
      * destruct (IH IL (S i) (save_checkpoint st)) as (st' & Lp & D' & W).
        { now rewrite data_save_checkpoint. }
        exists st'. split; [exact Lp|]. split; [exact D'|].
        right. destruct W as [W|W]; [|exact W].
        rewrite W. cbn. f_equal. exact D.
      * apply IH; trivial.
Qed.

Lemma gen_loop_app (batch_size : Z) (L1 L2 : list string) :
  forall (i : nat) (st : GenState),
    loop batch_size i (L1 ++ L2) st
    = match loop batch_size i L1 st with
      | (st1, true) => loop batch_size (i + List.length L1) L2 st1
      | (st1, false) => (st1, false)
      end.
Proof.
  induction L1 as [|f L1 IH]; intros i st.
  - cbn. now rewrite Nat.add_0_r.
  - cbn [gen_loop app List.length].
    replace (i + S (List.length L1))%nat with (S i + List.length L1)%nat
      by lia.
    destruct (mem f (g_processed_files st)); [apply IH|].
    destruct (batch_size =? 0)%Z; [reflexivity|].
    destruct ((Z.of_nat i + 1) mod batch_size =? 0)%Z; apply IH.
Qed.

(** The loop keeps as many rows as entries. *)
Lemma gen_loop_aligned (batch_size : Z) (L : list string) :
  forall (i : nat) (st st' : GenState) (b : bool),
    List.length (g_embeddings st) = List.length (g_metadata st) ->
    loop batch_size i L st = (st', b) ->
    List.length (g_embeddings st') = List.length (g_metadata st').
Proof.
  induction L as [|f L IH]; intros i st st' b A H.
  - cbn in H. now injection H as <- _.
  - cbn [gen_loop] in H.
    destruct (mem f (g_processed_files st)); [now apply IH in H|].
    assert (A' : List.length (g_embeddings
                   (process_one process_image card_lookup f st))
                 = List.length (g_metadata
                   (process_one process_image card_lookup f st))).
    { unfold process_one. destruct (process_image f); [|exact A].
      cbn. rewrite !List.length_app. cbn. lia. }
    destruct (batch_size =? 0)%Z; [now injection H as <- _|].
    destruct ((Z.of_nat i + 1) mod batch_size =? 0)%Z;
      now apply IH in H.
Qed.

Lemma data_initial_state (ck : option Checkpoint) (files : list string) :
  valid process_image card_lookup files ck ->
  exists P Q, files = P ++ Q
              /\ data (initial_state ck) = after P
              /\ g_checkpoint (initial_state ck) = ck.
Proof.
  destruct ck as [ck|]; cbn.
  - intros (P & (Q & ->) & ->). exists P, Q. now repeat split.
  - intros _. exists [], files. now repeat split.
Qed.

Lemma skipn_rows (P Q : list string) :
  skipn (List.length (rows P)) (P ++ Q)
  = skipn (List.length (rows P)) P ++ Q.
Proof.
  rewrite List.skipn_app.
  replace (List.length (rows P) - List.length P)%nat with 0%nat.
  - reflexivity.
  - pose proof (rows_length_le P). lia.
Qed.

Lemma incl_skipn {A : Type} (k : nat) (l : list A) : incl (skipn k l) l.
Proof.
  intros x Hx. rewrite <- (List.firstn_skipn k l). apply in_or_app.
  now right.
Qed.

(** A run from a valid checkpoint, or from none, ends its loop with the
    variables after all images. *)
Lemma gen_loop_from_valid (batch_size : Z) (files : list string)
    (ck : option Checkpoint) :
  batch_size <> 0%Z ->
  NoDup files ->
  valid process_image card_lookup files ck ->
  exists st',
    loop batch_size 0
         (skipn (List.length (g_embeddings (initial_state ck))) files)
         (initial_state ck)
    = (st', true)
    /\ data st' = after files
    /\ valid process_image card_lookup files (g_checkpoint st').
Proof.
  intros B N V.
  destruct (data_initial_state ck files V) as (P & Q & -> & D & K).
  assert (E : g_embeddings (initial_state ck) = rows P).
  { unfold data in D. now injection D as -> _ _. }
  rewrite E, skipn_rows, gen_loop_app.
  destruct (loop_old_images batch_size P
              (skipn (List.length (rows P)) P) B (incl_skipn _ _)
              0%nat (initial_state ck) D) as (st1 & -> & D1 & K1).
  destruct (loop_new_images batch_size Q B P
              (0 + List.length (skipn (List.length (rows P)) P))%nat
              st1 N D1) as (st' & -> & D' & W).
  exists st'. split; [reflexivity|]. split; [exact D'|].
  assert (V1 : valid process_image card_lookup (P ++ Q) (g_checkpoint st1)).
  { destruct K1 as [-> | ->].
    - now rewrite K.
    - cbn. exists P. split; [now exists Q|reflexivity]. }
  destruct W as [-> | (Q1 & (Q2 & ->) & ->)]; [exact V1|].
  cbn. exists (P ++ Q1). split; [|reflexivity].
  exists Q2. now rewrite <- app_assoc.
Qed.

Lemma prefix_app_cases {A : Type} (L1 l1 l2 : list A) :
  prefix_of L1 (l1 ++ l2) ->
  prefix_of L1 l1 \/ exists l3, L1 = l1 ++ l3 /\ prefix_of l3 l2.
Proof.
  revert L1. induction l1 as [|x l1 IH]; intros L1 (R & H).
  - right. exists L1. split; [reflexivity|now exists R].
  - destruct L1 as [|y L1].
    + left. now exists (x :: l1).
    + cbn in H. injection H as <- H.
      destruct (IH L1) as [(R' & ->)|(l3 & -> & P3)].
      * now exists R.
      * left. now exists R'.
      * right. exists l3. now split.
Qed.

Lemma gen_loop_zero (L : list string) :
  forall (i : nat) (st st' : GenState) (b : bool),
    loop 0%Z i L st = (st', b) ->
    g_checkpoint st' = g_checkpoint st.
Proof.
  induction L as [|f L IH]; intros i st st' b H.
  - cbn in H. now injection H as <- _.
  - cbn [gen_loop] in H.
    destruct (mem f (g_processed_files st)); [now apply IH in H|].
    cbn in H. injection H as <- _. unfold process_one.
    now destruct (process_image f).
Qed.

(** Whatever beginning of its images a run has handled, from a valid
    checkpoint or from none, the checkpoint file is valid. *)
Lemma gen_loop_keeps_valid (batch_size : Z) (files L1 : list string)
    (ck : option Checkpoint) (st : GenState) (b : bool) :
  NoDup files ->
  valid process_image card_lookup files ck ->
  prefix_of L1 (skipn (List.length (g_embeddings (initial_state ck))) files) ->
  loop batch_size 0 L1 (initial_state ck) = (st, b) ->
  valid process_image card_lookup files (g_checkpoint st).
Proof.
  intros N V Pre H.
  destruct (data_initial_state ck files V) as (P & Q & -> & D & K).
  destruct (Z.eq_dec batch_size 0) as [-> | B].
  { apply gen_loop_zero in H. now rewrite H, K. }
  assert (E : g_embeddings (initial_state ck) = rows P).
  { unfold data in D. now injection D as -> _ _. }
  rewrite E, skipn_rows in Pre.
  assert (V0 : forall st1,
             g_checkpoint st1 = g_checkpoint (initial_state ck)
             \/ g_checkpoint st1 = Some (after P) ->
             valid process_image card_lookup (P ++ Q) (g_checkpoint st1)).
  { intros st1 [-> | ->].
    - now rewrite K.
    - cbn. exists P. split; [now exists Q|reflexivity]. }
  destruct (prefix_app_cases _ _ _ Pre) as [(R & HR)|(Q1 & -> & (Q2 & ->))].
  - destruct (loop_old_images batch_size P L1 B) with (i := 0%nat)
      (st := initial_state ck) as (st1 & H1 & _ & K1); trivial.
    { intros x Hx. apply (incl_skipn (List.length (rows P))).
      rewrite HR. apply in_or_app. now left. }
    rewrite H in H1. injection H1 as <- _. now apply V0.
  - rewrite gen_loop_app in H.
    destruct (loop_old_images batch_size P
                (skipn (List.length (rows P)) P) B (incl_skipn _ _)
                0%nat (initial_state ck) D) as (st1 & H1 & D1 & K1).
    rewrite H1 in H.
    assert (N1 : NoDup (P ++ Q1)).
    { rewrite app_assoc in N. now apply NoDup_app_remove_r in N. }
    destruct (loop_new_images batch_size Q1 B P
                (0 + List.length (skipn (List.length (rows P)) P))%nat
                st1 N1 D1) as (st' & H' & _ & W).
    rewrite H in H'. injection H' as <- _.
    destruct W as [-> | (Q3 & (Q4 & ->) & ->)]; [now apply V0|].
    cbn. exists (P ++ Q3). split; [|reflexivity].
    exists (Q4 ++ Q2). now rewrite <- !app_assoc.
Qed.

(** How a run from a valid checkpoint, or from none, ends. *)
Lemma generate_from_valid (batch_size : Z) (files : list string)
    (ck : option Checkpoint) :
  batch_size <> 0%Z ->
  NoDup files ->
  files <> [] ->
  valid process_image card_lookup files ck ->
  without_checkpoint
    (generate_embeddings process_image card_lookup files ck batch_size)
  = match rows files with
    | [] => NoEmbeddings None
    | row :: more =>
        if same_dim row more then Saved (rows files) (entries files)
        else ShapeError None
    end.
Proof.
  intros B N NE V.
  destruct (gen_loop_from_valid batch_size files ck B N V)
    as (st' & L & D & _).
  destruct files as [|f files]; [contradiction|].
  unfold generate_embeddings. cbv zeta.
  remember (f :: files) as F eqn:HF.
  rewrite L. unfold data, checkpoint_after in D.
  injection D as DE DM _. rewrite DE, DM.
  destruct (rows F) as [|row more]; [reflexivity|].
  now destruct (same_dim row more).
Qed.

(** The outcome of a run whose loop ends with the variables after the
    images [F]. *)
Lemma outcome_of_data (batch_size : Z) (files F : list string)
    (ck : option Checkpoint) (st' : GenState) :
  files <> [] ->
  loop batch_size 0
       (skipn (List.length (g_embeddings (initial_state ck))) files)
       (initial_state ck)
  = (st', true) ->
  data st' = after F ->
  without_checkpoint
    (generate_embeddings process_image card_lookup files ck batch_size)
  = match rows F with
    | [] => NoEmbeddings None
    | row :: more =>
        if same_dim row more then Saved (rows F) (entries F)
        else ShapeError None
    end.
Proof.
  intros NE L D.
  destruct files as [|f files]; [contradiction|].
  unfold generate_embeddings. cbv zeta.
  remember (f :: files) as G eqn:HG.
  rewrite L. unfold data, checkpoint_after in D.
  injection D as DE DM _. rewrite DE, DM.
  destruct (rows F) as [|row more]; [reflexivity|].
  now destruct (same_dim row more).
Qed.

(** Resuming over a list of images that has new images in front of the
    handled ones. *)
Lemma gen_loop_behind (batch_size : Z) (New P Q : list string) :
  batch_size <> 0%Z ->
  NoDup (P ++ Q) ->
  (List.length New <= List.length (rows P))%nat ->
  exists st',
    loop batch_size 0
         (skipn (List.length (rows P)) (New ++ P ++ Q))
         (initial_state (Some (after P)))
    = (st', true)
    /\ data st' = after (P ++ Q).
Proof.
  intros B N Le.
  pose proof (rows_length_le P) as LP.
  assert (E : skipn (List.length (rows P)) (New ++ P ++ Q)
              = skipn (List.length (rows P) - List.length New) P ++ Q).
  { rewrite List.skipn_app, List.skipn_all2 by exact Le.
    cbn [app]. rewrite List.skipn_app.
    replace (List.length (rows P) - List.length New - List.length P)%nat
      with 0%nat by lia.
    reflexivity. }
  rewrite E, gen_loop_app.
  destruct (loop_old_images batch_size P
              (skipn (List.length (rows P) - List.length New) P) B
              (incl_skipn _ _) 0%nat (initial_state (Some (after P)))
              eq_refl) as (st1 & -> & D1 & _).
  destruct (loop_new_images batch_size Q B P
              (0 + List.length
                     (skipn (List.length (rows P) - List.length New) P))%nat
              st1 N D1) as (st' & -> & D' & _).
  now exists st'.
Qed.

End Run.

End RunFacts.

(* ================================================================= *)
(** ** Facts on the card lookup *)

Module LookupFacts.

Import Text Embedding Scanner Indexer IndexNotions.

Lemma find_app {A : Type} (p : A -> bool) (l1 l2 : list A) :
  find p (l1 ++ l2)
  = match find p l1 with
    | Some x => Some x
    | None => find p l2
    end.
Proof.
  induction l1 as [|x l1 IH]; [reflexivity|].
  cbn. now destruct (p x).
Qed.

Lemma local_filename_raise (card : CardData) (e : exn) :
  local_filename card = Raise e <->
  exists key, missing_key card = Some key /\ e = KeyError key.
Proof.
  unfold local_filename, missing_key, subscript.
  destruct (cd_set card) as [s|]; cbn.
  2:{ split; [intros [= <-]; now exists "set"|].
      now intros (key & [= <-] & ->). }
  destruct (set_id s); cbn.
  2:{ split; [intros [= <-]; now exists "id"|].
      now intros (key & [= <-] & ->). }
  destruct (cd_number card); cbn.
  2:{ split; [intros [= <-]; now exists "number"|].
      now intros (key & [= <-] & ->). }
  destruct (cd_name card); cbn.
  2:{ split; [intros [= <-]; now exists "name"|].
      now intros (key & [= <-] & ->). }
  split; [discriminate|]. now intros (key & [=] & _).
Qed.

Lemma local_filename_ok (card : CardData) :
  missing_key card = None <-> exists k, local_filename card = Ok k.
Proof.
  split.
  - intros M. destruct (local_filename card) as [k|e] eqn:E; [now exists k|].
    apply local_filename_raise in E. destruct E as (key & E & _).
    congruence.
  - intros (k & E). destruct (missing_key card) as [key|] eqn:M;
      [|reflexivity].
    assert (R : local_filename card = Raise (KeyError key)).
    { apply local_filename_raise. now exists key. }
    congruence.
Qed.

Lemma load_loop_lookup (cards : list CardData) :
  forall (d d' : dict CardData) (key : string),
    load_loop cards d = Ok d' ->
    dict_get key d'
    = match find (expects key) (rev cards) with
      | Some card => Some card
      | None => dict_get key d
      end.
Proof.
  induction cards as [|c rest IH]; intros d d' key H.
  - cbn in H. now injection H as <-.
  - cbn [rev]. rewrite find_app. cbn [find].
    cbn [load_loop] in H. unfold expects at 2, has_large.
    destruct (cd_images c) as [im|]; [destruct (large im)|].
    + destruct (local_filename c) as [k|e]; [|discriminate].
      cbn [bind] in H. rewrite (IH _ _ key H).
      destruct (find (expects key) (rev rest)); [reflexivity|].
      cbn. now destruct (String.eqb k key).
    + cbn. rewrite (IH _ _ key H).
      now destruct (find (expects key) (rev rest)).
    + cbn. rewrite (IH _ _ key H).
      now destruct (find (expects key) (rev rest)).
Qed.

Lemma load_loop_raise (cards : list CardData) :
  forall (d : dict CardData) (e : exn),
    load_loop cards d = Raise e <->
    exists card key,
      find incomplete cards = Some card
      /\ missing_key card = Some key /\ e = KeyError key.
Proof.
  induction cards as [|c rest IH]; intros d e.
  - cbn. split; [discriminate|]. now intros (card & key & [=] & _).
  - cbn [load_loop find]. unfold incomplete at 1, has_large.
    destruct (cd_images c) as [im|]; [destruct (large im)|];
      cbn [andb]; try apply IH.
    destruct (local_filename c) as [k|e'] eqn:E.
    + assert (M : missing_key c = None).
      { apply local_filename_ok. now exists k. }
      rewrite M. cbn [bind]. apply IH.
    + cbn [bind]. apply local_filename_raise in E.
      destruct E as (key & M & ->). rewrite M. split.
      * intros [= <-]. now exists c, key.
      * intros (card & key' & [= <-] & M' & ->). congruence.
Qed.

Lemma dict_get_expected (all_cards : list CardData)
    (card_lookup : dict CardData) (key : string) (card : CardData) :
  load_card_data all_cards = Ok card_lookup ->
  dict_get key card_lookup = Some card ->
  In card all_cards /\ local_filename card = Ok key.
Proof.
  intros H G. unfold load_card_data in H.
  rewrite (load_loop_lookup _ _ _ key H) in G.
  destruct (find (expects key) (rev all_cards)) as [c|] eqn:F;
    [|discriminate].
  injection G as ->. apply find_some in F. destruct F as (Hin & X).
  split; [now apply in_rev|].
  unfold expects in X. apply andb_true_iff in X. destruct X as (_ & X).
  destruct (local_filename card) as [k|]; [|discriminate].
  apply String.eqb_eq in X. now subst.
Qed.

End LookupFacts.

(* ================================================================= *)
(** ** Facts on the file names *)

Module NameFacts.

Import Text Scanner Indexer Downloader NameNotions.
Import TextFacts FractionFacts.
Local Open Scope string_scope.

Lemma forallb_filter (p : ascii -> bool) (s : string) :
  forallb p (filter p s) = true.
Proof.
  induction s as [|c s IH]; [reflexivity|].
  cbn. destruct (p c) eqn:E; [cbn; now rewrite E|exact IH].
Qed.

Lemma filter_all (p : ascii -> bool) (s : string) :
  forallb p s = true -> filter p s = s.
Proof.
  induction s as [|c s IH]; [reflexivity|].
  cbn. intros H. apply andb_true_iff in H. destruct H as (-> & H).
  now rewrite IH.
Qed.

Lemma rstrip_forallb (p : ascii -> bool) (s : string) :
  forallb p s = true -> forallb p (rstrip s) = true.
Proof.
  induction s as [|c s IH]; [reflexivity|].
  cbn. intros H. apply andb_true_iff in H. destruct H as (Hc & H).
  specialize (IH H). destruct (rstrip s) as [|d r].
  - destruct (is_space c); [reflexivity|]. cbn. now rewrite Hc.
  - cbn [forallb]. now rewrite Hc.
Qed.

Lemma rstrip_cons (c : ascii) (s : string) :
  rstrip s <> "" -> rstrip (String c s) = String c (rstrip s).
Proof.
  intros H. cbn. destruct (rstrip s); [contradiction|reflexivity].
Qed.

Lemma rstrip_append (a b : string) :
  rstrip b <> "" -> rstrip (a ++ b) = a ++ rstrip b.
Proof.
  intros H. induction a as [|c a IH]; [reflexivity|].
  cbn [append]. rewrite rstrip_cons; rewrite IH; trivial.
  destruct a; cbn; [exact H|discriminate].
Qed.

Lemma substring_length (n : nat) (s : string) :
  (length (substring 0 n s) <= n)%nat.
Proof.
  revert s. induction n as [|n IH]; intros [|c s]; cbn; try lia.
  specialize (IH s). lia.
Qed.

Lemma substring_forallb (p : ascii -> bool) (n : nat) (s : string) :
  forallb p s = true -> forallb p (substring 0 n s) = true.
Proof.
  revert s. induction n as [|n IH]; intros [|c s]; cbn; trivial.
  intros H. apply andb_true_iff in H. destruct H as (-> & H).
  now apply IH.
Qed.

Lemma substring_all (n : nat) (s : string) :
  (length s <= n)%nat -> substring 0 n s = s.
Proof.
  revert s. induction n as [|n IH]; intros [|c s]; cbn; trivial.
  - lia.
  - intros H. rewrite IH; [reflexivity|lia].
Qed.

Lemma safe_char_kept (c : ascii) : safe_char c = true -> kept c = true.
Proof.
  unfold safe_char, kept. intros H.
  apply orb_true_iff in H. destruct H as [H|H].
  - apply orb_true_iff in H. destruct H as [H|H]; rewrite H.
    + reflexivity.
    + now rewrite !orb_true_r.
  - rewrite H. now rewrite !orb_true_r.
Qed.

Lemma safe_char_not_space (c : ascii) :
  safe_char c = true -> Ascii.eqb c " " = false.
Proof.
  intros H. destruct (Ascii.eqb c " ") eqn:E; [|reflexivity].
  apply Ascii.eqb_eq in E. subst c. discriminate.
Qed.

Lemma kept_cases (c : ascii) :
  kept c = true -> Ascii.eqb c " " = true \/ safe_char c = true.
Proof.
  unfold kept, safe_char. intros H.
  destruct (Ascii.eqb c " "); [now left|right].
  now rewrite orb_false_r in H.
Qed.

Lemma underscores_safe (s : string) :
  forallb kept s = true ->
  forallb safe_char (spaces_to_underscores s) = true.
Proof.
  unfold spaces_to_underscores.
  induction s as [|c s IH]; [reflexivity|].
  cbn. intros H. apply andb_true_iff in H. destruct H as (Hc & H).
  rewrite (IH H), andb_true_r.
  destruct (kept_cases c Hc) as [E|S].
  - now rewrite E.
  - now rewrite (safe_char_not_space c S).
Qed.

Lemma underscores_unsafe (s : string) :
  forallb kept s = false ->
  forallb safe_char (spaces_to_underscores s) = false.
Proof.
  unfold spaces_to_underscores.
  induction s as [|c s IH]; [discriminate|].
  cbn. intros H. apply andb_false_iff in H. destruct H as [Hc|H].
  - assert (E : Ascii.eqb c " " = false).
    { destruct (Ascii.eqb c " ") eqn:E; [|reflexivity].
      apply Ascii.eqb_eq in E. subst c. discriminate. }
    rewrite E.
    assert (S : safe_char c = false).
    { destruct (safe_char c) eqn:S; [|reflexivity].
      apply safe_char_kept in S. congruence. }
    now rewrite S.
  - rewrite (IH H). apply andb_false_r.
Qed.

Lemma underscores_id (s : string) :
  forallb safe_char s = true -> spaces_to_underscores s = s.
Proof.
  unfold spaces_to_underscores.
  induction s as [|c s IH]; [reflexivity|].
  cbn. intros H. apply andb_true_iff in H. destruct H as (Hc & H).
  now rewrite (safe_char_not_space c Hc), (IH H).
Qed.

Lemma underscores_append (a b : string) :
  spaces_to_underscores (a ++ b)
  = spaces_to_underscores a ++ spaces_to_underscores b.
Proof.
  unfold spaces_to_underscores.
  induction a as [|c a IH]; [reflexivity|]. cbn. now rewrite IH.
Qed.

Lemma underscores_length (s : string) :
  length (spaces_to_underscores s) = length s.
Proof.
  unfold spaces_to_underscores.
  induction s as [|c s IH]; [reflexivity|]. cbn. now rewrite IH.
Qed.

Lemma forallb_imp (p q : ascii -> bool) (s : string) :
  (forall c, p c = true -> q c = true) ->
  forallb p s = true -> forallb q s = true.
Proof.
  intros I. induction s as [|c s IH]; [reflexivity|].
  cbn. intros H. apply andb_true_iff in H. destruct H as (Hc & H).
  now rewrite (I c Hc), (IH H).
Qed.

Lemma append_same_length (a b s t : string) :
  length a = length b -> a ++ s = b ++ t -> a = b.
Proof.
  revert b. induction a as [|c a IH]; intros [|d b] L H;
    try discriminate; [reflexivity|].
  cbn in L, H. injection H as -> H. f_equal. apply IH; [lia|exact H].
Qed.

Lemma append_cancel_r (a b s : string) : a ++ s = b ++ s -> a = b.
Proof.
  intros H. apply (append_same_length a b s s); [|exact H].
  apply (f_equal length) in H. rewrite !length_append in H. lia.
Qed.

Lemma safe_name_safe (card : CardData) :
  forallb safe_char (safe_name card) = true.
Proof.
  unfold safe_name. apply substring_forallb, underscores_safe,
    rstrip_forallb, forallb_filter.
Qed.

Section Counters.

Variable files : Type.
Variable file_exists : files -> string -> bool.
Variable download_image : string -> string -> files -> bool * files.

Lemma large_image_counters (card : CardData) (stats stats' : Stats)
    (dir dir' : files) (r : option string) :
  large_image files file_exists download_image card stats dir
  = (r, stats', dir') ->
  total_cards stats' = total_cards stats
  /\ downloaded_cards stats' = downloaded_cards stats.
Proof.
  unfold large_image.
  destruct (large (get (cd_images card) no_images)) as [u|];
    [|now intros [= _ <- _]].
  destruct (truthy u); [|now intros [= _ <- _]].
  destruct (negb _); [|now intros [= _ <- _]].
  destruct (download_image u _ dir) as ([|], d); now intros [= _ <- _].
Qed.

Lemma small_image_counters (card : CardData) (stats stats' : Stats)
    (dir dir' : files) (r : option string) :
  small_image files file_exists download_image card stats dir
  = (r, stats', dir') ->
  total_cards stats' = total_cards stats
  /\ downloaded_cards stats' = downloaded_cards stats.
Proof.
  unfold small_image.
  destruct (small (get (cd_images card) no_images)) as [u|];
    [|now intros [= _ <- _]].
  destruct (truthy u); [|now intros [= _ <- _]].
  destruct (negb _); [|now intros [= _ <- _]].
  destruct (download_image u _ dir) as ([|], d); now intros [= _ <- _].
Qed.

End Counters.

End NameFacts.

(* ================================================================= *)
(** ** Facts on the similarity search *)

Module SearchFacts.

Import Embedding Scanner Indexer SearchNotions.
Local Open Scope R_scope.

Lemma strongly_sorted_app {A : Type} (R : A -> A -> Prop) (l1 l2 : list A) :
  StronglySorted R (l1 ++ l2) ->
  StronglySorted R l1
  /\ StronglySorted R l2
  /\ forall a b, In a l1 -> In b l2 -> R a b.
Proof.
  induction l1 as [|x l1 IH]; intros H.
  - split; [constructor|]. split; [exact H|]. intros a b [].
  - cbn in H. apply StronglySorted_inv in H. destruct H as (H & F).
    destruct (IH H) as (S1 & S2 & C).
    rewrite Forall_app in F. destruct F as (F1 & F2).
    split; [now constructor|]. split; [exact S2|].
    intros a b [<-|Ha] Hb.
    + rewrite Forall_forall in F2. now apply F2.
    + now apply C.
Qed.

Lemma strongly_sorted_snoc {A : Type} (R : A -> A -> Prop) (l : list A)
    (x : A) :
  StronglySorted R l -> Forall (fun a => R a x) l ->
  StronglySorted R (l ++ [x]).
Proof.
  induction l as [|y l IH]; intros S F.
  - cbn. constructor; constructor.
  - apply StronglySorted_inv in S. destruct S as (S & Fy).
    apply Forall_cons_iff in F. destruct F as (Ryx & F).
    cbn. constructor; [now apply IH|].
    apply Forall_app. split; [exact Fy|]. now constructor.
Qed.

Lemma strongly_sorted_rev {A : Type} (R : A -> A -> Prop) (l : list A) :
  StronglySorted R l -> StronglySorted (fun a b => R b a) (rev l).
Proof.
  induction 1 as [|x l S IH F]; [constructor|].
  cbn. apply strongly_sorted_snoc; [exact IH|].
  apply Forall_forall. intros a Ha. apply in_rev in Ha.
  rewrite Forall_forall in F. now apply F.
Qed.

(** The stable [argsort] *)

Lemma insert_by_value_perm (x : nat * R) (l : list (nat * R)) :
  Permutation (insert_by_value x l) (x :: l).
Proof.
  induction l as [|y l IH]; [reflexivity|].
  cbn. destruct (Rle_dec (snd x) (snd y)); [reflexivity|].
  rewrite IH. apply perm_swap.
Qed.

Lemma insert_by_value_sorted (x : nat * R) (l : list (nat * R)) :
  StronglySorted (fun a b => snd a <= snd b) l ->
  StronglySorted (fun a b => snd a <= snd b) (insert_by_value x l).
Proof.
  induction 1 as [|y l S IH F]; [cbn; constructor; constructor|].
  cbn. destruct (Rle_dec (snd x) (snd y)) as [L|L].
  - constructor; [now constructor|].
    constructor; [exact L|].
    apply Forall_forall. intros b Hb. rewrite Forall_forall in F.
    specialize (F b Hb). lra.
  - constructor; [exact IH|].
    apply Forall_forall. intros b Hb.
    apply (Permutation_in _ (insert_by_value_perm x l)) in Hb.
    destruct Hb as [<-|Hb]; [lra|].
    rewrite Forall_forall in F. now apply F.
Qed.

Lemma sort_by_value (l : list (nat * R)) :
  Permutation (fold_right insert_by_value [] l) l
  /\ StronglySorted (fun a b => snd a <= snd b)
                    (fold_right insert_by_value [] l).
Proof.
  induction l as [|x l (P & S)]; [split; constructor|].
  cbn. split.
  - rewrite insert_by_value_perm. now constructor.
  - now apply insert_by_value_sorted.
Qed.

Lemma enumerate_from_fst {A : Type} (i : nat) (l : list A) :
  List.map fst (enumerate_from i l) = seq i (List.length l).
Proof.
  revert i. induction l as [|x l IH]; intros i; [reflexivity|].
  cbn. now rewrite IH.
Qed.

Lemma enumerate_from_In (i : nat) (l : list R) (j : nat) (v : R) :
  In (j, v) (enumerate_from i l) ->
  (i <= j)%nat /\ nth (j - i) l 0 = v.
Proof.
  revert i. induction l as [|x l IH]; intros i; [intros []|].
  cbn [enumerate_from In]. intros [[= <- <-]|H].
  - split; [lia|]. now rewrite Nat.sub_diag.
  - apply IH in H. destruct H as (L & H). split; [lia|].
    replace (j - i)%nat with (S (j - S i))%nat by lia. exact H.
Qed.

Lemma strongly_sorted_fst (values : list R) (l : list (nat * R)) :
  (forall p, In p l -> nth (fst p) values 0 = snd p) ->
  StronglySorted (fun a b => snd a <= snd b) l ->
  StronglySorted (fun i j => nth i values 0 <= nth j values 0)
                 (List.map fst l).
Proof.
  intros V. induction 1 as [|x l S IH F]; [constructor|].
  cbn. constructor.
  - apply IH. intros p Hp. apply V. now right.
  - apply Forall_forall. intros j Hj. apply in_map_iff in Hj.
    destruct Hj as (p & <- & Hp). rewrite Forall_forall in F.
    specialize (F p Hp). rewrite (V x), (V p); trivial; [now right|now left].
Qed.

Lemma stable_argsort_is_argsort : is_argsort stable_argsort.
Proof.
  intros values. unfold stable_argsort.
  destruct (sort_by_value (enumerate_from 0 values)) as (P & S).
  split.
  - rewrite <- (enumerate_from_fst 0 values). now apply Permutation_map.
  - apply strongly_sorted_fst; [|exact S].
    intros (j, v) Hp. apply (Permutation_in _ P) in Hp.
    apply enumerate_from_In in Hp. destruct Hp as (_ & Hp).
    now rewrite Nat.sub_0_r in Hp.
Qed.

(** Slices *)

Lemma slice_to_firstn {A : Type} (k : Z) (l : list A) :
  exists m, slice_to k l = firstn m l
            /\ Nat.min m (List.length l) = slice_length k (List.length l).
Proof.
  unfold slice_to, slice_length. destruct (0 <=? k)%Z.
  - now exists (Z.to_nat k).
  - exists (List.length l - Z.to_nat (- k))%nat. split; [reflexivity|lia].
Qed.

Lemma slice_to_all {A : Type} (k : Z) (l : list A) :
  (Z.of_nat (List.length l) <= k)%Z -> slice_to k l = l.
Proof.
  intros H. unfold slice_to.
  destruct (0 <=? k)%Z eqn:E; [|apply Z.leb_gt in E; lia].
  apply List.firstn_all2. lia.
Qed.

(** The loop that collects the results *)

Lemma collect_results_ok (sims : list R) (M : list MetaEntry)
    (top : list nat) :
  Forall (fun idx => (idx < List.length sims)%nat
                     /\ (idx < List.length M)%nat) top ->
  exists results,
    collect_results sims M top = Ok results
    /\ Forall2 (fun idx r => nth_error sims idx = Some (fst r)
                             /\ nth_error M idx = Some (snd r))
               top results.
Proof.
  induction 1 as [|idx top (Hs & Hm) F (results & C & R)].
  - exists []. split; [reflexivity|constructor].
  - cbn [collect_results].
    destruct (nth_error sims idx) as [s|] eqn:Es.
    2:{ apply nth_error_None in Es. lia. }
    destruct (nth_error M idx) as [m|] eqn:Em.
    2:{ apply nth_error_None in Em. lia. }
    rewrite C. cbn [bind]. exists ((s, m) :: results).
    split; [reflexivity|]. constructor; [now split|exact R].
Qed.

Lemma collect_results_raise (sims : list R) (M : list MetaEntry)
    (top : list nat) (idx : nat) :
  In idx top -> (List.length M <= idx)%nat ->
  collect_results sims M top = Raise IndexError.
Proof.
  induction top as [|t top IH]; [intros []|].
  intros [->|H] L; cbn [collect_results].
  - apply nth_error_None in L. rewrite L.
    now destruct (nth_error sims idx).
  - destruct (nth_error sims t); [|reflexivity].
    destruct (nth_error M t); [|reflexivity].
    now rewrite (IH H L).
Qed.

Lemma same_dim_forall (q : vec) (rows : list vec) :
  same_dim q rows = true <->
  Forall (fun row => List.length row = List.length q) rows.
Proof.
  unfold same_dim. rewrite List.forallb_forall, Forall_forall.
  split; intros H row Hr; specialize (H row Hr);
    now apply Nat.eqb_eq.
Qed.

Lemma forall2_in_r {A B : Type} (P : A -> B -> Prop) (l1 : list A)
    (l2 : list B) (b : B) :
  Forall2 P l1 l2 -> In b l2 -> exists a, In a l1 /\ P a b.
Proof.
  induction 1 as [|x y l1 l2 H F IH]; [intros []|].
  intros [<-|Hb].
  - exists x. split; [now left|exact H].
  - destruct (IH Hb) as (a & Ha & Pa). exists a. split; [now right|exact Pa].
Qed.

Lemma results_sorted (sims : list R) (top : list nat)
    (results : list (R * MetaEntry)) :
  Forall2 (fun idx r => nth idx sims 0 = fst r) top results ->
  StronglySorted (fun i j => nth j sims 0 <= nth i sims 0) top ->
  StronglySorted (fun r1 r2 => fst r2 <= fst r1) results.
Proof.
  induction 1 as [|idx r top results E F2 IH]; intros S; [constructor|].
  apply StronglySorted_inv in S. destruct S as (S & F).
  constructor; [now apply IH|].
  apply Forall_forall. intros r' Hr'.
  destruct (forall2_in_r _ _ _ r' F2 Hr') as (j & Hj & E').
  rewrite Forall_forall in F. specialize (F j Hj).
  now rewrite E, E' in F.
Qed.

End SearchFacts.

(* ================================================================= *)
(** ** Facts that link the scanner to the index *)

Module ComposeFacts.

Import Text Embedding Scanner Notions Indexer IndexNotions.
Import TextFacts ScoringFacts SweepFacts RankFacts ResolveFacts ScanFacts.
Import RunFacts LookupFacts.
Local Open Scope Z_scope.

(** The card of a match has the [card_id] of an index entry. *)
Lemma found_card_has_an_entry (all_cards : list Card)
    (search_index : SearchIndex) (ocr_results : list string)
    (query_embedding : option vec) (card : Card) (ocr_confirmed : bool)
    (s : Z) (match_method : string) :
  scan_card all_cards search_index ocr_results query_embedding
  = Found card ocr_confirmed s match_method ->
  exists m, In m (metadata search_index) /\ id card = card_id m.
Proof.
  intros H.
  destruct (card_scores_of all_cards search_index ocr_results)
    as [cs|e] eqn:Sw.
  2:{ unfold card_scores_of in Sw. unfold scan_card, scan_body in H.
      cbv zeta in H. rewrite Sw in H. discriminate. }
  destruct cs as [|c1 cs'].
  { unfold card_scores_of in Sw. unfold scan_card, scan_body in H.
    cbv zeta in H. rewrite Sw in H. discriminate. }
  destruct (scan_card_ranked all_cards search_index ocr_results
              query_embedding _ Sw) as (c0 & rest & S & E).
  { destruct (sort_by_score_desc (c1 :: cs')) as [|c0 r] eqn:S0.
    - now apply sort_by_score_desc_nil in S0.
    - destruct (best_of_head _ _ _ S0) as (others & B). rewrite B.
      discriminate. }
  rewrite E, (determine_best_match_unfold _ _ _ _ _ _ S) in H. clear E.
  assert (Done : forall c final method,
             In c (best_of (c1 :: cs')) ->
             final = get_full_card_details (card_id (meta c)) all_cards ->
             respond final (score c0) method
             = Ok (Found card ocr_confirmed s match_method) ->
             exists m, In m (metadata search_index)
                       /\ id card = card_id m).
  { intros c final method Hc Ef R.
    apply respond_inv in R. destruct R as (Ef' & _).
    rewrite Ef' in Ef. symmetry in Ef.
    destruct (get_full_card_details_In _ _ _ Ef) as [_ Eid].
    exists (meta c). split; [|exact Eid].
    apply best_of_spec in Hc. destruct Hc as [I _].
    now destruct (candidate_meta_in_index _ _ _ _ _ Sw I). }
  destruct (best_of (c1 :: cs')) as [|b1 [|b2 bs]] eqn:B.
  - destruct query_embedding as [q|].
    + destruct (tie_break all_cards search_index [] q) as [final|] eqn:T;
        cbn [bind] in H; [|discriminate].
      apply tie_break_inv in T. destruct T as (k & c & N & _).
      now destruct k.
    + discriminate.
  - destruct (respond _ (score c0) "Scoring") as [r|] eqn:R;
      [|discriminate].
    subst r. exact (Done b1 _ _ (or_introl eq_refl) eq_refl R).
  - destruct query_embedding as [q|]; [|discriminate].
    destruct (tie_break all_cards search_index (b1 :: b2 :: bs) q)
      as [final|] eqn:T; cbn [bind] in H; [|discriminate].
    destruct (respond final (score c0) "Scoring with Image Tie-break")
      as [r|] eqn:R; [|discriminate].
    subst r. apply tie_break_inv in T. destruct T as (k & c & N & Ef).
    apply nth_error_In in N. exact (Done c _ _ N Ef R).
Qed.

Section Entries.

Variable process_image : string -> option vec.
Variable card_lookup : dict CardData.

(** The entries of a run are those of its images and of its
    checkpoint. *)
Lemma gen_loop_entries (P : MetaEntry -> Prop) (batch_size : Z)
    (L : list string) :
  (forall f, In f L -> P (meta_entry card_lookup f)) ->
  forall (i : nat) (st st' : GenState) (b : bool),
    Forall P (g_metadata st) ->
    gen_loop process_image card_lookup batch_size i L st = (st', b) ->
    Forall P (g_metadata st').
Proof.
  induction L as [|f L IH]; intros PL i st st' b F H.
  - cbn in H. now injection H as <- _.
  - cbn [gen_loop] in H.
    assert (PL' : forall g, In g L -> P (meta_entry card_lookup g))
      by (intros g Hg; apply PL; now right).
    destruct (mem f (g_processed_files st)); [now apply (IH PL') in H|].
    assert (F' : Forall P (g_metadata
                             (process_one process_image card_lookup f st))).
    { unfold process_one. destruct (process_image f); [|exact F].
      cbn. apply Forall_app. split; [exact F|].
      constructor; [|constructor]. apply PL. now left. }
    destruct (batch_size =? 0)%Z; [now injection H as <- _|].
    destruct ((Z.of_nat i + 1) mod batch_size =? 0)%Z;
      now apply (IH PL') in H.
Qed.

Lemma rows_entries_nth (files : list string) (f : string) (e : vec) :
  In f files -> process_image f = Some e ->
  exists k,
    nth_error (rows_of process_image files) k = Some e
    /\ nth_error (entries_of process_image card_lookup files) k
       = Some (meta_entry card_lookup f).
Proof.
  intros I E. induction files as [|g files IH]; [destruct I|].
  unfold entries_of. cbn [rows_of List.filter]. unfold embeddable at 1.
  destruct I as [->|I].
  - rewrite E. now exists 0%nat.
  - destruct (IH I) as (k & Hr & He).
    destruct (process_image g); [now exists (Datatypes.S k)|now exists k].
Qed.

Lemma saved_entries (P : MetaEntry -> Prop) (batch_size : Z)
    (image_files : list string) (E : list vec) (M : list MetaEntry) :
  (forall f, In f image_files -> P (meta_entry card_lookup f)) ->
  generate_embeddings process_image card_lookup image_files None batch_size
  = Saved E M ->
  Forall P M.
Proof.
  intros PL H. unfold generate_embeddings in H.
  destruct image_files as [|f files]; [discriminate|].
  cbn [initial_state g_embeddings List.length skipn] in H.
  destruct (gen_loop process_image card_lookup batch_size 0 (f :: files) _)
    as (st, b) eqn:L.
  apply (gen_loop_entries P) in L; [|exact PL|constructor].
  destruct b; [|discriminate].
  destruct (g_embeddings st) as [|row rows]; [discriminate|].
  destruct (same_dim row rows); [|discriminate].
  now injection H as _ <-.
Qed.

End Entries.

End ComposeFacts.

(* ================================================================= *)
(** * The claims of the specification *)

Module Claims.

Import Text Embedding Scanner Notions Samples.
Import TextFacts FractionFacts ScoringFacts SweepFacts RankFacts DriftFacts.
Import SimilarityFacts ResolveFacts.

(** ** Number fractions *)

(** C8.  Number-fraction extraction returns exactly the non-overlapping
    matches of the pattern (digits, optional white space, a slash,
    optional white space, digits), in order of appearance, as pairs of
    raw strings: [findall] is the one list that [all_matches] allows.
    Leading zeros stay: ["049/182"] gives [("049", "182")],
    ["49 / 182"] and ["49/ 182"] give [("49", "182")], and a pair with
    numerator ["049"] differs from every pair with numerator ["49"]. *)
Theorem number_fraction_extraction :
  (forall raw_text l, all_matches raw_text l <-> l = findall raw_text)
  /\ findall "049/182" = [("049", "182")]
  /\ findall "49 / 182" = [("49", "182")]
  /\ findall "49/ 182" = [("49", "182")]
  /\ findall "049/182 49 / 182" = [("049", "182"); ("49", "182")]
  /\ (forall den den' : string, ("049", den) <> ("49", den')).
Proof.
  split; [|repeat split; try reflexivity].
  - intros raw_text l. split.
    + apply all_matches_unique.
    + intros ->. apply (findall_all_matches_len (S (length raw_text))). lia.
  - intros den den' E. discriminate E.
Qed.

(** ** Scoring *)

Local Open Scope Z_scope.

(** C7.  The name match adds 20 at most once.  It adds 20 exactly when
    some fragment of length at least 4 occurs in the cleaned name or
    contains it.  The first such fragment decides: what follows it in
    the fragment list is not looked at.  The cleaned name is the one
    string that the cleaning rule allows for the display name (a
    missing name counts as the empty one): its ASCII letters and
    digits, in order, with the uppercase letters lowered. *)
Theorem name_match_bonus (texts : list string) (card : Card) (score : Z) :
  let card_name_clean := clean_text (get (name card) "") in
  (forall t, cleaned (get (name card) "") t <-> t = card_name_clean)
  /\ (check_name texts card score = score
      \/ check_name texts card score = score + 20)
  /\ (check_name texts card score = score + 20 <->
      exists text, In text texts /\ qualifies card_name_clean text)
  /\ (forall before text after after',
        texts = (before ++ text :: after)%list ->
        qualifies card_name_clean text ->
        check_name (before ++ text :: after') card score
        = check_name texts card score).
Proof.
  intros cn. split.
  { intros t. split; [apply cleaned_unique|].
    intros ->. apply clean_text_cleaned. }
  rewrite check_name_spec. fold cn.
  assert (X : existsb (qualifiesb cn) texts = true <->
              exists text, In text texts /\ qualifies cn text).
  { rewrite existsb_exists. split; intros (t & I & Q); exists t;
      (split; [exact I|]); now apply qualifiesb_iff. }
  split; [|split].
  - destruct (existsb (qualifiesb cn) texts); [right|left]; lia.
  - rewrite <- X. destruct (existsb (qualifiesb cn) texts); split;
      intros; try reflexivity; try discriminate; lia.
  - intros before text after after' E Q. rewrite check_name_spec. fold cn.
    apply qualifiesb_iff in Q.
    assert (Y : forall a, existsb (qualifiesb cn) (before ++ text :: a) = true).
    { intros a. rewrite existsb_app. cbn [existsb]. rewrite Q.
      now rewrite orb_true_r. }
    now rewrite E, !Y.
Qed.

Lemma name_match_bonus_witness :
  cleaned "Mr. Mime" "mrmime"
  /\ check_name ["mrmime"; "hp60"] mr_mime 0 = 0 + 20
  /\ check_name ["mr.mime"; "abcd"] mr_mime 0 = 0
  /\ check_name ["mrmime"; "hp60"] mr_mime 0
     = check_name ["mrmime"; "mime"] mr_mime 0.
Proof.
  destruct (name_match_bonus ["mrmime"; "hp60"] mr_mime 0)
    as (Clean & _ & Hit & First).
  destruct (name_match_bonus ["mr.mime"; "abcd"] mr_mime 0)
    as (_ & Once & Miss & _).
  split; [|split; [|split]].
  - apply Clean. reflexivity.
  - apply Hit. exists "mrmime". split; [now left|].
    apply qualifiesb_iff. reflexivity.
  - destruct Once as [E|E]; [exact E|].
    apply Miss in E. destruct E as (t & [<-|[<-|[]]] & Q);
      apply qualifiesb_iff in Q; discriminate.
  - symmetry. apply (First [] "mrmime" ["hp60"] ["mime"]).
    + reflexivity.
    + apply qualifiesb_iff. reflexivity.
Defined.

(** C10.  A card whose display name cleans to the empty string, because
    the key is absent (the default [''] is cleaned) or because the name
    has no ASCII letter or digit, gets the 20 points of the name match
    as soon as one fragment has length at least 4: the empty string
    occurs in every fragment. *)
Theorem empty_name_matches_long_fragment (texts : list string) (card : Card)
    (score : Z) :
  (clean_text (get (name card) "") = "" <->
   name card = None
   \/ exists n, name card = Some n
                /\ Text.forallb (fun c => negb (is_alnum c)) n = true)
  /\ (clean_text (get (name card) "") = "" ->
      (exists text, In text texts /\ (4 <= length text)%nat) ->
      check_name texts card score = score + 20).
Proof.
  split.
  - destruct (name card) as [n|]; cbn [get].
    + rewrite clean_text_empty_iff. split.
      * intros H. right. now exists n.
      * intros [H|(n' & E & H)]; [discriminate|]. now inversion E; subst.
    + split; [now left|reflexivity].
  - intros E (text & I & L). rewrite check_name_spec, E.
    assert (X : existsb (qualifiesb "") texts = true).
    { apply existsb_exists. exists text. split; [exact I|].
      unfold qualifiesb. rewrite str_in_empty, orb_true_r, andb_true_r.
      now apply Nat.leb_le. }
    now rewrite X.
Qed.

Lemma empty_name_matches_long_fragment_witness :
  check_name ["abcd"] nameless 0 = 0 + 20.
Proof.
  apply (proj2 (empty_name_matches_long_fragment ["abcd"] nameless 0)).
  - reflexivity.
  - exists "abcd". split; [now left|]. cbn. lia.
Defined.


Lemma get_full_card_details_other (card card' : Card)
    (cards1 cards2 : list Card) (cid : string) :
  id card' = id card -> cid <> id card ->
  get_full_card_details cid (cards1 ++ card' :: cards2)
  = get_full_card_details cid (cards1 ++ card :: cards2).
Proof.
  intros E Hne. unfold get_full_card_details.
  induction cards1 as [|c cards1 IH]; cbn [app find].
  - rewrite E.
    assert (F : String.eqb (id card) cid = false).
    { apply String.eqb_neq. congruence. }
    now rewrite F.
  - now rewrite IH.
Qed.

Lemma points_with_attack (matches : list (string * string))
    (texts : list string) (card : Card) (l1 l2 : list Attack)
    (attack : Attack) :
  get (attacks card) [] = (l1 ++ l2)%list ->
  attack_hits texts attack = true ->
  points matches texts (with_attacks card (l1 ++ attack :: l2))
  = points matches texts card + 10.
Proof.
  intros E H. unfold points, with_attacks, fraction_hits.
  cbn [attacks name number set get].
  rewrite E, !List.filter_app. cbn [List.filter]. rewrite H.
  rewrite !length_app. cbn [List.length]. lia.
Qed.

(** C4.  Every attack of the card whose cleaned name is not empty and
    occurs in some fragment adds 10 to the score, with no cap: the
    attack check adds ten times the number of such attacks, each entry
    of the attack list counting by itself.  Adding one more such
    attack to a card, anywhere in its list, raises its score by
    exactly 10 (a scan that failed on the card fails as before), and
    the catalog lookup of every other card id, hence its score, is as
    before. *)
Theorem attack_match_bonus (matches : list (string * string))
    (texts : list string) (card : Card) :
  (forall score,
     check_attacks texts card score
     = score + 10 * Z.of_nat (List.length
                                (List.filter (attack_hits texts)
                                             (get (attacks card) []))))
  /\ (forall attack,
        attack_hits texts attack = true <->
        clean_text (get (attack_name attack) "") <> ""
        /\ exists t, In t texts
                     /\ occurs_in (clean_text (get (attack_name attack) "")) t)
  /\ (forall l1 l2 attack,
        get (attacks card) [] = (l1 ++ l2)%list ->
        attack_hits texts attack = true ->
        score_card matches texts (with_attacks card (l1 ++ attack :: l2))
        = (s <- score_card matches texts card ;; Ok (s + 10))
        /\ forall cards1 cards2 other,
             other <> id card ->
             get_full_card_details other
               (cards1 ++ with_attacks card (l1 ++ attack :: l2) :: cards2)
             = get_full_card_details other (cards1 ++ card :: cards2)).
Proof.
  split; [|split].
  - apply check_attacks_spec.
  - intros attack. unfold attack_hits.
    rewrite andb_true_iff, FractionFacts.truthy_iff, existsb_exists.
    split; intros [N (t & I & O)]; (split; [exact N|]); exists t;
      (split; [exact I|]); now apply str_in_iff.
  - intros l1 l2 attack E H. split.
    + rewrite !score_card_spec, (points_with_attack _ _ _ _ _ _ E H).
      unfold fraction_hits, subscript_name, with_attacks.
      cbn [name number set].
      destruct (existsb _ matches); [|reflexivity].
      now destruct (name card).
    + intros cards1 cards2 other Hne.
      now apply get_full_card_details_other.
Qed.

Lemma attack_match_bonus_witness :
  score_card [] ["thunderjolt"]
    (with_attacks pikachu_one_attack
       ([ {| attack_name := Some "Gnaw" |} ] ++ thunder_jolt :: []))
  = (s <- score_card [] ["thunderjolt"] pikachu_one_attack ;; Ok (s + 10)).
Proof.
  apply (proj2 (proj2 (attack_match_bonus [] ["thunderjolt"]
                         pikachu_one_attack))
           [ {| attack_name := Some "Gnaw" |} ] [] thunder_jolt).
  - reflexivity.
  - reflexivity.
Defined.

(** ** The scan *)

(** C6.  A card that scores 0 is no candidate: every candidate has a
    score above zero, and no candidate comes from an index position
    whose card scores 0.  When every card the index refers to scores
    0, the scan answers "not found" (404), not the answer of a
    fault. *)
Theorem zero_scores_give_not_found (all_cards : list Card)
    (search_index : SearchIndex) (ocr_results : list string)
    (query_embedding : option vec) :
  (forall card_scores,
     card_scores_of all_cards search_index ocr_results = Ok card_scores ->
     (forall c, In c card_scores -> 0 < score c)
     /\ (forall k m card,
           nth_error (metadata search_index) k = Some m ->
           get_full_card_details (card_id m) all_cards = Some card ->
           score_card (findall (raw_ocr_text ocr_results))
                      (detected_texts ocr_results) card = Ok 0 ->
           forall c, In c card_scores -> index c <> k))
  /\ ((forall m card,
         In m (metadata search_index) ->
         get_full_card_details (card_id m) all_cards = Some card ->
         score_card (findall (raw_ocr_text ocr_results))
                    (detected_texts ocr_results) card = Ok 0) ->
      card_scores_of all_cards search_index ocr_results = Ok []
      /\ scan_card all_cards search_index ocr_results query_embedding
         = NotFound).
Proof.
  split.
  - intros card_scores H. split.
    + intros c Hc. apply (sweep_In _ _ _ _ _ _ H) in Hc.
      now destruct Hc as (card & _ & _ & _ & _ & P).
    + intros k m card N L Z0 c Hc Ek.
      apply (sweep_In _ _ _ _ _ _ H) in Hc.
      destruct Hc as (card' & _ & N' & L' & Sc & P).
      rewrite Nat.sub_0_r, Ek, N in N'. inversion N' as [Em].
      rewrite <- Em, L in L'. inversion L'; subst card'.
      rewrite Z0 in Sc. inversion Sc. lia.
  - intros H.
    assert (E : card_scores_of all_cards search_index ocr_results = Ok []).
    { unfold card_scores_of. now apply sweep_all_zero. }
    split; [exact E|]. unfold card_scores_of in E.
    unfold scan_card, scan_body. cbv zeta. now rewrite E.
Qed.

Lemma zero_scores_give_not_found_witness :
  card_scores_of catalog drifted_index ["Mewtwo"] = Ok []
  /\ scan_card catalog drifted_index ["Mewtwo"] None = NotFound.
Proof.
  apply (proj2 (zero_scores_give_not_found catalog drifted_index
                  ["Mewtwo"] None)).
  intros m card [<-|[<-|[<-|[]]]] L; vm_compute in L; inversion L;
    reflexivity.
Defined.



(** C5.  An index entry whose [card_id] has no card in the catalog is
    skipped: sweeping it alone raises nothing and yields no candidate,
    no candidate of the scan comes from its position, and the scan
    answers what it answers on the index without that entry. *)
Theorem missing_catalog_entry_is_skipped (all_cards : list Card)
    (search_index : SearchIndex) (ocr_results : list string)
    (query_embedding : option vec) (k : nat) (m : Meta) :
  nth_error (metadata search_index) k = Some m ->
  get_full_card_details (card_id m) all_cards = None ->
  sweep (findall (raw_ocr_text ocr_results)) (detected_texts ocr_results)
        all_cards k [m] = Ok []
  /\ (forall card_scores,
        card_scores_of all_cards search_index ocr_results = Ok card_scores ->
        forall c, In c card_scores -> index c <> k)
  /\ scan_card all_cards (remove_entry k search_index) ocr_results
               query_embedding
     = scan_card all_cards search_index ocr_results query_embedding.
Proof.
  intros N L. split; [|split].
  - cbn [sweep]. now rewrite L.
  - intros card_scores. now apply unresolved_entry_not_candidate with (m := m).
  - now apply scan_card_remove_entry with (m := m).
Qed.

Lemma missing_catalog_entry_is_skipped_witness :
  scan_card catalog (remove_entry 1 drifted_index) ["Raichu"] None
  = scan_card catalog drifted_index ["Raichu"] None.
Proof.
  apply (proj2 (proj2 (missing_catalog_entry_is_skipped catalog
                         drifted_index ["Raichu"] None 1 (entry "" "")
                         eq_refl eq_refl))).
Defined.


(** ** Similarity *)

Lemma norm_unit_x : norm [1; 0]%R = 1%R.
Proof.
  unfold norm. cbn [dot].
  replace (1 * 1 + (0 * 0 + 0))%R with 1%R by ring. apply sqrt_1.
Qed.

Lemma norm_unit_y : norm [0; 1]%R = 1%R.
Proof.
  unfold norm. cbn [dot].
  replace (0 * 0 + (1 * 1 + 0))%R with 1%R by ring. apply sqrt_1.
Qed.

(** ** Cards without a name *)

Lemma fraction_hits_iff (card : Card) (matches : list (string * string)) :
  existsb (fraction_hits card) matches = true <->
  exists num den,
    In (num, den) matches
    /\ py_str (get (number card) PNone) = num
    /\ py_str (get (printedTotal
                      (get (set card) {| printedTotal := None |})) PNone)
       = den.
Proof.
  rewrite existsb_exists. unfold fraction_hits. split.
  - intros ([num den] & I & H). cbn [fst snd] in H.
    apply andb_true_iff in H. destruct H as [H1 H2].
    apply String.eqb_eq in H1, H2. now exists num, den.
  - intros (num & den & I & H1 & H2). exists (num, den).
    split; [exact I|]. cbn [fst snd].
    apply andb_true_iff. split; now apply String.eqb_eq.
Qed.

(** On a card that has a name, the number match adds 100 when some
    fraction carries the card's number and printed total, and nothing
    otherwise. *)
Lemma number_match_bonus_named (matches : list (string * string))
    (card : Card) (n : string) (score : Z) :
  name card = Some n ->
  check_number matches card score
  = Ok (score + (if existsb (fraction_hits card) matches then 100 else 0)).
Proof.
  intros H. rewrite check_number_spec. unfold subscript_name. rewrite H.
  destruct (existsb _ _); cbn [bind]; f_equal; lia.
Qed.

(** A card found by its number alone, when it is the single best
    candidate, wins with score 100 and method "Scoring". *)
Lemma number_match_alone_wins (all_cards : list Card)
    (search_index : SearchIndex) (ocr_results : list string)
    (query_embedding : option vec) (card_scores : list Candidate)
    (c : Candidate) (card : Card) :
  card_scores_of all_cards search_index ocr_results = Ok card_scores ->
  best_of card_scores = [c] ->
  get_full_card_details (card_id (meta c)) all_cards = Some card ->
  existsb (fraction_hits card) (findall (raw_ocr_text ocr_results)) = true ->
  existsb (qualifiesb (clean_text (get (name card) "")))
          (detected_texts ocr_results) = false ->
  List.filter (attack_hits (detected_texts ocr_results))
              (get (attacks card) []) = [] ->
  scan_card all_cards search_index ocr_results query_embedding
  = Found card true 100 "Scoring".
Proof.
  intros H B L Hn Hname Hatt.
  destruct (scan_unique_best all_cards search_index ocr_results
              query_embedding _ c H B) as (card' & L' & Sc & ->).
  rewrite L in L'. inversion L'; subst card'.
  assert (P : points (findall (raw_ocr_text ocr_results))
                     (detected_texts ocr_results) card = 100).
  { unfold points. now rewrite Hn, Hname, Hatt. }
  rewrite score_card_spec, Hn, P in Sc. unfold answer.
  unfold subscript_name in Sc. destruct (name card) as [n|];
    cbn [bind] in Sc; [|discriminate].
  now inversion Sc.
Qed.

(** C1, where the code departs from it.  The catalog holds one card,
    without the key ['name'], with number ["4"] in a set of printed
    total [9]; the OCR read ["4/9"].  The fraction [("4", "9")] is
    extracted and matches the card, nothing else matches (the bonuses
    add up to 100), yet formatting the log line of the number match
    raises [KeyError], and the scan answers 500 where the claim has
    the card win with score 100 and method "Scoring". *)
Theorem number_match_on_nameless_card :
  findall (raw_ocr_text ["4/9"]) = [("4", "9")]
  /\ detected_texts ["4/9"] = ["49"]
  /\ existsb (fraction_hits nameless) [("4", "9")] = true
  /\ points [("4", "9")] ["49"] nameless = 100
  /\ check_number [("4", "9")] nameless 0 = Raise (KeyError "name")
  /\ score_card [("4", "9")] ["49"] nameless = Raise (KeyError "name")
  /\ scan_card [nameless] nameless_index ["4/9"] None
     = InternalError (KeyError "name").
Proof.
  repeat split; reflexivity.
Qed.

(** The same scan on the card with a name. *)
Lemma number_match_on_named_card :
  scan_card [pikachu] {| metadata := [entry "base1-58" "Pikachu"];
                         embeddings := [ [1; 0] ]%R |}
            ["58/102"] None
  = Found pikachu true 100 "Scoring".
Proof.
  apply (number_match_alone_wins _ _ _ _
           [ {| score := 100; index := 0;
                meta := entry "base1-58" "Pikachu" |} ]
           {| score := 100; index := 0; meta := entry "base1-58" "Pikachu" |});
    reflexivity.
Qed.

(** With the rows and the query of the samples the tie-break picks the
    second of two tied candidates. *)
Lemma sample_first_max :
  first_max (similarities_to query (embeddings prints_index)) 1.
Proof.
  unfold similarities_to. cbn [List.map embeddings prints_index].
  rewrite !unit_similarity by (try exact norm_unit_x; exact norm_unit_y).
  exists 1%R. split.
  - cbn. f_equal. unfold query. cbn [dot]. ring.
  - intros [|[|[|j]]] x Hx; cbn in Hx; try discriminate;
      inversion Hx; subst; unfold query; cbn [dot];
      split; intros; try lia; lra.
Qed.

Lemma sample_tie_break (all_cards : list Card) (ca cb : Candidate) :
  index ca = 0%nat -> index cb = 1%nat ->
  tie_break all_cards prints_index [ca; cb] query
  = Ok (get_full_card_details (card_id (meta cb)) all_cards).
Proof.
  intros Ha Hb. unfold tie_break.
  assert (Rows : tiebreaker_rows (embeddings prints_index) [ca; cb]
                 = Ok (embeddings prints_index)).
  { cbn [tiebreaker_rows]. now rewrite Ha, Hb. }
  rewrite Rows. cbn [bind].
  rewrite tiebreak_similarities_ok by reflexivity. cbn [bind].
  rewrite (first_max_argmax _ _ sample_first_max). reflexivity.
Qed.

(** C2, where the code departs from it.  Two cards without the key
    ['name'] both score 20 by the name match alone (their cleaned name
    is empty) and tie.  The tie-break picks the second card, whose row
    is closer to the query, and then formatting the final log line
    raises [KeyError]: the scan answers 500 where the claim has that
    card win with method "Scoring with Image Tie-break". *)
Theorem tie_break_on_nameless_cards :
  card_scores_of [nameless_a; nameless_b] prints_index ["abcd"]
  = Ok [ {| score := 20; index := 0; meta := entry "a" "Eevee" |};
         {| score := 20; index := 1; meta := entry "b" "Eevee" |} ]
  /\ tie_break [nameless_a; nameless_b] prints_index
       [ {| score := 20; index := 0; meta := entry "a" "Eevee" |};
         {| score := 20; index := 1; meta := entry "b" "Eevee" |} ] query
     = Ok (Some nameless_b)
  /\ scan_card [nameless_a; nameless_b] prints_index ["abcd"] (Some query)
     = InternalError (KeyError "name").
Proof.
  split; [reflexivity|]. split.
  - now rewrite sample_tie_break.
  - unfold scan_card, scan_body. cbv zeta.
    change (sweep _ _ _ 0 (metadata prints_index))
      with (card_scores_of [nameless_a; nameless_b] prints_index ["abcd"]).
    replace (card_scores_of [nameless_a; nameless_b] prints_index ["abcd"])
      with (Ok [ {| score := 20; index := 0; meta := entry "a" "Eevee" |};
                 {| score := 20; index := 1; meta := entry "b" "Eevee" |} ])
      by reflexivity.
    cbn [bind]. unfold determine_best_match.
    cbn [sort_by_score_desc fold_right insert_by_score score Z.ltb
         Z.compare Pos.compare Pos.compare_cont best_candidates_of
         List.filter Z.eqb Pos.eqb].
    now rewrite sample_tie_break.
Qed.

(** The same scan on the two cards with a name: the card whose row is
    closer to the query wins. *)
Lemma tie_break_on_named_cards :
  scan_card [print_a; print_b] prints_index ["Eevee"] (Some query)
  = Found print_b true 20 "Scoring with Image Tie-break".
Proof.
  unfold scan_card, scan_body. cbv zeta.
  change (sweep _ _ _ 0 (metadata prints_index))
    with (card_scores_of [print_a; print_b] prints_index ["Eevee"]).
  replace (card_scores_of [print_a; print_b] prints_index ["Eevee"])
    with (Ok [ {| score := 20; index := 0; meta := entry "a" "Eevee" |};
               {| score := 20; index := 1; meta := entry "b" "Eevee" |} ])
    by reflexivity.
  cbn [bind]. unfold determine_best_match.
  cbn [sort_by_score_desc fold_right insert_by_score score Z.ltb
       Z.compare Pos.compare Pos.compare_cont best_candidates_of
       List.filter Z.eqb Pos.eqb].
  now rewrite sample_tie_break.
Qed.

End Claims.

(* ================================================================= *)
(** * Further properties of the code *)

Module Extras.

Import Text Embedding Scanner Notions Samples MoreSamples.
Import TextFacts FractionFacts ScoringFacts SweepFacts RankFacts DriftFacts.
Import SimilarityFacts ResolveFacts FragmentFacts ScanFacts.
Local Open Scope Z_scope.

(** ** Text *)

(** X1.  [clean_text] is idempotent, what it returns is made of
    lowercase ASCII letters and digits only, and it is never longer
    than its argument. *)
Theorem clean_text_canonical (text : string) :
  clean_text (clean_text text) = clean_text text
  /\ Text.forallb (fun c => is_lower c || is_digit c) (clean_text text) = true
  /\ (length (clean_text text) <= length text)%nat.
Proof.
  split; [apply clean_text_idempotent|].
  split; [apply clean_text_alphabet|apply clean_text_length].
Qed.

(** X2.  The fragments of a scan are the cleaned OCR results, each
    once, and no fragment is longer than one listed before it. *)
Theorem fragments_unique_longest_first (ocr_results : list string) :
  (forall t, In t (detected_texts ocr_results) <->
             exists r, In r ocr_results /\ t = clean_text r)
  /\ NoDup (detected_texts ocr_results)
  /\ longest_first (detected_texts ocr_results).
Proof.
  unfold detected_texts. split; [|split].
  - intros t. destruct (detected_texts_spec ocr_results) as (H & _).
    exact (H t).
  - eapply Permutation_NoDup.
    + symmetry. apply sorted_by_len_desc_perm.
    + apply set_list_acc_NoDup.
  - apply sorted_by_len_desc_sorted.
Qed.

(** X3.  The candidates of a scan do not depend on the order in which
    the set of fragments is listed: every duplicate-free list of the
    cleaned OCR results gives the candidate list of the scan. *)
Theorem candidates_independent_of_fragment_order (all_cards : list Card)
    (search_index : SearchIndex) (ocr_results texts : list string) :
  NoDup texts ->
  (forall t, In t texts <-> exists r, In r ocr_results /\ t = clean_text r) ->
  sweep (findall (raw_ocr_text ocr_results)) texts all_cards 0
        (metadata search_index)
  = card_scores_of all_cards search_index ocr_results.
Proof.
  intros N H. unfold card_scores_of. apply sweep_perm.
  destruct (detected_texts_spec ocr_results) as (H' & N' & _).
  apply NoDup_Permutation; trivial.
  intros t. now rewrite H, H'.
Qed.

Lemma candidates_independent_of_fragment_order_witness :
  sweep (findall (raw_ocr_text ["Pikachu"; "Gnaw"])) ["gnaw"; "pikachu"]
        catalog 0 (metadata drifted_index)
  = card_scores_of catalog drifted_index ["Pikachu"; "Gnaw"].
Proof.
  apply (candidates_independent_of_fragment_order catalog drifted_index
           ["Pikachu"; "Gnaw"] ["gnaw"; "pikachu"]).
  - repeat constructor; cbn; intuition discriminate.
  - intros t. split.
    + intros [<-|[<-|[]]].
      * exists "Gnaw". split; [right; now left|reflexivity].
      * exists "Pikachu". split; [now left|reflexivity].
    + intros (r & [<-|[<-|[]]] & ->); cbn; auto.
Defined.

(** ** Scoring *)

(** X4.  A score is the sum of the three bonuses: a multiple of ten,
    at least 100 when a fraction carries the card's number and printed
    total, and otherwise at most 20 plus ten per attack of the card. *)
Theorem score_bounds (matches : list (string * string))
    (texts : list string) (card : Card) (s : Z) :
  score_card matches texts card = Ok s ->
  (10 | s)
  /\ 0 <= s <= 120 + 10 * Z.of_nat (List.length (get (attacks card) []))
  /\ (existsb (fraction_hits card) matches = true -> 100 <= s)
  /\ (existsb (fraction_hits card) matches = false ->
      s <= 20 + 10 * Z.of_nat (List.length (get (attacks card) []))).
Proof.
  intros H.
  assert (E : s = points matches texts card).
  { rewrite score_card_spec in H. unfold subscript_name in H.
    destruct (existsb _ matches), (name card); cbn [bind] in H;
      congruence. }
  pose proof (List.filter_length_le (attack_hits texts)
                (get (attacks card) [])) as L.
  subst s. unfold points.
  set (n := List.length (List.filter (attack_hits texts)
                                     (get (attacks card) []))) in *.
  split.
  - destruct (existsb _ matches), (existsb _ texts).
    + exists (12 + Z.of_nat n). lia.
    + exists (10 + Z.of_nat n). lia.
    + exists (2 + Z.of_nat n). lia.
    + exists (Z.of_nat n). lia.
  - destruct (existsb _ matches), (existsb _ texts);
      repeat split; intros; try discriminate; lia.
Qed.

Lemma score_bounds_witness :
  (10 | 30)
  /\ 0 <= 30 <= 120 + 10 * Z.of_nat (List.length (get (attacks pikachu) []))
  /\ (existsb (fraction_hits pikachu) [] = true -> 100 <= 30)
  /\ (existsb (fraction_hits pikachu) [] = false ->
      30 <= 20 + 10 * Z.of_nat (List.length (get (attacks pikachu) []))).
Proof.
  apply (score_bounds [] ["pikachu"; "gnaw"] pikachu 30).
  reflexivity.
Defined.

(** ** The sweep *)

(** X5.  The scoring sweep raises nothing but [KeyError('name')], and
    it raises it exactly when some index entry resolves to a card
    without the key ['name'] whose number and printed total a fraction
    carries. *)
Theorem sweep_fault_is_missing_name (all_cards : list Card)
    (search_index : SearchIndex) (ocr_results : list string) (e : exn) :
  card_scores_of all_cards search_index ocr_results = Raise e <->
  e = KeyError "name"
  /\ exists m card,
       In m (metadata search_index)
       /\ get_full_card_details (card_id m) all_cards = Some card
       /\ name card = None
       /\ existsb (fraction_hits card)
                  (findall (raw_ocr_text ocr_results)) = true.
Proof.
  unfold card_scores_of. apply sweep_raise_iff.
Qed.

(** X6.  The best candidates are the candidates of maximum score, and
    they are listed by increasing index position: ranking keeps the
    order of the index among equal scores. *)
Theorem best_candidates_in_index_order (all_cards : list Card)
    (search_index : SearchIndex) (ocr_results : list string)
    (card_scores : list Candidate) :
  card_scores_of all_cards search_index ocr_results = Ok card_scores ->
  (forall c, In c (best_of card_scores) <->
             In c card_scores
             /\ forall d, In d card_scores -> score d <= score c)
  /\ StronglySorted (fun a b => (index a < index b)%nat)
                    (best_of card_scores).
Proof.
  intros H. split; [intros c; apply best_of_spec|].
  destruct (sort_by_score_desc card_scores) as [|c0 rest] eqn:S.
  - unfold best_of. rewrite S. constructor.
  - rewrite (best_of_keeps_order _ _ _ S). unfold best_candidates_of.
    apply strongly_sorted_filter.
    unfold card_scores_of in H. exact (sweep_index_order _ _ _ _ _ _ H).
Qed.

Lemma best_candidates_in_index_order_witness :
  (forall c, In c (best_of eevee_candidates) <->
             In c eevee_candidates
             /\ forall d, In d eevee_candidates -> score d <= score c)
  /\ StronglySorted (fun a b => (index a < index b)%nat)
                    (best_of eevee_candidates).
Proof.
  apply (best_candidates_in_index_order [print_a; print_b] prints_index
           ["Eevee"] eevee_candidates).
  reflexivity.
Defined.


(** ** The answer of a scan *)

(** X7.  When a scan answers with a match, the card is the first
    catalog card with the [card_id] of a best candidate, the reported
    score is that candidate's score, positive and maximal among the
    candidates, [ocr_confirmed] is true, and the method says whether
    the candidate was alone ("Scoring") or the tie-break chose it among
    several with a query embedding at hand. *)
Theorem match_is_a_best_candidate (all_cards : list Card)
    (search_index : SearchIndex) (ocr_results : list string)
    (query_embedding : option vec) (card : Card) (ocr_confirmed : bool)
    (s : Z) (match_method : string) :
  scan_card all_cards search_index ocr_results query_embedding
  = Found card ocr_confirmed s match_method ->
  ocr_confirmed = true
  /\ exists card_scores c,
       card_scores_of all_cards search_index ocr_results = Ok card_scores
       /\ In c (best_of card_scores)
       /\ get_full_card_details (card_id (meta c)) all_cards = Some card
       /\ In card all_cards /\ id card = card_id (meta c)
       /\ s = score c /\ 0 < s
       /\ (forall d, In d card_scores -> score d <= s)
       /\ ((match_method = "Scoring" /\ best_of card_scores = [c])
           \/ (match_method = "Scoring with Image Tie-break"
               /\ (2 <= List.length (best_of card_scores))%nat
               /\ query_embedding <> None)).
Proof.
  intros H.
  destruct (card_scores_of all_cards search_index ocr_results)
    as [cs|e] eqn:Sw.
  2:{ unfold card_scores_of in Sw. unfold scan_card, scan_body in H.
      cbv zeta in H. rewrite Sw in H. discriminate. }
  destruct cs as [|c1 cs'].
  { unfold card_scores_of in Sw. unfold scan_card, scan_body in H.
    cbv zeta in H. rewrite Sw in H. discriminate. }
  destruct (scan_card_ranked all_cards search_index ocr_results
              query_embedding _ Sw) as (c0 & rest & S & E).
  { destruct (sort_by_score_desc (c1 :: cs')) as [|c0 r] eqn:S0.
    - now apply sort_by_score_desc_nil in S0.
    - destruct (best_of_head _ _ _ S0) as (others & B). rewrite B.
      discriminate. }
  rewrite E, (determine_best_match_unfold _ _ _ _ _ _ S) in H. clear E.
  assert (Top : forall c, In c (best_of (c1 :: cs')) ->
                          score c = score c0 /\ 0 < score c
                          /\ forall d, In d (c1 :: cs') ->
                                       score d <= score c).
  { intros c Hc. split; [now apply (best_of_top_score _ _ _ rest S)|].
    pose proof Hc as Hc'. apply best_of_spec in Hc'. destruct Hc' as [I M].
    split; [|exact M].
    apply (sweep_In _ _ _ _ _ _ Sw) in I.
    now destruct I as (? & _ & _ & _ & _ & P). }
  assert (Done : forall c final method,
             In c (best_of (c1 :: cs')) ->
             final = get_full_card_details (card_id (meta c)) all_cards ->
             respond final (score c0) method
             = Ok (Found card ocr_confirmed s match_method) ->
             ocr_confirmed = true
             /\ get_full_card_details (card_id (meta c)) all_cards
                = Some card
             /\ In card all_cards /\ id card = card_id (meta c)
             /\ s = score c /\ 0 < s
             /\ (forall d, In d (c1 :: cs') -> score d <= s)
             /\ match_method = method).
  { intros c final method Hc Ef R.
    apply respond_inv in R. destruct R as (Ef' & -> & -> & -> & _).
    rewrite Ef' in Ef. symmetry in Ef.
    destruct (get_full_card_details_In _ _ _ Ef) as [I Eid].
    destruct (Top c Hc) as (Es & P & M). rewrite <- Es.
    repeat split; trivial. }
  destruct (best_of (c1 :: cs')) as [|b1 [|b2 bs]] eqn:B.
  - destruct query_embedding as [q|].
    + destruct (tie_break all_cards search_index [] q) as [final|] eqn:T;
        cbn [bind] in H; [|discriminate].
      apply tie_break_inv in T. destruct T as (k & c & N & _).
      now destruct k.
    + discriminate.
  - destruct (respond _ (score c0) "Scoring") as [r|] eqn:R;
      [|discriminate].
    subst r.
    destruct (Done b1 _ _ (or_introl eq_refl) eq_refl R)
      as (Ok' & L & I & Eid & Es & P & M & Em).
    split; [exact Ok'|]. exists (c1 :: cs'), b1. rewrite B.
    split; [first [exact Sw|reflexivity]|]. split; [now left|].
    split; [exact L|]. split; [exact I|]. split; [exact Eid|].
    split; [exact Es|]. split; [exact P|]. split; [exact M|].
    left. split; [exact Em|reflexivity].
  - destruct query_embedding as [q|]; [|discriminate].
    destruct (tie_break all_cards search_index (b1 :: b2 :: bs) q)
      as [final|] eqn:T; cbn [bind] in H; [|discriminate].
    destruct (respond final (score c0) "Scoring with Image Tie-break")
      as [r|] eqn:R; [|discriminate].
    subst r. apply tie_break_inv in T. destruct T as (k & c & N & Ef).
    apply nth_error_In in N.
    destruct (Done c _ _ N Ef R) as (Ok' & L & I & Eid & Es & P & M & Em).
    split; [exact Ok'|]. exists (c1 :: cs'), c. rewrite B.
    split; [first [exact Sw|reflexivity]|]. split; [exact N|].
    split; [exact L|]. split; [exact I|]. split; [exact Eid|].
    split; [exact Es|]. split; [exact P|]. split; [exact M|].
    right. split; [exact Em|]. split; [cbn; lia|discriminate].
Qed.

Lemma match_is_a_best_candidate_witness :
  true = true
  /\ exists card_scores c,
       card_scores_of catalog drifted_index ["Raichu"] = Ok card_scores
       /\ In c (best_of card_scores)
       /\ get_full_card_details (card_id (meta c)) catalog = Some raichu
       /\ In raichu catalog /\ id raichu = card_id (meta c)
       /\ 20 = score c /\ 0 < 20
       /\ (forall d, In d card_scores -> score d <= 20)
       /\ (("Scoring" = "Scoring" /\ best_of card_scores = [c])
           \/ ("Scoring" = "Scoring with Image Tie-break"
               /\ (2 <= List.length (best_of card_scores))%nat
               /\ (None : option vec) <> None)).
Proof.
  apply (match_is_a_best_candidate catalog drifted_index ["Raichu"] None
           raichu true 20 "Scoring").
  reflexivity.
Defined.




(** ** Faults of the tie-break *)

(** X9.  When the tie-break runs and a tied candidate's index position
    has no row in the embedding array, reading the row raises
    [IndexError] and the scan answers with a fault. *)
Theorem tie_break_missing_row (all_cards : list Card)
    (search_index : SearchIndex) (ocr_results : list string) (q : vec)
    (card_scores : list Candidate) (c : Candidate) :
  card_scores_of all_cards search_index ocr_results = Ok card_scores ->
  (2 <= List.length (best_of card_scores))%nat ->
  In c (best_of card_scores) ->
  (List.length (embeddings search_index) <= index c)%nat ->
  scan_card all_cards search_index ocr_results (Some q)
  = InternalError IndexError.
Proof.
  intros Sw Len Hc Out.
  destruct (scan_card_ranked all_cards search_index ocr_results (Some q)
              _ Sw) as (c0 & rest & S & ->).
  { destruct (best_of card_scores); [cbn in Len; lia|discriminate]. }
  rewrite (determine_best_match_unfold _ _ _ _ _ _ S).
  assert (T : tie_break all_cards search_index (best_of card_scores) q
              = Raise IndexError).
  { unfold tie_break. rewrite tiebreaker_rows_out_of_range; [reflexivity|].
    now exists c. }
  revert T.
  destruct (best_of card_scores) as [|b1 [|b2 bs]]; cbn in Len; try lia.
  now intros ->.
Qed.

Lemma tie_break_missing_row_witness :
  scan_card [print_a; print_b] short_index ["Eevee"] (Some query)
  = InternalError IndexError.
Proof.
  apply (tie_break_missing_row [print_a; print_b] short_index ["Eevee"]
           query eevee_candidates
           {| score := 20; index := 1; meta := entry "b" "Eevee" |}).
  - reflexivity.
  - cbn. lia.
  - right. now left.
  - cbn. lia.
Defined.

(** X10.  When the tie-break runs and the query embedding has another
    dimension than the rows of the tied candidates, the distance
    computation raises [ValueError] and the scan answers with a
    fault. *)
Theorem tie_break_dimension_mismatch (all_cards : list Card)
    (search_index : SearchIndex) (ocr_results : list string) (q : vec)
    (card_scores : list Candidate) (rows : list vec) :
  card_scores_of all_cards search_index ocr_results = Ok card_scores ->
  (2 <= List.length (best_of card_scores))%nat ->
  tiebreaker_rows (embeddings search_index) (best_of card_scores) = Ok rows ->
  (exists e, In e rows /\ List.length e <> List.length q) ->
  scan_card all_cards search_index ocr_results (Some q)
  = InternalError ValueError.
Proof.
  intros Sw Len Rows (e & He & Ne).
  destruct (scan_card_ranked all_cards search_index ocr_results (Some q)
              _ Sw) as (c0 & rest & S & ->).
  { destruct (best_of card_scores); [cbn in Len; lia|discriminate]. }
  rewrite (determine_best_match_unfold _ _ _ _ _ _ S).
  assert (D : same_dim q rows = false).
  { apply not_true_is_false. unfold same_dim. intros F.
    rewrite List.forallb_forall in F. specialize (F e He).
    apply Nat.eqb_eq in F. contradiction. }
  assert (T : tie_break all_cards search_index (best_of card_scores) q
              = Raise ValueError).
  { unfold tie_break, tiebreak_similarities, cdist_cosine.
    rewrite Rows. cbn [bind]. now rewrite D. }
  revert T.
  destruct (best_of card_scores) as [|b1 [|b2 bs]]; cbn in Len; try lia.
  now intros ->.
Qed.

Lemma tie_break_dimension_mismatch_witness :
  scan_card [print_a; print_b] prints_index ["Eevee"] (Some query3)
  = InternalError ValueError.
Proof.
  apply (tie_break_dimension_mismatch [print_a; print_b] prints_index
           ["Eevee"] query3 eevee_candidates (embeddings prints_index)).
  - reflexivity.
  - cbn. lia.
  - reflexivity.
  - exists [1; 0]%R. split; [now left|]. cbn. lia.
Defined.

(** X11.  The query embedding matters only on a tie: when a scan has
    at most one best candidate (or none, or its sweep fails), its
    answer is the same whatever the embedding is, a failed one
    included. *)
Theorem embedding_matters_only_on_a_tie (all_cards : list Card)
    (search_index : SearchIndex) (ocr_results : list string)
    (q1 q2 : option vec) :
  (forall card_scores,
     card_scores_of all_cards search_index ocr_results = Ok card_scores ->
     (List.length (best_of card_scores) <= 1)%nat) ->
  scan_card all_cards search_index ocr_results q1
  = scan_card all_cards search_index ocr_results q2.
Proof.
  intros H.
  destruct (card_scores_of all_cards search_index ocr_results)
    as [cs|e] eqn:Sw.
  2:{ unfold card_scores_of in Sw. unfold scan_card, scan_body. cbv zeta.
      now rewrite Sw. }
  specialize (H cs eq_refl).
  destruct cs as [|c1 cs'].
  { unfold card_scores_of in Sw. unfold scan_card, scan_body. cbv zeta.
    now rewrite Sw. }
  destruct (best_of (c1 :: cs')) as [|b1 [|b2 bs]] eqn:B.
  - destruct (sort_by_score_desc (c1 :: cs')) as [|c0 r] eqn:S0.
    + now apply sort_by_score_desc_nil in S0.
    + destruct (best_of_head _ _ _ S0) as (others & B'). congruence.
  - destruct (scan_unique_best all_cards search_index ocr_results
                q1 _ b1 Sw B) as (card1 & L1 & _ & ->).
    destruct (scan_unique_best all_cards search_index ocr_results
                q2 _ b1 Sw B) as (card2 & L2 & _ & ->).
    congruence.
  - cbn in H. lia.
Qed.

Lemma embedding_matters_only_on_a_tie_witness :
  scan_card catalog drifted_index ["Raichu"] (Some query)
  = scan_card catalog drifted_index ["Raichu"] None.
Proof.
  apply (embedding_matters_only_on_a_tie catalog drifted_index ["Raichu"]
           (Some query) None).
  intros card_scores H. vm_compute in H. inversion H. cbn. lia.
Defined.

(** ** Illegible text *)

(** X12.  When the OCR read nothing with a letter or a digit in it (no
    result at all, or only punctuation and white space), the scan
    answers "not found", whatever the catalog and the index hold. *)
Theorem illegible_text_is_not_found (all_cards : list Card)
    (search_index : SearchIndex) (ocr_results : list string)
    (query_embedding : option vec) :
  (forall r, In r ocr_results -> clean_text r = "") ->
  scan_card all_cards search_index ocr_results query_embedding = NotFound.
Proof.
  intros H.
  assert (M : findall (raw_ocr_text ocr_results) = []).
  { apply findall_no_digit. apply join_no_digit. intros r Hr.
    apply not_alnum_not_digit. apply clean_text_empty_iff. now apply H. }
  assert (T : forall t, In t (detected_texts ocr_results) -> t = "").
  { intros t Ht. apply detected_texts_spec in Ht.
    destruct Ht as (r & Hr & ->). now apply H. }
  assert (Z0 : forall card,
             score_card (findall (raw_ocr_text ocr_results))
                        (detected_texts ocr_results) card = Ok 0).
  { intros card. rewrite score_card_spec, M. cbn [existsb]. f_equal.
    unfold points. cbn [existsb].
    assert (Q : existsb (qualifiesb (clean_text (get (name card) "")))
                        (detected_texts ocr_results) = false).
    { apply not_true_is_false. intros X. apply existsb_exists in X.
      destruct X as (t & Ht & Qt). rewrite (T t Ht) in Qt. discriminate. }
    assert (A : List.filter (attack_hits (detected_texts ocr_results))
                            (get (attacks card) []) = []).
    { induction (get (attacks card) []) as [|a l IH]; [reflexivity|].
      cbn [List.filter].
      assert (Ha : attack_hits (detected_texts ocr_results) a = false).
      { apply not_true_is_false. intros X. unfold attack_hits in X.
        apply andb_true_iff in X. destruct X as [Tr X].
        apply existsb_exists in X. destruct X as (t & Ht & St).
        rewrite (T t Ht), str_in_nothing in St; [discriminate|].
        now apply FractionFacts.truthy_iff. }
      now rewrite Ha. }
    now rewrite Q, A. }
  assert (E : sweep (findall (raw_ocr_text ocr_results))
                    (detected_texts ocr_results) all_cards 0
                    (metadata search_index) = Ok []).
  { apply sweep_all_zero. intros m card _ _. apply Z0. }
  unfold scan_card, scan_body. cbv zeta. now rewrite E.
Qed.

Lemma illegible_text_is_not_found_witness :
  scan_card catalog drifted_index ["--"; " /!"] (Some query) = NotFound.
Proof.
  apply (illegible_text_is_not_found catalog drifted_index ["--"; " /!"]
           (Some query)).
  intros r [<-|[<-|[]]]; reflexivity.
Defined.

End Extras.

(* ================================================================= *)
(** * Properties of the embedding script and the downloader *)

Module PipelineExtras.

Import Text Embedding Scanner Indexer Downloader.
Import Notions IndexNotions NameNotions SearchNotions.
Import TextFacts FractionFacts FragmentFacts.
Import RunFacts LookupFacts NameFacts SearchFacts ComposeFacts.
Import PipelineSamples.

(** ** The embedding run *)

(** X13.  An image whose features cannot be computed is left out
    without stopping the run, and the rows have the dimension of the
    features.  [process_image] returns [None] exactly when computing
    the features raised, and a vector with as many components as the
    features otherwise.  So a run without a checkpoint over distinct
    images (batch size other than zero), when the features have one
    dimension [d] and those of at least one image could be computed,
    saves rows of [d] components: one row and one entry for each image
    whose features could be computed, none for the others. *)
Theorem failed_images_are_left_out (encode_image : string -> result vec)
    (card_lookup : dict CardData) (image_files : list string)
    (batch_size : Z) (d : nat) :
  NoDup image_files ->
  (batch_size <> 0)%Z ->
  (forall f v, In f image_files -> encode_image f = Ok v ->
               List.length v = d) ->
  (exists f v, In f image_files /\ encode_image f = Ok v) ->
  (forall f, process_image string encode_image f = None <->
             exists e, encode_image f = Raise e)
  /\ (forall f v, encode_image f = Ok v ->
                  exists q, process_image string encode_image f = Some q
                            /\ List.length q = List.length v)
  /\ exists embeddings metadata,
       generate_embeddings (process_image string encode_image) card_lookup
                           image_files None batch_size
       = Saved embeddings metadata
       /\ Forall (fun row => List.length row = d) embeddings
       /\ List.length embeddings = List.length metadata
       /\ forall f, In f (List.map filename metadata) <->
                    In f image_files /\ exists v, encode_image f = Ok v.
Proof.
  intros N B Dim (f0 & v0 & Hf0 & E0).
  set (p := process_image string encode_image).
  assert (P1 : forall f, p f = None <-> exists e, encode_image f = Raise e).
  { intros f. unfold p, process_image.
    destruct (encode_image f) as [v|e]; split; try discriminate; eauto.
    intros (e' & H). discriminate. }
  assert (P2 : forall f v, encode_image f = Ok v ->
                 exists q, p f = Some q /\ List.length q = List.length v).
  { intros f v E. unfold p, process_image. rewrite E.
    exists (normalize v). split; [reflexivity|].
    unfold normalize. apply List.length_map. }
  split; [exact P1|]. split; [exact P2|].
  assert (NE : image_files <> []) by (intros ->; destruct Hf0).
  pose proof (generate_from_valid p card_lookup batch_size image_files
                None B N NE I) as G.
  assert (Rows : Forall (fun row => List.length row = d)
                        (rows_of p image_files)).
  { apply Forall_forall. intros row Hr.
    destruct (rows_of_In p _ _ Hr) as (f & Hf & Pf).
    destruct (encode_image f) as [v|e] eqn:E.
    - destruct (P2 f v E) as (q & Pq & Lq). rewrite Pf in Pq.
      injection Pq as <-. rewrite Lq. now apply (Dim f).
    - assert (X : p f = None) by (apply P1; now exists e). congruence. }
  destruct (P2 f0 v0 E0) as (q0 & Pq0 & _).
  destruct (rows_entries_nth p card_lookup image_files f0 q0 Hf0 Pq0)
    as (k & Hk & _).
  destruct (rows_of p image_files) as [|row more] eqn:R.
  { now destruct k. }
  assert (SD : same_dim row more = true).
  { apply same_dim_forall. apply Forall_forall. intros e He.
    rewrite Forall_forall in Rows.
    rewrite (Rows e (or_intror He)), (Rows row (or_introl eq_refl)).
    reflexivity. }
  rewrite SD in G. fold p.
  destruct (generate_embeddings p card_lookup image_files None batch_size)
    as [|E M| | |]; try discriminate.
  cbn [without_checkpoint] in G. injection G as -> ->.
  exists (row :: more), (entries_of p card_lookup image_files).
  split; [reflexivity|]. split; [exact Rows|].
  split; [rewrite <- R; apply rows_entries_length|].
  intros f. rewrite entries_filenames, List.filter_In.
  unfold embeddable. split.
  - intros (Hf & Pf). split; [exact Hf|].
    destruct (encode_image f) as [v|e] eqn:E; [now exists v|].
    assert (X : p f = None) by (apply P1; now exists e).
    now rewrite X in Pf.
  - intros (Hf & v & E). split; [exact Hf|].
    destruct (P2 f v E) as (q & -> & _). reflexivity.
Qed.

Lemma failed_images_are_left_out_witness :
  (forall f, process_image string encode f = None <->
             exists e, encode f = Raise e)
  /\ (forall f v, encode f = Ok v ->
                  exists q, process_image string encode f = Some q
                            /\ List.length q = List.length v)
  /\ exists embeddings metadata,
       generate_embeddings (process_image string encode) lookup images
                           None 32%Z
       = Saved embeddings metadata
       /\ Forall (fun row => List.length row = 2%nat) embeddings
       /\ List.length embeddings = List.length metadata
       /\ forall f, In f (List.map filename metadata) <->
                    In f images /\ exists v, encode f = Ok v.
Proof.
  apply (failed_images_are_left_out encode lookup images 32%Z 2%nat).
  - repeat constructor; cbn; intuition discriminate.
  - discriminate.
  - intros f v [<-|[<-|[<-|[]]]] E; cbn in E; try discriminate;
      now injection E as <-.
  - exists "base1-27_Farfetchd_large.png"%string, [0; 2]%R.
    split; [now left|reflexivity].
Defined.

(** X14.  A run without a checkpoint, over distinct images and with a
    batch size other than zero, saves exactly the images that
    [process_image] could embed, in the order of the files: one row
    and one metadata entry per such image, the row being the embedding
    of the image the entry names.  It saves nothing when no image
    could be embedded or when the rows differ in length. *)
Theorem fresh_run_saves_embeddable_images
    (process_image : string -> option vec) (card_lookup : dict CardData)
    (image_files : list string) (batch_size : Z) :
  NoDup image_files ->
  image_files <> [] ->
  (batch_size <> 0)%Z ->
  without_checkpoint
    (generate_embeddings process_image card_lookup image_files None
                         batch_size)
  = match rows_of process_image image_files with
    | [] => NoEmbeddings None
    | row :: rows =>
        if same_dim row rows
        then Saved (rows_of process_image image_files)
                   (entries_of process_image card_lookup image_files)
        else ShapeError None
    end
  /\ Forall2 (fun e m => process_image (filename m) = Some e
                         /\ m = meta_entry card_lookup (filename m))
             (rows_of process_image image_files)
             (entries_of process_image card_lookup image_files)
  /\ List.map filename (entries_of process_image card_lookup image_files)
     = List.filter (embeddable process_image) image_files.
Proof.
  intros N NE B.
  split; [|split; [apply rows_entries|apply entries_filenames]].
  now apply generate_from_valid.
Qed.

Lemma fresh_run_saves_embeddable_images_witness :
  without_checkpoint (generate_embeddings embed lookup images None 32%Z)
  = match rows_of embed images with
    | [] => NoEmbeddings None
    | row :: rows =>
        if same_dim row rows
        then Saved (rows_of embed images) (entries_of embed lookup images)
        else ShapeError None
    end
  /\ Forall2 (fun e m => embed (filename m) = Some e
                         /\ m = meta_entry lookup (filename m))
             (rows_of embed images) (entries_of embed lookup images)
  /\ List.map filename (entries_of embed lookup images)
     = List.filter (embeddable embed) images.
Proof.
  apply (fresh_run_saves_embeddable_images embed lookup images 32%Z).
  - repeat constructor; cbn; intuition discriminate.
  - discriminate.
  - discriminate.
Defined.

(** X15.  Resuming gives what an uninterrupted run gives: started from
    a checkpoint that holds the variables after a beginning of the
    images, the run ends as the run without a checkpoint does, saved
    rows and entries included (distinct images, batch size other than
    zero). *)
Theorem resumed_run_saves_the_same
    (process_image : string -> option vec) (card_lookup : dict CardData)
    (handled image_files : list string) (batch_size : Z) :
  NoDup image_files ->
  (batch_size <> 0)%Z ->
  prefix_of handled image_files ->
  without_checkpoint
    (generate_embeddings process_image card_lookup image_files
       (Some (checkpoint_after process_image card_lookup handled))
       batch_size)
  = without_checkpoint
      (generate_embeddings process_image card_lookup image_files None
                           batch_size).
Proof.
  intros N B Pre.
  destruct image_files as [|f files]; [reflexivity|].
  rewrite (generate_from_valid process_image card_lookup batch_size
             (f :: files) None B N); [|discriminate|exact I].
  rewrite (generate_from_valid process_image card_lookup batch_size
             (f :: files) _ B N); [reflexivity|discriminate|].
  cbn. now exists handled.
Qed.

Lemma resumed_run_saves_the_same_witness :
  without_checkpoint
    (generate_embeddings embed lookup images
       (Some (checkpoint_after embed lookup
                ["base1-27_Farfetchd_large.png"]))
       32%Z)
  = without_checkpoint (generate_embeddings embed lookup images None 32%Z).
Proof.
  apply (resumed_run_saves_the_same embed lookup
           ["base1-27_Farfetchd_large.png"] images 32%Z).
  - repeat constructor; cbn; intuition discriminate.
  - discriminate.
  - exists ["base1-43_Abra_large.png"; "broken_large.png"]. reflexivity.
Defined.

(** X16.  The checkpoint file always holds the variables after a
    beginning of the images: if that is so when a run starts (or there
    is no checkpoint), it is so whenever the run stops, wherever in its
    loop that is and whatever the batch size. *)
Theorem checkpoints_stay_valid
    (process_image : string -> option vec) (card_lookup : dict CardData)
    (image_files done : list string) (checkpoint : option Checkpoint)
    (batch_size : Z) (st : GenState) (b : bool) :
  NoDup image_files ->
  valid process_image card_lookup image_files checkpoint ->
  prefix_of done
    (skipn (List.length (g_embeddings (initial_state checkpoint)))
           image_files) ->
  gen_loop process_image card_lookup batch_size 0 done
           (initial_state checkpoint) = (st, b) ->
  valid process_image card_lookup image_files (g_checkpoint st)
  /\ aligned (g_checkpoint st).
Proof.
  intros N V Pre H.
  assert (V' := gen_loop_keeps_valid process_image card_lookup batch_size
                  image_files done checkpoint st b N V Pre H).
  split; [exact V'|].
  destruct (g_checkpoint st) as [ck|]; [|exact I].
  destruct V' as (P & _ & ->). cbn. apply rows_entries_length.
Qed.

Lemma checkpoints_stay_valid_witness :
  valid embed lookup images
    (g_checkpoint
       (fst (gen_loop embed lookup 1%Z 0
               ["base1-27_Farfetchd_large.png"; "base1-43_Abra_large.png"]
               (initial_state None))))
  /\ aligned
       (g_checkpoint
          (fst (gen_loop embed lookup 1%Z 0
                  ["base1-27_Farfetchd_large.png";
                   "base1-43_Abra_large.png"]
                  (initial_state None)))).
Proof.
  apply (checkpoints_stay_valid embed lookup images
           ["base1-27_Farfetchd_large.png"; "base1-43_Abra_large.png"]
           None 1%Z _ (snd (gen_loop embed lookup 1%Z 0
               ["base1-27_Farfetchd_large.png"; "base1-43_Abra_large.png"]
               (initial_state None)))).
  - repeat constructor; cbn; intuition discriminate.
  - exact I.
  - exists ["broken_large.png"]. reflexivity.
  - apply surjective_pairing.
Defined.

(** X17.  With batch size zero a run without a checkpoint embeds the
    first image and then raises [ZeroDivisionError]: nothing is saved,
    and no checkpoint is written. *)
Theorem zero_batch_size_raises
    (process_image : string -> option vec) (card_lookup : dict CardData)
    (image_name : string) (rest : list string) :
  generate_embeddings process_image card_lookup (image_name :: rest) None 0%Z
  = ZeroDivisionError None.
Proof.
  unfold generate_embeddings. cbn. unfold process_one.
  now destruct (process_image image_name).
Qed.

(** ** From the run to the index the scanner loads *)

(** X18.  What a run saves makes an index with a row for every metadata
    entry: started from nothing or from a checkpoint with as many rows
    as entries, the saved rows and entries are equally many, all rows
    have the length recorded as [embedding_dim], [num_cards] is their
    number, and the index the scanner loads from it has one embedding
    row per metadata entry. *)
Theorem built_index_is_aligned
    (process_image : string -> option vec) (card_lookup : dict CardData)
    (image_files : list string) (checkpoint : option Checkpoint)
    (batch_size : Z) (embeddings : list vec) (metadata : list MetaEntry) :
  aligned checkpoint ->
  generate_embeddings process_image card_lookup image_files checkpoint
                      batch_size
  = Saved embeddings metadata ->
  exists search_index,
    create_search_index (Some (embeddings, metadata))
    = Ok (Some search_index)
    /\ fi_embeddings search_index = embeddings
    /\ fi_metadata search_index = metadata
    /\ num_cards search_index = List.length metadata
    /\ Forall (fun row => List.length row = embedding_dim search_index)
              embeddings
    /\ List.length (Scanner.metadata (scanner_index search_index))
       = List.length (Scanner.embeddings (scanner_index search_index)).
Proof.
  intros A H. unfold generate_embeddings in H.
  destruct image_files as [|f files]; [discriminate|].
  destruct (gen_loop process_image card_lookup batch_size 0
              (skipn (List.length (g_embeddings (initial_state checkpoint)))
                     (f :: files))
              (initial_state checkpoint)) as (st, b) eqn:L.
  apply gen_loop_aligned in L.
  2:{ destruct checkpoint as [ck|]; [exact A|reflexivity]. }
  destruct b; [|discriminate].
  destruct (g_embeddings st) as [|row rows] eqn:E; [discriminate|].
  destruct (same_dim row rows) eqn:SD; [|discriminate].
  injection H as <- <-. cbn [create_search_index].
  eexists. split; [reflexivity|]. cbn.
  repeat split; trivial.
  - constructor; [reflexivity|]. apply Forall_forall. intros r Hr.
    unfold same_dim in SD. rewrite List.forallb_forall in SD.
    apply Nat.eqb_eq. now apply SD.
  - rewrite List.length_map. cbn in L |- *. now symmetry.
Qed.

Lemma built_index_is_aligned_witness :
  exists search_index,
    create_search_index
      (Some ([[0; 1]; [1; 0]]%R, entries_of embed lookup images))
    = Ok (Some search_index)
    /\ fi_embeddings search_index = [[0; 1]; [1; 0]]%R
    /\ fi_metadata search_index = entries_of embed lookup images
    /\ num_cards search_index
       = List.length (entries_of embed lookup images)
    /\ Forall (fun row => List.length row = embedding_dim search_index)
              [[0; 1]; [1; 0]]%R
    /\ List.length (Scanner.metadata (scanner_index search_index))
       = List.length (Scanner.embeddings (scanner_index search_index)).
Proof.
  apply (built_index_is_aligned embed lookup images None 32%Z).
  - exact I.
  - reflexivity.
Defined.

(** ** The card lookup *)

(** X19.  When [load_card_data] succeeds, the lookup finds under a file
    name the last card of the catalog that has a large image and whose
    set id, number and name make that file name, and nothing when there
    is no such card. *)
Theorem lookup_finds_the_last_card (all_cards : list CardData)
    (card_lookup : dict CardData) (key : string) :
  load_card_data all_cards = Ok card_lookup ->
  dict_get key card_lookup = find (expects key) (rev all_cards).
Proof.
  intros H. unfold load_card_data in H.
  rewrite (load_loop_lookup _ _ _ key H).
  now destruct (find (expects key) (rev all_cards)).
Qed.

Lemma lookup_finds_the_last_card_witness :
  dict_get "base1-43_Abra_large.png" lookup
  = find (expects "base1-43_Abra_large.png") (rev cards).
Proof.
  apply (lookup_finds_the_last_card cards lookup "base1-43_Abra_large.png").
  reflexivity.
Defined.

(** X20.  [load_card_data] raises exactly when a card with a large
    image lacks ['set'], the ['id'] of its set, ['number'] or ['name'];
    what it raises is the [KeyError] of the first of these keys that
    the first such card lacks. *)
Theorem load_fails_on_first_incomplete_card (all_cards : list CardData)
    (e : exn) :
  load_card_data all_cards = Raise e <->
  exists card key,
    find incomplete all_cards = Some card
    /\ missing_key card = Some key /\ e = KeyError key.
Proof.
  apply load_loop_raise.
Qed.

(** ** The names of the image files *)

(** X21.  The safe name that [process_card] makes of a card has at most
    50 characters, all of them letters or digits ([str.isalnum]),
    hyphens or underscores. *)
Theorem safe_name_is_safe (card : CardData) :
  (String.length (safe_name card) <= 50)%nat
  /\ Text.forallb safe_char (safe_name card) = true.
Proof.
  split; [apply substring_length|apply safe_name_safe].
Qed.

(** X22.  The downloader and the embedding script agree on the file of
    a card's large image when the card's id is its set id, a hyphen and
    its number, the id is made of letters, digits, hyphens and
    underscores, the name of letters, digits, hyphens, underscores and
    spaces without white space at its end, and id, underscore and name
    are at most 50 characters together. *)
Theorem downloaded_image_is_expected (card : CardData) (card_set : SetInfo)
    (images : Images) (sid nm url : string) (num : pyval) :
  cd_set card = Some card_set ->
  set_id card_set = Some sid ->
  cd_number card = Some num ->
  cd_name card = Some nm ->
  cd_id card = Some (sid ++ "-" ++ py_str num)%string ->
  cd_images card = Some images ->
  large images = Some url ->
  url <> ""%string ->
  Text.forallb safe_char (sid ++ "-" ++ py_str num) = true ->
  Text.forallb kept nm = true ->
  rstrip nm = nm ->
  (String.length (sid ++ "-" ++ py_str num) + 1 + String.length nm <= 50)%nat ->
  exists file,
    large_image_name card = Some file /\ local_filename card = Ok file.
Proof.
  intros Hset Hsid Hnum Hnm Hid Him Hlarge Hurl Sid Knm Rnm Len.
  set (cid := (sid ++ "-" ++ py_str num)%string) in *.
  assert (SN : safe_name card
               = (cid ++ "_" ++ spaces_to_underscores nm)%string).
  { unfold safe_name. rewrite Hid, Hnm. cbn [get].
    assert (K : Text.forallb kept (cid ++ "_" ++ nm) = true).
    { rewrite !forallb_app, Knm, andb_true_r.
      now rewrite (forallb_imp safe_char kept cid safe_char_kept Sid). }
    rewrite (filter_all _ _ K).
    assert (R : rstrip (cid ++ "_" ++ nm)%string = (cid ++ "_" ++ nm)%string).
    { rewrite rstrip_append.
      - f_equal. cbn. rewrite Rnm. now destruct nm.
      - cbn. rewrite Rnm. now destruct nm. }
    rewrite R, !underscores_append, (underscores_id cid Sid).
    change (spaces_to_underscores "_") with "_"%string.
    apply substring_all. rewrite !length_append, underscores_length.
    cbn. lia. }
  exists (safe_name card ++ "_large.png")%string.
  split.
  - unfold large_image_name. rewrite Him. cbn [get]. rewrite Hlarge.
    apply truthy_iff in Hurl. now rewrite Hurl.
  - unfold local_filename. rewrite Hset. cbn [subscript bind].
    rewrite Hsid, Hnum, Hnm. cbn [subscript bind]. f_equal.
    rewrite SN. unfold cid. now rewrite !append_assoc.
Qed.

Lemma downloaded_image_is_expected_witness :
  exists file,
    large_image_name abra = Some file /\ local_filename abra = Ok file.
Proof.
  apply (downloaded_image_is_expected abra base_set
           {| large := Some "https://images.pokemontcg.io/base1/43_hires.png";
              small := Some "https://images.pokemontcg.io/base1/43.png" |}
           "base1" "Abra"
           "https://images.pokemontcg.io/base1/43_hires.png" (PStr "43")).
  - reflexivity.
  - reflexivity.
  - reflexivity.
  - reflexivity.
  - reflexivity.
  - reflexivity.
  - reflexivity.
  - discriminate.
  - reflexivity.
  - reflexivity.
  - reflexivity.
  - cbn. lia.
Defined.

(** X23.  They disagree when the card's name has a character that the
    downloader drops (an apostrophe, a period, ...), or when the file
    name the script expects has more than 60 characters: then the
    downloaded file is not the one the script expects for the card, and
    the lookup never finds the card under the downloaded file's
    name. *)
Theorem unsafe_name_image_is_not_found (card : CardData)
    (key file : string) :
  local_filename card = Ok key ->
  large_image_name card = Some file ->
  (exists nm, cd_name card = Some nm /\ Text.forallb kept nm = false)
  \/ (60 < String.length key)%nat ->
  file <> key
  /\ forall all_cards card_lookup,
       load_card_data all_cards = Ok card_lookup ->
       dict_get file card_lookup <> Some card.
Proof.
  intros K F C.
  assert (N : file <> key).
  { intros ->. unfold large_image_name in F.
    destruct (large (get (cd_images card) no_images))
      as [u|]; [|discriminate].
    destruct (truthy u); [|discriminate]. injection F as F.
    unfold local_filename, subscript in K.
    destruct (cd_set card) as [s|]; [|discriminate]. cbn [bind] in K.
    destruct (set_id s) as [sid|]; [|discriminate]. cbn [bind] in K.
    destruct (cd_number card) as [num|]; [|discriminate]. cbn [bind] in K.
    destruct (cd_name card) as [nm|]; [|discriminate]. cbn [bind] in K.
    injection K as K.
    assert (E : safe_name card
                = (sid ++ "-" ++ py_str num ++ "_"
                       ++ spaces_to_underscores nm)%string).
    { apply (append_cancel_r _ _ "_large.png"). rewrite F, <- K.
      now rewrite !append_assoc. }
    destruct C as [(nm' & [= <-] & U)|L].
    - pose proof (safe_name_safe card) as S. rewrite E in S.
      rewrite <- !append_assoc, forallb_app in S.
      rewrite (underscores_unsafe nm U), andb_false_r in S.
      discriminate.
    - assert (B : (String.length (safe_name card) <= 50)%nat)
        by apply substring_length.
      rewrite E in B. rewrite <- K in L.
      repeat (rewrite length_append in B || cbn [String.length append] in B).
      repeat (rewrite length_append in L || cbn [String.length append] in L).
      lia. }
  split; [exact N|].
  intros all_cards card_lookup H G.
  destruct (dict_get_expected all_cards card_lookup file card H G)
    as (_ & X).
  congruence.
Qed.

Lemma unsafe_name_image_is_not_found_witness :
  "base1-27_Farfetchd_large.png"%string
  <> "base1-27_Farfetch'd_large.png"%string
  /\ forall all_cards card_lookup,
       load_card_data all_cards = Ok card_lookup ->
       dict_get "base1-27_Farfetchd_large.png" card_lookup
       <> Some farfetchd.
Proof.
  apply (unsafe_name_image_is_not_found farfetchd
           "base1-27_Farfetch'd_large.png" "base1-27_Farfetchd_large.png").
  - reflexivity.
  - reflexivity.
  - left. exists "Farfetch'd"%string. split; reflexivity.
Defined.

(** ** The similarity search *)

(** X24.  On an index with metadata for every row and rows of the
    query's dimension, [search_similar_cards] returns the [top_k] most
    similar entries, most similar first: as many results as the slice
    [[:top_k]] of the rows has, each the dot product of a row with the
    query together with the metadata at the row's position, no position
    twice, similarities not increasing, and no row left out is more
    similar than a returned one.  This holds whichever order
    [np.argsort] gives to equal similarities. *)
Theorem search_returns_the_most_similar (argsort : list R -> list nat)
    (search_index : FullIndex) (q : vec) (top_k : Z) :
  is_argsort argsort ->
  Forall (fun row => List.length row = List.length q)
         (fi_embeddings search_index) ->
  (List.length (fi_embeddings search_index)
   <= List.length (fi_metadata search_index))%nat ->
  exists top_indices results,
    search_similar_cards argsort (Some search_index) (Some q) top_k
    = Ok (Some results)
    /\ NoDup top_indices
    /\ Forall2 (fun idx r =>
                  exists row,
                    nth_error (fi_embeddings search_index) idx = Some row
                    /\ fst r = dot row q
                    /\ nth_error (fi_metadata search_index) idx
                       = Some (snd r))
               top_indices results
    /\ List.length results
       = slice_length top_k (List.length (fi_embeddings search_index))
    /\ StronglySorted (fun r1 r2 => (fst r2 <= fst r1)%R) results
    /\ forall idx row r,
         nth_error (fi_embeddings search_index) idx = Some row ->
         ~ In idx top_indices ->
         In r results ->
         (dot row q <= fst r)%R.
Proof.
  intros Arg Dim Len.
  set (E := fi_embeddings search_index) in *.
  set (M := fi_metadata search_index) in *.
  set (sims := List.map (fun e => dot e q) E).
  assert (Ls : List.length sims = List.length E) by apply List.length_map.
  assert (Nth : forall idx row, nth_error E idx = Some row ->
                                nth idx sims 0%R = dot row q).
  { intros idx row H. apply nth_error_nth.
    unfold sims. now rewrite nth_error_map, H. }
  destruct (Arg sims) as (P & S).
  set (desc := rev (argsort sims)).
  assert (Pd : Permutation desc (seq 0 (List.length E))).
  { unfold desc. rewrite <- Permutation_rev. now rewrite <- Ls. }
  assert (Sd : StronglySorted
                 (fun i j => (nth j sims 0 <= nth i sims 0)%R) desc).
  { unfold desc. now apply strongly_sorted_rev in S. }
  assert (Nd : NoDup desc).
  { apply (Permutation_NoDup (Permutation_sym Pd)), seq_NoDup. }
  destruct (slice_to_firstn top_k desc) as (m & Sl & Lm).
  assert (Ld : List.length desc = List.length E).
  { rewrite (Permutation_length Pd). apply length_seq. }
  rewrite Ld in Lm.
  assert (Split : desc = firstn m desc ++ skipn m desc)
    by (symmetry; apply firstn_skipn).
  set (top := firstn m desc) in *.
  assert (Range : forall idx, In idx desc <-> (idx < List.length E)%nat).
  { intros idx. split; intros H.
    - apply (Permutation_in _ Pd), in_seq in H. lia.
    - apply (Permutation_in _ (Permutation_sym Pd)), in_seq. lia. }
  assert (Top : forall idx, In idx top -> In idx desc).
  { intros idx H. rewrite Split. apply in_or_app. now left. }
  destruct (collect_results_ok sims M top) as (results & C & F2).
  { apply Forall_forall. intros idx H. apply Top, Range in H. lia. }
  exists top, results. split.
  { unfold search_similar_cards, np_dot. fold E. fold M.
    rewrite (proj2 (same_dim_forall q E) Dim). cbn [bind].
    fold sims. fold desc. rewrite Sl. fold top.
    now rewrite C. }
  split.
  { rewrite Split in Nd. now apply NoDup_app_remove_r in Nd. }
  assert (F2' : Forall2 (fun idx r => nth idx sims 0%R = fst r) top results).
  { eapply Forall2_impl; [|exact F2]. cbn. intros idx r (H & _).
    now apply nth_error_nth. }
  split.
  { eapply Forall2_impl; [|exact F2]. cbn. intros idx r (Hs & Hm).
    destruct (nth_error E idx) as [row|] eqn:Er.
    - exists row. split; [reflexivity|]. split; [|exact Hm].
      rewrite <- (Nth idx row Er). symmetry. now apply nth_error_nth.
    - apply nth_error_None in Er.
      assert (nth_error sims idx <> None) by congruence.
      apply nth_error_Some in H. lia. }
  split.
  { rewrite <- (Forall2_length F2). unfold top.
    now rewrite List.length_firstn, Ld. }
  assert (Sd' := Sd). rewrite Split in Sd'.
  apply strongly_sorted_app in Sd'. destruct Sd' as (St & _ & Cross).
  split; [now apply (results_sorted sims top)|].
  intros idx row r Hrow Out Hr.
  assert (In idx desc).
  { apply Range, nth_error_Some. congruence. }
  rewrite Split in H. apply in_app_or in H.
  destruct H as [H|H]; [contradiction|].
  destruct (forall2_in_r _ _ _ r F2' Hr) as (t & Ht & Et).
  specialize (Cross t idx Ht H). cbn in Cross.
  now rewrite <- Et, <- (Nth idx row Hrow).
Qed.

Lemma search_returns_the_most_similar_witness :
  exists top_indices results,
    search_similar_cards stable_argsort (Some built_index)
                         (Some [1; 0]%R) 1
    = Ok (Some results)
    /\ NoDup top_indices
    /\ Forall2 (fun idx r =>
                  exists row,
                    nth_error (fi_embeddings built_index) idx = Some row
                    /\ fst r = dot row [1; 0]%R
                    /\ nth_error (fi_metadata built_index) idx
                       = Some (snd r))
               top_indices results
    /\ List.length results
       = slice_length 1 (List.length (fi_embeddings built_index))
    /\ StronglySorted (fun r1 r2 => (fst r2 <= fst r1)%R) results
    /\ forall idx row r,
         nth_error (fi_embeddings built_index) idx = Some row ->
         ~ In idx top_indices ->
         In r results ->
         (dot row [1; 0]%R <= fst r)%R.
Proof.
  apply (search_returns_the_most_similar stable_argsort built_index
           [1; 0]%R 1).
  - apply stable_argsort_is_argsort.
  - repeat constructor.
  - cbn. lia.
Defined.

(** X25.  The search raises [ValueError] when a row of the index has
    another dimension than the query, and [IndexError] when the index
    has fewer metadata entries than rows and [top_k] is at least the
    number of rows. *)
Theorem search_faults (argsort : list R -> list nat)
    (search_index : FullIndex) (q : vec) (top_k : Z) :
  is_argsort argsort ->
  (Exists (fun row => List.length row <> List.length q)
          (fi_embeddings search_index)
   \/ (List.length (fi_metadata search_index)
       < List.length (fi_embeddings search_index))%nat
      /\ (Z.of_nat (List.length (fi_embeddings search_index)) <= top_k)%Z) ->
  exists e,
    search_similar_cards argsort (Some search_index) (Some q) top_k
    = Raise e
    /\ (Exists (fun row => List.length row <> List.length q)
               (fi_embeddings search_index) -> e = ValueError)
    /\ (Forall (fun row => List.length row = List.length q)
               (fi_embeddings search_index) -> e = IndexError).
Proof.
  intros Arg H.
  set (E := fi_embeddings search_index) in *.
  set (M := fi_metadata search_index) in *.
  unfold search_similar_cards, np_dot. fold E. fold M.
  destruct (same_dim q E) eqn:SD.
  - apply same_dim_forall in SD.
    destruct H as [X|(Short & All)].
    { apply Exists_exists in X. destruct X as (row & Hr & Ne).
      rewrite Forall_forall in SD. now specialize (SD row Hr). }
    cbn [bind]. set (sims := List.map (fun e => dot e q) E).
    assert (Ls : List.length sims = List.length E)
      by apply List.length_map.
    destruct (Arg sims) as (P & _).
    rewrite slice_to_all.
    2:{ rewrite List.length_rev, (Permutation_length P), length_seq. lia. }
    rewrite (collect_results_raise sims M _ (List.length M)); [|  |lia].
    + exists IndexError. split; [reflexivity|]. split; [|reflexivity].
      intros X. apply Exists_exists in X. destruct X as (row & Hr & Ne).
      rewrite Forall_forall in SD. now specialize (SD row Hr).
    + apply -> in_rev.
      apply (Permutation_in _ (Permutation_sym P)), in_seq. lia.
  - exists ValueError. split; [reflexivity|]. split; [reflexivity|].
    intros F. apply same_dim_forall in F. congruence.
Qed.

Lemma search_faults_witness :
  exists e,
    search_similar_cards stable_argsort (Some bare_index) (Some [1; 0]%R) 10
    = Raise e
    /\ (Exists (fun row => List.length row <> List.length [1; 0]%R)
               (fi_embeddings bare_index) -> e = ValueError)
    /\ (Forall (fun row => List.length row = List.length [1; 0]%R)
               (fi_embeddings bare_index) -> e = IndexError).
Proof.
  apply (search_faults stable_argsort bare_index [1; 0]%R 10).
  - apply stable_argsort_is_argsort.
  - right. cbn. lia.
Defined.

(** ** From the image files to the answer of a scan *)

(** X26.  A card whose image is not among the image files under the
    name the script expects is never the answer of a scan: when no
    catalog card with the id [cid] is looked up under the name of an
    image file, no entry of the index that a run without a checkpoint
    builds has the card id [cid], and no scan over that index answers
    with a card of that id. *)
Theorem unexpected_image_card_is_never_found
    (process_image : string -> option vec) (catalog : list CardData)
    (card_lookup : dict CardData) (image_files : list string)
    (batch_size : Z) (embeddings : list vec) (metadata : list MetaEntry)
    (search_index : FullIndex) (cid : string)
    (all_cards : list Card) (ocr_results : list string)
    (query_embedding : option vec) (card : Card) (ocr_confirmed : bool)
    (s : Z) (match_method : string) :
  load_card_data catalog = Ok card_lookup ->
  cid <> ""%string ->
  (forall c f, In c catalog -> cd_id c = Some cid -> In f image_files ->
               local_filename c <> Ok f) ->
  generate_embeddings process_image card_lookup image_files None batch_size
  = Saved embeddings metadata ->
  create_search_index (Some (embeddings, metadata))
  = Ok (Some search_index) ->
  Forall (fun m => entry_card_id m <> cid) (fi_metadata search_index)
  /\ (scan_card all_cards (scanner_index search_index) ocr_results
                query_embedding
      = Found card ocr_confirmed s match_method ->
      id card <> cid).
Proof.
  intros Load Ne Un Gen Idx.
  assert (F : Forall (fun m => entry_card_id m <> cid) metadata).
  { apply (saved_entries process_image card_lookup _ batch_size image_files
             embeddings metadata); [|exact Gen].
    intros f Hf. unfold meta_entry. cbn [entry_card_id].
    destruct (dict_get f card_lookup) as [c|] eqn:G; cbn [get].
    - destruct (dict_get_expected catalog card_lookup f c Load G)
        as (Hc & K).
      destruct (cd_id c) as [x|] eqn:X; cbn [get].
      + intros ->. exact (Un c f Hc X Hf K).
      + congruence.
    - cbn. congruence. }
  assert (EM : fi_metadata search_index = metadata).
  { unfold create_search_index in Idx.
    destruct embeddings; [discriminate|]. now injection Idx as <-. }
  rewrite EM. split; [exact F|].
  intros Scan.
  destruct (found_card_has_an_entry _ _ _ _ _ _ _ _ Scan) as (m & Hm & ->).
  unfold scanner_index in Hm. cbn [Scanner.metadata] in Hm.
  rewrite EM in Hm. apply in_map_iff in Hm.
  destruct Hm as (m' & <- & Hm'). cbn [to_meta card_id].
  rewrite Forall_forall in F. now apply F.
Qed.

Lemma unexpected_image_card_is_never_found_witness :
  Forall (fun m => entry_card_id m <> "base1-27"%string)
         (fi_metadata built_index)
  /\ (scan_card [abra_card] (scanner_index built_index) ["Abra"] None
      = Found abra_card true 20%Z "Scoring" ->
      id abra_card <> "base1-27"%string).
Proof.
  apply (unexpected_image_card_is_never_found embed cards lookup images
           32%Z [[0; 1]; [1; 0]]%R (entries_of embed lookup images)
           built_index "base1-27" [abra_card] ["Abra"] None abra_card true
           20%Z "Scoring").
  - reflexivity.
  - discriminate.
  - intros c f [<-|[<-|[]]] X; [discriminate|].
    intros [<-|[<-|[<-|[]]]]; discriminate.
  - reflexivity.
  - reflexivity.
Defined.

(** X27.  An image under the name the script expects for a card is
    indexed under that card: in what a run without a checkpoint saves
    (distinct images, batch size other than zero), an image that
    [process_image] embeds has a row, its embedding, and at the same
    position an entry with its file name and with the id and the name
    of the last catalog card that is looked up under that file
    name. *)
Theorem expected_image_is_indexed_under_its_card
    (process_image : string -> option vec) (catalog : list CardData)
    (card_lookup : dict CardData) (image_files : list string)
    (batch_size : Z) (embeddings : list vec) (metadata : list MetaEntry)
    (f : string) (e : vec) (card : CardData) :
  NoDup image_files ->
  (batch_size <> 0)%Z ->
  load_card_data catalog = Ok card_lookup ->
  In f image_files ->
  process_image f = Some e ->
  find (expects f) (rev catalog) = Some card ->
  generate_embeddings process_image card_lookup image_files None batch_size
  = Saved embeddings metadata ->
  exists k m,
    nth_error embeddings k = Some e
    /\ nth_error metadata k = Some m
    /\ filename m = f
    /\ entry_card_id m = get (cd_id card) ""%string
    /\ entry_name m = get (cd_name card) ""%string.
Proof.
  intros N B Load Hf He Fc Gen.
  assert (NE : image_files <> []) by (intros ->; destruct Hf).
  pose proof (generate_from_valid process_image card_lookup batch_size
                image_files None B N NE I) as G.
  rewrite Gen in G. cbn [without_checkpoint] in G.
  destruct (rows_of process_image image_files) as [|row more] eqn:R;
    [discriminate|].
  destruct (same_dim row more); [|discriminate].
  injection G as -> ->. rewrite <- R.
  destruct (rows_entries_nth process_image card_lookup image_files f e
              Hf He) as (k & Hr & Hm).
  exists k, (meta_entry card_lookup f).
  split; [exact Hr|]. split; [exact Hm|]. split; [reflexivity|].
  unfold load_card_data in Load.
  pose proof (load_loop_lookup _ _ _ f Load) as L. rewrite Fc in L.
  unfold meta_entry. cbn [entry_card_id entry_name]. rewrite L.
  now split.
Qed.

Lemma expected_image_is_indexed_under_its_card_witness :
  exists k m,
    nth_error [[0; 1]; [1; 0]]%R k = Some [1; 0]%R
    /\ nth_error (entries_of embed lookup images) k = Some m
    /\ filename m = "base1-43_Abra_large.png"%string
    /\ entry_card_id m = get (cd_id abra) ""%string
    /\ entry_name m = get (cd_name abra) ""%string.
Proof.
  apply (expected_image_is_indexed_under_its_card embed cards lookup
           images 32%Z [[0; 1]; [1; 0]]%R (entries_of embed lookup images)
           "base1-43_Abra_large.png" [1; 0]%R abra).
  - repeat constructor; cbn; intuition discriminate.
  - discriminate.
  - reflexivity.
  - right. now left.
  - reflexivity.
  - reflexivity.
  - reflexivity.
Defined.

(** ** The counters of the downloader *)

(** X28.  [process_card] counts every card it is given, and it returns
    [None], so that the card is left out of the card database, exactly
    when [total_cards] is zero and the card is the tenth, twentieth,
    ... one: the progress line divides by [total_cards].  The card is
    then recorded in [failed_cards] with the error "division by
    zero". *)
Theorem every_tenth_card_is_dropped_without_totals (files : Type)
    (file_exists : files -> string -> bool)
    (download_image : string -> string -> files -> bool * files)
    (card : CardData) (stats stats' : Stats) (dir dir' : files)
    (result : option Processed) :
  process_card files file_exists download_image card stats dir
  = (result, stats', dir') ->
  downloaded_cards stats' = (downloaded_cards stats + 1)%Z
  /\ total_cards stats' = total_cards stats
  /\ (result = None <->
      total_cards stats = 0%Z
      /\ ((downloaded_cards stats + 1) mod 10 = 0)%Z)
  /\ (result = None ->
      exists before,
        failed_cards stats'
        = before ++ [{| failure_card_id := get (cd_id card) "unknown";
                        failure_error := "division by zero";
                        failure_url := None |}])
  /\ (forall p, result = Some p -> card_data p = card).
Proof.
  unfold process_card.
  destruct (large_image files file_exists download_image card stats dir)
    as ((ll, st1), d1) eqn:L.
  destruct (small_image files file_exists download_image card st1 d1)
    as ((ls, st2), d2) eqn:Sm.
  destruct (large_image_counters _ _ _ _ _ _ _ _ _ L) as (T1 & D1).
  destruct (small_image_counters _ _ _ _ _ _ _ _ _ Sm) as (T2 & D2).
  rewrite T2, T1, D2, D1.
  destruct (((downloaded_cards stats + 1) mod 10 =? 0)%Z
            && (total_cards stats =? 0)%Z) eqn:C.
  - intros [= <- <- <-]. cbn.
    apply andb_true_iff in C. destruct C as (C1 & C2).
    apply Z.eqb_eq in C1, C2.
    repeat split; trivial; try discriminate.
    intros _. now exists (failed_cards st2).
  - intros [= <- <- <-]. cbn.
    repeat split; trivial; try discriminate.
    + intros (C2 & C1). apply Z.eqb_eq in C1, C2.
      rewrite C1, C2 in C. discriminate.
    + now intros p [= <-].
Qed.

Lemma every_tenth_card_is_dropped_without_totals_witness :
  downloaded_cards
    (snd (fst (process_card (list string) listed fetch abra no_totals [])))
  = (downloaded_cards no_totals + 1)%Z
  /\ total_cards
       (snd (fst (process_card (list string) listed fetch abra
                               no_totals [])))
     = total_cards no_totals
  /\ (fst (fst (process_card (list string) listed fetch abra no_totals []))
      = None <->
      total_cards no_totals = 0%Z
      /\ ((downloaded_cards no_totals + 1) mod 10 = 0)%Z)
  /\ (fst (fst (process_card (list string) listed fetch abra no_totals []))
      = None ->
      exists before,
        failed_cards
          (snd (fst (process_card (list string) listed fetch abra
                                  no_totals [])))
        = before ++ [{| failure_card_id := get (cd_id abra) "unknown";
                        failure_error := "division by zero";
                        failure_url := None |}])
  /\ (forall p,
        fst (fst (process_card (list string) listed fetch abra
                               no_totals []))
        = Some p ->
        card_data p = abra).
Proof.
  apply (every_tenth_card_is_dropped_without_totals (list string) listed
           fetch abra no_totals _ [] 
           (snd (process_card (list string) listed fetch abra no_totals []))).
  reflexivity.
Defined.

(** X29.  [process_card] does not download an image whose file exists:
    when the files of both images of a card exist, the image directory
    and the failure counters stay as they are, and the returned card
    has the key ['local_image_large'] with the name of the file of the
    large image but not the key ['local_image_small']. *)
Theorem existing_images_are_not_downloaded (files : Type)
    (file_exists : files -> string -> bool)
    (download_image : string -> string -> files -> bool * files)
    (card : CardData) (images : Images) (large_url small_url : string)
    (stats stats' : Stats) (dir dir' : files) (p : Processed) :
  cd_images card = Some images ->
  large images = Some large_url ->
  large_url <> ""%string ->
  small images = Some small_url ->
  small_url <> ""%string ->
  file_exists dir (safe_name card ++ "_large.png")%string = true ->
  file_exists dir (safe_name card ++ "_small.png")%string = true ->
  process_card files file_exists download_image card stats dir
  = (Some p, stats', dir') ->
  dir' = dir
  /\ failed_downloads stats' = failed_downloads stats
  /\ failed_cards stats' = failed_cards stats
  /\ local_image_large p = Some (safe_name card ++ "_large.png")%string
  /\ local_image_small p = None.
Proof.
  intros Him Hl Tl Hs Ts El Es.
  apply truthy_iff in Tl, Ts.
  unfold process_card, large_image, small_image.
  rewrite Him. cbn [get]. rewrite Hl, Hs, Tl, Ts, El. cbn [negb].
  rewrite Es. cbn [negb].
  destruct (_ && _)%bool; [discriminate|].
  intros [= <- <- <-]. cbn. now repeat split.
Qed.

Lemma existing_images_are_not_downloaded_witness :
  snd (process_card (list string) listed fetch abra with_totals abra_images)
  = abra_images
  /\ failed_downloads
       (snd (fst (process_card (list string) listed fetch abra with_totals
                               abra_images)))
     = failed_downloads with_totals
  /\ failed_cards
       (snd (fst (process_card (list string) listed fetch abra with_totals
                               abra_images)))
     = failed_cards with_totals
  /\ local_image_large
       {| card_data := abra;
          local_image_large := Some "base1-43_Abra_large.png"%string;
          local_image_small := None |}
     = Some (safe_name abra ++ "_large.png")%string
  /\ local_image_small
       {| card_data := abra;
          local_image_large := Some "base1-43_Abra_large.png"%string;
          local_image_small := None |}
     = None.
Proof.
  apply (existing_images_are_not_downloaded (list string) listed fetch abra
           {| large := Some "https://images.pokemontcg.io/base1/43_hires.png";
              small := Some "https://images.pokemontcg.io/base1/43.png" |}
           "https://images.pokemontcg.io/base1/43_hires.png"
           "https://images.pokemontcg.io/base1/43.png"
           with_totals).
  - reflexivity.
  - reflexivity.
  - discriminate.
  - reflexivity.
  - discriminate.
  - reflexivity.
  - reflexivity.
  - reflexivity.
Defined.

(** ** Resuming after the images changed *)

(** X30.  Images that come in front of the handled ones when a run is
    resumed are left out: if the checkpoint holds the variables after
    the images [handled], and the list of images now has [added] in
    front of them, no more images than the checkpoint has rows, the
    resumed run ends as a run without a checkpoint over the other
    images does; no image of [added] gets a row or an entry. *)
Theorem resumed_run_skips_images_in_front
    (process_image : string -> option vec) (card_lookup : dict CardData)
    (added handled rest : list string) (batch_size : Z) :
  NoDup (handled ++ rest) ->
  (batch_size <> 0)%Z ->
  handled ++ rest <> [] ->
  (List.length added <= List.length (rows_of process_image handled))%nat ->
  without_checkpoint
    (generate_embeddings process_image card_lookup
       (added ++ handled ++ rest)
       (Some (checkpoint_after process_image card_lookup handled))
       batch_size)
  = without_checkpoint
      (generate_embeddings process_image card_lookup (handled ++ rest)
                           None batch_size).
Proof.
  intros N B NE Le.
  rewrite (generate_from_valid process_image card_lookup batch_size
             (handled ++ rest) None B N NE I).
  destruct (gen_loop_behind process_image card_lookup batch_size added
              handled rest B N Le) as (st' & L & D).
  apply (outcome_of_data process_image card_lookup batch_size _
           (handled ++ rest) _ st'); trivial.
  intros H. apply app_eq_nil in H. destruct H as (_ & H). contradiction.
Qed.

Lemma resumed_run_skips_images_in_front_witness :
  without_checkpoint
    (generate_embeddings embed lookup
       (["base1-27_Farfetchd_large.png"]
        ++ ["base1-43_Abra_large.png"] ++ ["broken_large.png"])
       (Some (checkpoint_after embed lookup ["base1-43_Abra_large.png"]))
       32%Z)
  = without_checkpoint
      (generate_embeddings embed lookup
         (["base1-43_Abra_large.png"] ++ ["broken_large.png"]) None 32%Z).
Proof.
  apply (resumed_run_skips_images_in_front embed lookup
           ["base1-27_Farfetchd_large.png"] ["base1-43_Abra_large.png"]
           ["broken_large.png"] 32%Z).
  - repeat constructor; cbn; intuition discriminate.
  - discriminate.
  - discriminate.
  - cbn. lia.
Defined.

End PipelineExtras.
